(** * Planetary-system: a shallow embedding of the simulation core

    The development follows the Python package [core]:
    - [core/bodies.py]      bodies and system states (module [Bodies]),
    - [core/physics.py]     accelerations and energy (module [Physics]),
    - [core/integrators.py] leapfrog, rk4 and the dispatcher (module [Integrators]),
    - [core/events.py]      event detection and metrics (module [Events]).

    Numbers.  A Python float is modelled by a rational number ([Q]): every
    finite float is a rational, comparisons are exact, and [+], [-], [*], [/]
    are the exact operations (rounding, infinities and NaN are not modelled).
    The library functions with irrational results ([np.linalg.norm],
    [np.arccos], [x ** -1.5]) are kept abstract in the class [FloatLib].

    Exceptions.  A Python exception is a value of [exn]; a computation that
    may raise returns a [result]. *)

From Stdlib Require Import QArith Qabs Qround Qminmax ZArith List String Ascii Lia.
From stdpp Require Import base list gmap strings.

Local Open Scope Q_scope.

(** ** Exceptions and results *)

Inductive exn : Type :=
| ValueError (msg : string)
| IndexError
| ZeroDivisionError.

Inductive result (A : Type) : Type :=
| Ok (a : A)
| Err (e : exn).
Arguments Ok {A} a.
Arguments Err {A} e.

Definition bindR {A B} (r : result A) (k : A -> result B) : result B :=
  match r with
  | Ok a => k a
  | Err e => Err e
  end.

Declare Scope result_scope.
Delimit Scope result_scope with result.
Notation "x <- r ;; k" := (bindR r (fun x => k))
  (at level 100, r at next level, right associativity) : result_scope.

(** [[f(x) for x in l]] in the presence of exceptions. *)
Fixpoint mapR {A B} (f : A -> result B) (l : list A) : result (list B) :=
  match l with
  | [] => Ok []
  | x :: l' => (y <- f x ;; ys <- mapR f l' ;; Ok (y :: ys))%result
  end.

(** [for x in l: acc = f(acc, x)] in the presence of exceptions. *)
Fixpoint foldR {A B} (f : A -> B -> result A) (l : list B) (a : A) : result A :=
  match l with
  | [] => Ok a
  | x :: l' => (a' <- f a x ;; foldR f l' a')%result
  end.

(** ** The part of NumPy the package uses *)

Module Numpy.

(** A row of an [(N, 2)] array. *)
Definition vec : Type := (Q * Q)%type.

Definition vzero : vec := (0, 0).
Definition vadd (a b : vec) : vec := (fst a + fst b, snd a + snd b).
Definition vsub (a b : vec) : vec := (fst a - fst b, snd a - snd b).
Definition vmul (a b : vec) : vec := (fst a * fst b, snd a * snd b).
Definition vscale (c : Q) (a : vec) : vec := (c * fst a, c * snd a).
(** [a * c] with the scalar on the right, as in [velocities * dt]. *)
Definition vscale_r (a : vec) (c : Q) : vec := (fst a * c, snd a * c).
Definition vdiv (a : vec) (c : Q) : vec := (fst a / c, snd a / c).
Definition dot (a b : vec) : Q := fst a * fst b + snd a * snd b.

(** Equality of rows up to the representation of the rationals. *)
Definition veq (a b : vec) : Prop := fst a == fst b /\ snd a == snd b.

Definition Qltb (x y : Q) : bool := negb (Qle_bool y x).

(** The float routines of NumPy whose results are not rational functions
    of their arguments. *)
Class FloatLib : Type := {
  norm : vec -> Q;          (* np.linalg.norm of one row *)
  arccos : Q -> Q;          (* np.arccos *)
  pow_neg_1_5 : Q -> Q;     (* x ** -1.5 *)
  deg2rad_1_5 : Q           (* np.deg2rad(1.5) *)
}.

(** [np.clip(x, lo, hi)]. *)
Definition clip (x lo hi : Q) : Q := Qmin (Qmax x lo) hi.

(** [l[i]] for a non-negative index. *)
Definition index {A} (l : list A) (i : nat) : result A :=
  match l !! i with
  | Some x => Ok x
  | None => Err IndexError
  end.

(** Broadcasting of a binary operation along the first axis: equal lengths
    combine row by row, a one-row operand is repeated, anything else is
    refused. *)
Definition broadcast2 {A B C} (f : A -> B -> C) (xs : list A) (ys : list B)
  : result (list C) :=
  if Nat.eqb (length xs) (length ys) then Ok (zip_with f xs ys)
  else match xs, ys with
       | [x], _ => Ok (map (f x) ys)
       | _, [y] => Ok (map (fun x => f x y) xs)
       | _, _ => Err (ValueError "operands could not be broadcast together")
       end.

(** The binary search of [np.searchsorted(a, v)] (side "left"). *)
Fixpoint binsearch_left (fuel : nat) (a : list Q) (key : Q)
    (min_idx max_idx : nat) : nat :=
  match fuel with
  | O => min_idx
  | S fuel' =>
      if Nat.ltb min_idx max_idx then
        let mid_idx := (min_idx + (max_idx - min_idx) / 2)%nat in
        let mid_val := nth mid_idx a 0 in
        if Qltb mid_val key
        then binsearch_left fuel' a key (mid_idx + 1)%nat max_idx
        else binsearch_left fuel' a key min_idx mid_idx
      else min_idx
  end.

Definition searchsorted (a : list Q) (v : Q) : nat :=
  binsearch_left (length a) a v 0 (length a).

(** [np.mean] of a list of integers. *)
Definition mean (l : list Z) : Q :=
  inject_Z (fold_right Z.add 0%Z l) / inject_Z (Z.of_nat (length l)).

End Numpy.

(** ** core/events.py *)

Module Events.
Import Numpy.
Local Open Scope result_scope.

Record OrbitalMetrics : Type := {
  moon_orbit_count : nat;
  mean_orbits_between_alignments : option Q;
  alignment_times : list Q;
  pericentre_times : list Q
}.

Section Detectors.
Context {F : FloatLib}.

(** One iteration of the loop of [detect_pericentre_passages]. *)
Definition pericentre_step (times radial_distances : list Q)
    (pericentre_times : list Q) (i : nat) : result (list Q) :=
  ri <- index radial_distances i ;;
  rp <- index radial_distances (i - 1) ;;
  rn <- index radial_distances (i + 1) ;;
  if Qltb ri rp && Qltb ri rn
  then t <- index times i ;; Ok (pericentre_times ++ [t])
  else Ok pericentre_times.

Definition detect_pericentre_passages (times : list Q)
    (moon_positions planet_positions : list vec) : result (list Q) :=
  diff <- broadcast2 vsub moon_positions planet_positions ;;
  let radial_distances := map norm diff in
  foldR (pericentre_step times radial_distances)
        (seq 1 (length radial_distances - 2)) [].

(** One iteration of the loop of [detect_alignments]. *)
Definition alignment_step (times : list Q)
    (star_positions planet_positions moon_positions : list vec)
    (angle_threshold : Q)
    (alignments : list Q) (idx : nat) : result (list Q) :=
  p <- index planet_positions idx ;;
  s <- index star_positions idx ;;
  let sp_vector := vsub p s in
  m <- index moon_positions idx ;;
  p' <- index planet_positions idx ;;
  let pm_vector := vsub m p' in
  let sp_norm := norm sp_vector in
  let pm_norm := norm pm_vector in
  if Qeq_bool sp_norm 0 || Qeq_bool pm_norm 0 then Ok alignments
  else
    let cos_angle := dot sp_vector pm_vector / (sp_norm * pm_norm) in
    let cos_angle := clip cos_angle (-1) 1 in
    let angle := arccos cos_angle in
    if Qle_bool angle angle_threshold
    then t <- index times idx ;; Ok (alignments ++ [t])
    else Ok alignments.

Definition detect_alignments (times : list Q)
    (star_positions planet_positions moon_positions : list vec)
    (angle_threshold : Q) : result (list Q) :=
  foldR (alignment_step times star_positions planet_positions
           moon_positions angle_threshold)
        (seq 0 (length times)) [].

(** The body of the [for next_alignment_time in alignments[1:]] loop; the
    loop state is [(last_pericentre_count, moon_orbits_between)].  The
    unused [last_alignment_index] is left out. *)
Definition between_step (pericentre_times : list Q)
    (st : nat * list Z) (next_alignment_time : Q) : nat * list Z :=
  let '(last_pericentre_count, moon_orbits_between) := st in
  let next_pericentre_count := searchsorted pericentre_times next_alignment_time in
  (next_pericentre_count,
   moon_orbits_between ++
     [Z.max 0 (Z.of_nat next_pericentre_count - Z.of_nat last_pericentre_count)]).

(** Lines 67-81 of [summarise_metrics]: the mean of the pericentre counts
    between consecutive alignments. *)
Definition mean_orbits (pericentre_times alignments : list Q) : option Q :=
  let orbit_count := length pericentre_times in
  if Nat.leb 2 (length alignments) && Nat.ltb 0 orbit_count then
    let last_alignment_time := hd 0 alignments in
    let last_pericentre_count := searchsorted pericentre_times last_alignment_time in
    let moon_orbits_between :=
      snd (fold_left (between_step pericentre_times) (tl alignments)
                     (last_pericentre_count, [])) in
    match moon_orbits_between with
    | [] => None
    | _ => Some (mean moon_orbits_between)
    end
  else None.

Definition summarise_metrics (times : list Q)
    (star_positions planet_positions moon_positions : list vec)
  : result OrbitalMetrics :=
  pericentre_times <-
    detect_pericentre_passages times moon_positions planet_positions ;;
  alignments <-
    detect_alignments times star_positions planet_positions moon_positions
                      deg2rad_1_5 ;;
  Ok {| moon_orbit_count := length pericentre_times;
        mean_orbits_between_alignments := mean_orbits pericentre_times alignments;
        alignment_times := alignments;
        pericentre_times := pericentre_times |}.

End Detectors.

(** *** The two readings of "pericentres between two alignments" *)

(** The spec's words: the pericentre timestamps [t] with [a < t < b]. *)
Definition count_strictly_between (pericentre_times : list Q) (a b : Q) : nat :=
  length (List.filter (fun t => Qltb a t && Qltb t b) pericentre_times).

(** What the ordered search counts: the timestamps [t] with [a <= t < b]. *)
Definition count_from_first (pericentre_times : list Q) (a b : Q) : nat :=
  length (List.filter (fun t => Qle_bool a t && Qltb t b) pericentre_times).

(** The timestamps strictly below [v]: what [searchsorted] returns on a
    sorted list. *)
Definition count_lt (l : list Q) (v : Q) : nat :=
  length (List.filter (fun t => Qltb t v) l).

(** [r] splits [a] into the entries below [key] and the others. *)
Definition partition_point (a : list Q) (key : Q) (r : nat) : Prop :=
  (r <= length a)%nat /\
  (forall i, (i < r)%nat -> nth i a 0 < key) /\
  (forall i, (r <= i < length a)%nat -> key <= nth i a 0).

(** The consecutive pairs [(a_j, a_{j+1})] of a list. *)
Fixpoint consecutive_pairs (l : list Q) : list (Q * Q) :=
  match l with
  | a :: ((b :: _) as rest) => (a, b) :: consecutive_pairs rest
  | _ => []
  end.

(** The average over the consecutive alignment pairs of a count. *)
Definition average_over_pairs (count : Q -> Q -> nat) (alignments : list Q) : Q :=
  let pairs := consecutive_pairs alignments in
  inject_Z (fold_right Z.add 0%Z
              (map (fun ab => Z.of_nat (count (fst ab) (snd ab))) pairs))
  / inject_Z (Z.of_nat (length pairs)).

(** Sorted (non-decreasing) lists of timestamps. *)
Fixpoint sortedb (l : list Q) : bool :=
  match l with
  | a :: ((b :: _) as rest) => Qle_bool a b && sortedb rest
  | _ => true
  end.

(** Equality of optional rationals up to representation. *)
Definition opt_Qeq (x y : option Q) : Prop :=
  match x, y with
  | Some p, Some q => p == q
  | None, None => True
  | _, _ => False
  end.

End Events.

(** ** core/bodies.py *)

(** A NumPy array is a mutable object: [temp_state.update] writes into the
    position and velocity arrays of the bodies it is called on.  The arrays
    owned by bodies therefore live in a store, [heap], and a body holds
    references into it.  A reference is an index of the store; a new array is
    appended at the end.  Next to the store the [world] keeps a ghost log of
    the acceleration evaluations: the positions and velocities of the state
    each evaluation was given. *)

Module Bodies.
Import Numpy.

Abbreviation loc := nat.

Record world : Type := {
  heap : list vec;
  evals : list (list vec * list vec)
}.

(** Computations that read and write the store and may raise; the store
    survives an exception. *)
Definition M (A : Type) : Type := world -> world * result A.

Definition ret {A} (a : A) : M A := fun w => (w, Ok a).

Definition bind {A B} (m : M A) (k : A -> M B) : M B :=
  fun w => match m w with
           | (w', Ok a) => k a w'
           | (w', Err e) => (w', Err e)
           end.

Definition raise {A} (e : exn) : M A := fun w => (w, Err e).

Definition liftR {A} (r : result A) : M A := fun w => (w, r).

Declare Scope state_scope.
Delimit Scope state_scope with state.
Notation "x <- m ;; k" := (bind m (fun x => k))
  (at level 100, m at next level, right associativity) : state_scope.
Local Open Scope state_scope.

(** [for x in l: acc = f(acc, x)]. *)
Fixpoint foldM {A B} (f : A -> B -> M A) (l : list B) (a : A) : M A :=
  match l with
  | [] => ret a
  | x :: l' => a' <- f a x ;; foldM f l' a'
  end.

Fixpoint mapM {A B} (f : A -> M B) (l : list A) : M (list B) :=
  match l with
  | [] => ret []
  | x :: l' => y <- f x ;; ys <- mapM f l' ;; ret (y :: ys)
  end.

(** [a.copy()] and [np.array(...)]: a new array. *)
Definition alloc (v : vec) : M loc :=
  fun w => ({| heap := heap w ++ [v]; evals := evals w |}, Ok (length (heap w))).

(** The value of an array.  References of a Python program are never
    dangling, so the default is not reached from a well-formed state. *)
Definition read (h : list vec) (l : loc) : vec := default vzero (h !! l).

Definition load (l : loc) : M vec := fun w => (w, Ok (read (heap w) l)).

(** [a[...] = v]: overwrite the array in place. *)
Definition store (l : loc) (v : vec) : M unit :=
  fun w => ({| heap := <[l := v]> (heap w); evals := evals w |}, Ok tt).

Record Body : Type := {
  name : string;
  mass : Q;
  position : loc;
  velocity : loc;
  color : string
}.

Record SystemState : Type := { bodies : list Body }.

(** [Body.copy]. *)
Definition Body_copy (self : Body) : M Body :=
  p <- load (position self) ;;
  p' <- alloc p ;;
  v <- load (velocity self) ;;
  v' <- alloc v ;;
  ret {| name := name self; mass := mass self;
         position := p'; velocity := v'; color := color self |}.

(** [SystemState.copy]. *)
Definition copy (self : SystemState) : M SystemState :=
  bs <- mapM Body_copy (bodies self) ;;
  ret {| bodies := bs |}.

(** [np.stack(rows, axis=0)], which refuses an empty list. *)
Definition stack (rows : list vec) : result (list vec) :=
  match rows with
  | [] => Err (ValueError "need at least one array to stack")
  | _ => Ok rows
  end.

(** The rows the property [positions] stacks, read from a store. *)
Definition position_rows (h : list vec) (self : SystemState) : list vec :=
  map (fun body => read h (position body)) (bodies self).

Definition velocity_rows (h : list vec) (self : SystemState) : list vec :=
  map (fun body => read h (velocity body)) (bodies self).

(** The properties [positions], [velocities] and [masses]. *)
Definition positions (h : list vec) (self : SystemState) : result (list vec) :=
  stack (position_rows h self).

Definition velocities (h : list vec) (self : SystemState) : result (list vec) :=
  stack (velocity_rows h self).

Definition masses (self : SystemState) : list Q :=
  map mass (bodies self).

(** [zip(bodies, positions, velocities)]: as long as the shortest. *)
Fixpoint zip3 {A B C} (xs : list A) (ys : list B) (zs : list C)
  : list (A * B * C) :=
  match xs, ys, zs with
  | x :: xs', y :: ys', z :: zs' => (x, y, z) :: zip3 xs' ys' zs'
  | _, _, _ => []
  end.

(** [SystemState.update]. *)
Definition update (self : SystemState) (positions velocities : list vec) : M unit :=
  foldM (fun (_ : unit) '(body, pos, vel) =>
           _ <- store (position body) pos ;;
           store (velocity body) vel)
        (zip3 (bodies self) positions velocities) tt.

(** [SystemState.names]. *)
Definition names (self : SystemState) : list string :=
  map name (bodies self).

(** What a caller can observe of a state: per body its name, mass,
    position vector and velocity vector. *)
Definition observe (h : list vec) (self : SystemState)
  : list (string * Q * vec * vec) :=
  map (fun b => (name b, mass b, read h (position b), read h (velocity b)))
      (bodies self).

(** Every array of the state is allocated in the store. *)
Definition allocated (h : list vec) (self : SystemState) : Prop :=
  Forall (fun b => (position b < length h)%nat /\ (velocity b < length h)%nat)
         (bodies self).

(** *** What the operations do to the store *)

(** The store after the writes of [update], one body after the other. *)
Fixpoint store_all (l : list (Body * vec * vec)) (h : list vec) : list vec :=
  match l with
  | [] => h
  | (body, pos, vel) :: l' =>
      store_all l' (<[velocity body := vel]> (<[position body := pos]> h))
  end.

(** The bodies and the store after the allocations of [copy]. *)
Fixpoint copy_all (bs : list Body) (h : list vec) : list Body * list vec :=
  match bs with
  | [] => ([], h)
  | b :: bs' =>
      let b' := {| name := name b; mass := mass b;
                   position := length h; velocity := S (length h);
                   color := color b |} in
      let h1 := h ++ [read h (position b)] in
      let r := copy_all bs' (h1 ++ [read h1 (velocity b)]) in
      (b' :: fst r, snd r)
  end.

(** The arrays of the bodies lie at or above [n] in the store. *)
Definition fresh (n : nat) (bs : list Body) : Prop :=
  Forall (fun b => (n <= position b)%nat /\ (n <= velocity b)%nat) bs.

(** The array references of the bodies. *)
Fixpoint locs (bs : list Body) : list loc :=
  match bs with
  | [] => []
  | b :: bs' => position b :: velocity b :: locs bs'
  end.

(** No two arrays of the bodies are the same object, and all are
    allocated. *)
Definition separate (h : list vec) (bs : list Body) : Prop :=
  NoDup (locs bs) /\ Forall (fun l => (l < length h)%nat) (locs bs).

(** [m] leaves the first [n] cells of the store as they are, whether it
    returns or raises, and what it returns satisfies [R]. *)
Definition keeps {A} (n : nat) (m : M A) (R : A -> Prop) : Prop :=
  forall w, (n <= length (heap w))%nat ->
    (n <= length (heap (fst (m w))))%nat /\
    take n (heap (fst (m w))) = take n (heap w) /\
    (forall a, snd (m w) = Ok a -> R a).

(** [m] returns, from every store, a value that satisfies [Q]. *)
Definition succeeds {A} (m : M A) (Q : A -> Prop) : Prop :=
  forall w, exists w' a, m w = (w', Ok a) /\ Q a.

End Bodies.

(** ** core/constants.py *)

Module Constants.

Record PhysicalConstants : Type := {
  gravitational_constant : Q;
  star_mass : Q;
  planet_mass : Q;
  moon_mass : Q
}.

Definition CONSTANTS : PhysicalConstants :=
  {| gravitational_constant := 1;
     star_mass := 1;
     planet_mass := 25 # 10000;
     moon_mass := 3 # 100000 |}.

End Constants.

(** ** core/physics.py *)

Module Physics.
Import Numpy Bodies Constants.
Local Open Scope result_scope.

(** [Dict[str, float]]. *)
Abbreviation config := (gmap string Q).

(** [np.sum(rows, axis=0)]. *)
Definition sum_rows (rows : list vec) : vec := fold_left vadd rows vzero.

Section Gravity.
Context {F : FloatLib}.

(** [np.sum(d**2)] for one row. *)
Definition sum_sq (d : vec) : Q := fst (vmul d d) + snd (vmul d d).

(** [np.where(distance_sq > 0.0, distance_sq ** -1.5, 0.0)] for one entry. *)
Definition inv_cubed (distance_sq : Q) : Q :=
  if Qltb 0 distance_sq then pow_neg_1_5 distance_sq else 0.

(** The body of the loop of [compute_pairwise_gravity]: the acceleration of
    the body at [p_i]. *)
Definition gravity_on (positions : list vec) (masses : list Q) (p_i : vec)
  : result vec :=
  let displacement := map (fun p => vsub p_i p) positions in
  let distance_sq := map sum_sq displacement in
  let inv_dist_cubed := map inv_cubed distance_sq in
  md <- broadcast2 vscale masses displacement ;;
  mdi <- broadcast2 vscale_r md inv_dist_cubed ;;
  let force := map (vscale (- gravitational_constant CONSTANTS)) mdi in
  Ok (sum_rows force).

Definition compute_pairwise_gravity (positions : list vec) (masses : list Q)
  : result (list vec) :=
  mapR (gravity_on positions masses) positions.

(** One row of [force]: what the body of mass [m_j] at [p_j] adds to the
    acceleration of the body at [p_i]. *)
Definition pair_term (m_j : Q) (p_i p_j : vec) : vec :=
  let d := vsub p_i p_j in
  vscale (- gravitational_constant CONSTANTS)
         (vscale_r (vscale m_j d) (inv_cubed (sum_sq d))).

(** [next(i for i, body in enumerate(bodies) if body.name == n)], counting
    from [i]; [None] stands for [StopIteration]. *)
Fixpoint find_named (n : string) (bodies : list Body) (i : nat)
  : option (nat * Body) :=
  match bodies with
  | [] => None
  | body :: rest =>
      if String.eqb (name body) n then Some (i, body)
      else find_named n rest (S i)
  end.

(** [precession_config.get("moon_precession_strength", 0.0)]. *)
Definition strength_of (precession_config : config) : Q :=
  default 0 (precession_config !! "moon_precession_strength"%string).

(** [apply_precession] updates [accelerations] in place; here it returns
    the updated array. *)
Definition apply_precession (h : list vec) (system : SystemState)
    (accelerations : list vec) (precession_config : config)
  : result (list vec) :=
  let strength := strength_of precession_config in
  if Qeq_bool strength 0 then Ok accelerations
  else
    match find_named "Planet" (bodies system) 0,
          find_named "Moon" (bodies system) 0 with
    | Some (planet_index, planet), Some (moon_index, moon) =>
        let planet_pos := read h (position planet) in
        let moon_pos := read h (position moon) in
        let relative_vector := vsub moon_pos planet_pos in
        let radius := norm relative_vector in
        if Qeq_bool radius 0 then Ok accelerations
        else
          let tangential_direction :=
            vdiv (- snd relative_vector, fst relative_vector) radius in
          a <- index accelerations moon_index ;;
          Ok (<[moon_index := vadd a (vscale strength tangential_direction)]>
                accelerations)
    | _, _ =>
        Err (ValueError "Precession requires bodies named 'Planet' and 'Moon'.")
    end.

(** The truth value of [precession_config]: neither [None] nor empty. *)
Definition truthy (precession_config : option config) : option config :=
  match precession_config with
  | Some cfg => if decide (cfg = ∅) then None else Some cfg
  | None => None
  end.

Definition compute_accelerations (h : list vec) (system : SystemState)
    (precession_config : option config) : result (list vec) :=
  positions <- positions h system ;;
  let masses := masses system in
  accelerations <- compute_pairwise_gravity positions masses ;;
  match truthy precession_config with
  | Some cfg => apply_precession h system accelerations cfg
  | None => Ok accelerations
  end.

(** The inner loop of [compute_total_energy]: [j] in [range(i + 1, n)]. *)
Definition potential_inner (positions : list vec) (masses : list Q)
    (i : nat) (potential : Q) (j : nat) : result Q :=
  p_i <- index positions i ;;
  p_j <- index positions j ;;
  let r := norm (vsub p_i p_j) in
  m_i <- index masses i ;;
  m_j <- index masses j ;;
  Ok (potential - gravitational_constant CONSTANTS * m_i * m_j / r).

Definition potential_outer (positions : list vec) (masses : list Q)
    (n_bodies : nat) (potential : Q) (i : nat) : result Q :=
  foldR (potential_inner positions masses i)
        (seq (i + 1) (n_bodies - (i + 1))) potential.

Definition compute_total_energy (positions velocities : list vec)
    (masses : list Q) : result (Q * Q) :=
  mv <- broadcast2 (fun m v => vscale m (vmul v v)) masses velocities ;;
  let kinetic := (1 # 2) * fold_right Qplus 0 (map (fun r => fst r + snd r) mv) in
  let n_bodies := length masses in
  potential <- foldR (potential_outer positions masses n_bodies)
                     (seq 0 n_bodies) 0 ;;
  Ok (kinetic, potential).

(** *** The energies in the words of the specification *)

(** [1/2 * sum_i m_i * |v_i|^2]. *)
Definition kinetic_energy (masses : list Q) (velocities : list vec) : Q :=
  (1 # 2) * fold_right Qplus 0 (zip_with (fun m v => m * dot v v) masses velocities).

(** [G * m_i * m_j / |r_i - r_j|]. *)
Definition pair_potential (positions : list vec) (masses : list Q) (i j : nat) : Q :=
  gravitational_constant CONSTANTS * nth i masses 0 * nth j masses 0
  / norm (vsub (nth i positions vzero) (nth j positions vzero)).

Definition sum_over (l : list nat) (f : nat -> Q) : Q :=
  fold_right Qplus 0 (map f l).

(** [- sum_{i<j} G * m_i * m_j / |r_i - r_j|] over the unordered pairs. *)
Definition potential_energy (positions : list vec) (masses : list Q) : Q :=
  let n := length masses in
  - sum_over (seq 0 n) (fun i =>
      sum_over (seq 0 n) (fun j =>
        if Nat.ltb i j then pair_potential positions masses i j else 0)).

(** The bodies are pairwise at a nonzero distance. *)
Definition pairwise_apart (positions : list vec) : Prop :=
  forall i j, (i < j < length positions)%nat ->
    ~ norm (vsub (nth i positions vzero) (nth j positions vzero)) == 0.

(** A body of that name is present. *)
Definition present (n : string) (system : SystemState) : Prop :=
  exists body, In body (bodies system) /\ name body = n.

Definition configuration_error : exn :=
  ValueError "Precession requires bodies named 'Planet' and 'Moon'.".

(** The precession configuration asks for nothing, or the bodies named
    [nm] include a planet and a moon. *)
Definition precession_ready (precession_config : option config)
    (nm : list string) : Prop :=
  match truthy precession_config with
  | Some cfg =>
      strength_of cfg == 0 \/ (In "Planet"%string nm /\ In "Moon"%string nm)
  | None => True
  end.

End Gravity.

End Physics.

(** ** core/integrators.py *)

Module Integrators.
Import Numpy Bodies Physics.
Local Open Scope state_scope.

(** [AccelerationFunc]: a callable that reads the state it is given (through
    the store) and returns the accelerations, or raises. *)
Definition AccelerationFunc : Type :=
  list vec -> SystemState -> option config -> result (list vec).

(** A [(steps + 1, N, 2)] array: a list of snapshots. *)
Abbreviation array3 := (list (list vec)).

(** [acceleration_fn(temp_state, precession_config)]; the call is logged
    with the positions and velocities the state holds at that moment. *)
Definition evaluate (acceleration_fn : AccelerationFunc)
    (temp_state : SystemState) (precession_config : option config)
  : M (list vec) :=
  fun w =>
    ({| heap := heap w;
        evals := evals w ++ [(position_rows (heap w) temp_state,
                              velocity_rows (heap w) temp_state)] |},
     acceleration_fn (heap w) temp_state precession_config).

Definition get_positions (state : SystemState) : M (list vec) :=
  fun w => (w, positions (heap w) state).

Definition get_velocities (state : SystemState) : M (list vec) :=
  fun w => (w, velocities (heap w) state).

(** [int(np.ceil(duration / dt))]; the division of Python floats raises
    for a zero divisor. *)
Definition n_steps_of (duration dt : Q) : result Z :=
  if Qeq_bool dt 0 then Err ZeroDivisionError
  else Ok (Qceiling (duration / dt)).

(** [np.zeros((n_steps + 1, n_bodies, 2))]. *)
Definition zeros (n_steps : Z) (n_bodies : nat) : result array3 :=
  if (n_steps + 1 <? 0)%Z
  then Err (ValueError "negative dimensions are not allowed")
  else Ok (replicate (Z.to_nat (n_steps + 1)) (replicate n_bodies vzero)).

(** [out[i] = rows]: the rows are broadcast to the shape of the slot. *)
Definition assign (out : array3) (i : nat) (rows : list vec) : result array3 :=
  match out !! i with
  | None => Err IndexError
  | Some slot =>
      if Nat.eqb (length rows) (length slot) then Ok (<[i := rows]> out)
      else match rows with
           | [r] => Ok (<[i := replicate (length slot) r]> out)
           | _ => Err (ValueError "could not broadcast input array")
           end
  end.

(** Array arithmetic: [xs + ys], [c * xs] and [xs * c]. *)
Definition add (xs ys : list vec) : result (list vec) := broadcast2 vadd xs ys.
Definition smul (c : Q) (xs : list vec) : list vec := map (vscale c) xs.
Definition mulr (xs : list vec) (c : Q) : list vec :=
  map (fun v => vscale_r v c) xs.

(** The body of the loop of [leapfrog]; the loop state is
    [(positions, velocities, accel)]. *)
Definition leapfrog_step (temp_state : SystemState) (dt : Q)
    (acceleration_fn : AccelerationFunc) (precession_config : option config)
    (st : array3 * array3 * list vec) (step : nat)
  : M (array3 * array3 * list vec) :=
  let positions := fst (fst st) in
  let velocities := snd (fst st) in
  let accel := snd st in
  p_prev <- liftR (index positions (step - 1)) ;;
  v_prev <- liftR (index velocities (step - 1)) ;;
  pv <- liftR (add p_prev (mulr v_prev dt)) ;;
  new_positions <- liftR (add pv (mulr (mulr (smul (1 # 2) accel) dt) dt)) ;;
  _ <- update temp_state new_positions v_prev ;;
  new_accel <- evaluate acceleration_fn temp_state precession_config ;;
  aa <- liftR (add accel new_accel) ;;
  new_velocities <- liftR (add v_prev (mulr (smul (1 # 2) aa) dt)) ;;
  positions <- liftR (assign positions step new_positions) ;;
  velocities <- liftR (assign velocities step new_velocities) ;;
  ret (positions, velocities, new_accel).

(** The lines both integrators start with: the output arrays with the
    initial condition in slot 0, and the working copy. *)
Definition prepare (state : SystemState) (duration dt : Q)
  : M (Z * array3 * array3 * SystemState) :=
  n_steps <- liftR (n_steps_of duration dt) ;;
  let n_bodies := length (bodies state) in
  positions <- liftR (zeros n_steps n_bodies) ;;
  let velocities := positions in
  p0 <- get_positions state ;;
  positions <- liftR (assign positions 0 p0) ;;
  v0 <- get_velocities state ;;
  velocities <- liftR (assign velocities 0 v0) ;;
  temp_state <- copy state ;;
  ret (n_steps, positions, velocities, temp_state).

Definition leapfrog (state : SystemState) (duration dt : Q)
    (acceleration_fn : AccelerationFunc) (precession_config : option config)
  : M (array3 * array3) :=
  pre <- prepare state duration dt ;;
  let n_steps := fst (fst (fst pre)) in
  let positions := snd (fst (fst pre)) in
  let velocities := snd (fst pre) in
  let temp_state := snd pre in
  accel <- evaluate acceleration_fn temp_state precession_config ;;
  fin <- foldM (leapfrog_step temp_state dt acceleration_fn precession_config)
               (seq 1 (Z.to_nat n_steps)) (positions, velocities, accel) ;;
  ret (fst (fst fin), snd (fst fin)).

(** The body of the loop of [rk4]; the loop state is
    [(positions, velocities)]. *)
Definition rk4_step (temp_state : SystemState) (dt : Q)
    (acceleration_fn : AccelerationFunc) (precession_config : option config)
    (st : array3 * array3) (step : nat) : M (array3 * array3) :=
  let positions := fst st in
  let velocities := snd st in
  pos <- liftR (index positions (step - 1)) ;;
  vel <- liftR (index velocities (step - 1)) ;;
  _ <- update temp_state pos vel ;;
  a1 <- evaluate acceleration_fn temp_state precession_config ;;
  let k1_pos := vel in
  let k1_vel := a1 in
  s2p <- liftR (add pos (smul ((1 # 2) * dt) k1_pos)) ;;
  s2v <- liftR (add vel (smul ((1 # 2) * dt) k1_vel)) ;;
  _ <- update temp_state s2p s2v ;;
  a2 <- evaluate acceleration_fn temp_state precession_config ;;
  k2_pos <- liftR (add vel (smul ((1 # 2) * dt) k1_vel)) ;;
  let k2_vel := a2 in
  s3p <- liftR (add pos (smul ((1 # 2) * dt) k2_pos)) ;;
  s3v <- liftR (add vel (smul ((1 # 2) * dt) k2_vel)) ;;
  _ <- update temp_state s3p s3v ;;
  a3 <- evaluate acceleration_fn temp_state precession_config ;;
  k3_pos <- liftR (add vel (smul ((1 # 2) * dt) k2_vel)) ;;
  let k3_vel := a3 in
  s4p <- liftR (add pos (smul dt k3_pos)) ;;
  s4v <- liftR (add vel (smul dt k3_vel)) ;;
  _ <- update temp_state s4p s4v ;;
  a4 <- evaluate acceleration_fn temp_state precession_config ;;
  k4_pos <- liftR (add vel (smul dt k3_vel)) ;;
  let k4_vel := a4 in
  kp12 <- liftR (add k1_pos (smul 2 k2_pos)) ;;
  kp123 <- liftR (add kp12 (smul 2 k3_pos)) ;;
  kp <- liftR (add kp123 k4_pos) ;;
  new_pos <- liftR (add pos (smul (dt / 6) kp)) ;;
  positions <- liftR (assign positions step new_pos) ;;
  kv12 <- liftR (add k1_vel (smul 2 k2_vel)) ;;
  kv123 <- liftR (add kv12 (smul 2 k3_vel)) ;;
  kv <- liftR (add kv123 k4_vel) ;;
  new_vel <- liftR (add vel (smul (dt / 6) kv)) ;;
  velocities <- liftR (assign velocities step new_vel) ;;
  ret (positions, velocities).

Definition rk4 (state : SystemState) (duration dt : Q)
    (acceleration_fn : AccelerationFunc) (precession_config : option config)
  : M (array3 * array3) :=
  pre <- prepare state duration dt ;;
  let n_steps := fst (fst (fst pre)) in
  let positions := snd (fst (fst pre)) in
  let velocities := snd (fst pre) in
  let temp_state := snd pre in
  foldM (rk4_step temp_state dt acceleration_fn precession_config)
        (seq 1 (Z.to_nat n_steps)) (positions, velocities).

Definition integrator : Type :=
  SystemState -> Q -> Q -> AccelerationFunc -> option config ->
  M (array3 * array3).

(** [str.lower] on ASCII text. *)
Definition lower_ascii (c : ascii) : ascii :=
  let n := nat_of_ascii c in
  if Nat.leb 65 n && Nat.leb n 90 then ascii_of_nat (n + 32) else c.

Fixpoint lower (s : string) : string :=
  match s with
  | EmptyString => EmptyString
  | String c s' => String (lower_ascii c) (lower s')
  end.

(** The dictionary [integrators] of [integrate]. *)
Definition integrators : gmap string integrator :=
  <["leapfrog"%string := leapfrog]>
    (<["verlet"%string := leapfrog]>
       (<["rk4"%string := rk4]> ∅)).

Definition unknown_method (method : string) : exn :=
  ValueError ("Unknown integration method '" +:+ method +:+ "'.").

Definition integrate (state : SystemState) (duration dt : Q) (method : string)
    (acceleration_fn : AccelerationFunc) (precession_config : option config)
  : M (array3 * array3) :=
  match integrators !! lower method with
  | None => raise (unknown_method method)
  | Some integrator =>
      s <- copy state ;;
      integrator s duration dt acceleration_fn precession_config
  end.

(** *** Shapes and the formulas of the specification *)

(** An array of [n] snapshots of [N] rows each. *)
Definition shaped (n N : nat) (arr : array3) : Prop :=
  length arr = n /\ Forall (fun snapshot => length snapshot = N) arr.

(** On every state of the bodies named [nm], whatever their positions and
    velocities, the acceleration function returns one row per body. *)
Definition returns_rows (acceleration_fn : AccelerationFunc)
    (precession_config : option config) (nm : list string) : Prop :=
  forall h s, names s = nm ->
    exists a, acceleration_fn h s precession_config = Ok a /\
              length a = length nm.

(** What both integrators are to return from the store [h]: arrays of
    [ceil(duration/dt) + 1] snapshots of one row per body, the first of
    them the initial condition. *)
Definition is_trajectory (h : list vec) (state : SystemState) (duration dt : Q)
    (run : world * result (array3 * array3)) : Prop :=
  exists positions velocities,
    snd run = Ok (positions, velocities) /\
    Z.of_nat (length positions) = (Qceiling (duration / dt) + 1)%Z /\
    Z.of_nat (length velocities) = (Qceiling (duration / dt) + 1)%Z /\
    Forall (fun snapshot => length snapshot = length (bodies state)) positions /\
    Forall (fun snapshot => length snapshot = length (bodies state)) velocities /\
    positions !! 0%nat = Some (position_rows h state) /\
    velocities !! 0%nat = Some (velocity_rows h state).

(** [position + velocity*dt + 0.5*a*dt^2] for one body. *)
Definition position_formula (dt : Q) (pva : vec * vec * vec) : vec :=
  let '(p, v, a) := pva in
  vadd (vadd p (vscale dt v)) (vscale ((1 # 2) * dt ^ 2) a).

(** [velocity + 0.5*(a + a')*dt] for one body. *)
Definition velocity_formula (dt : Q) (vaa : vec * vec * vec) : vec :=
  let '(v, a, a') := vaa in
  vadd v (vscale ((1 # 2) * dt) (vadd a a')).

End Integrators.
(** ** The detectors of core/events.py, sample by sample *)

Module Detection.
Import Numpy Events.

Section WithFloatLib.
Context {F : FloatLib}.

(** [radial_distances[i]]: the distance of the moon from the planet in
    sample [i]. *)
Definition radial_distance (moon_positions planet_positions : list vec)
    (i : nat) : Q :=
  norm (vsub (nth i moon_positions vzero) (nth i planet_positions vzero)).

(** The test of [detect_pericentre_passages] at sample [i]: the distance is
    strictly below the distances of both neighbours. *)
Definition is_pericentre (moon_positions planet_positions : list vec)
    (i : nat) : bool :=
  Qltb (radial_distance moon_positions planet_positions i)
       (radial_distance moon_positions planet_positions (i - 1)) &&
  Qltb (radial_distance moon_positions planet_positions i)
       (radial_distance moon_positions planet_positions (i + 1)).

(** The test of [detect_alignments] at sample [idx]: neither vector is of
    zero length and the angle between them is within the threshold. *)
Definition is_alignment (star_positions planet_positions moon_positions : list vec)
    (angle_threshold : Q) (idx : nat) : bool :=
  let sp_vector := vsub (nth idx planet_positions vzero) (nth idx star_positions vzero) in
  let pm_vector := vsub (nth idx moon_positions vzero) (nth idx planet_positions vzero) in
  negb (Qeq_bool (norm sp_vector) 0 || Qeq_bool (norm pm_vector) 0) &&
  Qle_bool (arccos (clip (dot sp_vector pm_vector / (norm sp_vector * norm pm_vector))
                         (-1) 1))
           angle_threshold.

End WithFloatLib.

(** The timestamps of the samples picked by [test], in sample order. *)
Definition times_where (times : list Q) (test : nat -> bool) (first count : nat)
  : list Q :=
  map (fun i => nth i times 0) (List.filter test (seq first count)).

(** Strictly increasing timestamps. *)
Fixpoint increasingb (l : list Q) : bool :=
  match l with
  | a :: ((b :: _) as rest) => Qltb a b && increasingb rest
  | _ => true
  end.

End Detection.

(** ** Readings of core/physics.py *)

Module Dynamics.
Import Numpy Bodies Physics.

(** [body] is the first body of the name [n], at index [k]: what
    [next(i for i, body in enumerate(bodies) if body.name == n)] finds. *)
Definition first_named (n : string) (bodies : list Body) (k : nat) (body : Body)
  : Prop :=
  bodies !! k = Some body /\ name body = n /\
  forall j b, (j < k)%nat -> bodies !! j = Some b -> name b <> n.

(** [sum_i m_i * a_i]: the total force on the system. *)
Definition total_force (masses : list Q) (accelerations : list vec) : vec :=
  sum_rows (zip_with vscale masses accelerations).

(** [sum_{x in l} f x]. *)
Definition sumQ {X} (f : X -> Q) (l : list X) : Q :=
  fold_right Qplus 0 (map f l).

(** The float routine [x ** -1.5] depends on the value of [x] only. *)
Definition pow_respects_value `{F : FloatLib} : Prop :=
  forall x y, x == y -> pow_neg_1_5 x == pow_neg_1_5 y.

End Dynamics.

(** ** Readings of core/integrators.py *)

Module Schemes.
Import Numpy Bodies Physics Integrators.

(** [xs + c * ks], row by row. *)
Definition advance (xs : list vec) (c : Q) (ks : list vec) : list vec :=
  zip_with vadd xs (smul c ks).

(** [k1 + 2 * k2 + 2 * k3 + k4], row by row. *)
Definition rk4_mix (k1 k2 k3 k4 : list vec) : list vec :=
  zip_with vadd (zip_with vadd (zip_with vadd k1 (smul 2 k2)) (smul 2 k3)) k4.

(** [x + (dt / 6) * (k1 + 2 * k2 + 2 * k3 + k4)] for one body. *)
Definition rk4_formula (dt : Q) (x k1 k2 k3 k4 : vec) : vec :=
  vadd x (vscale (dt / 6)
            (vadd (vadd (vadd k1 (vscale 2 k2)) (vscale 2 k3)) k4)).

(** The acceleration function that returns zero for every body. *)
Definition no_acceleration : AccelerationFunc :=
  fun _ system _ => Ok (replicate (length (bodies system)) vzero).

(** Snapshot [k] of a motion at constant velocity: the velocities are the
    initial ones and the positions are [p0 + (k * dt) * v0]. *)
Definition uniform_at (p0 v0 : list vec) (dt : Q) (k : nat) (p v : list vec)
  : Prop :=
  Forall2 veq v v0 /\
  Forall2 veq p (advance p0 (inject_Z (Z.of_nat k) * dt) v0).

End Schemes.

(** ** scenarios/red_dwarf_system.py *)

Module Scenarios.
Import Numpy Bodies Constants Physics.
Local Open Scope state_scope.

(** [np.sqrt], whose results are not rational. *)
Class SqrtLib : Type := { sqrt : Q -> Q }.

Record Scenario : Type := {
  state : SystemState;
  precession_config : config
}.

Section RedDwarf.
Context {S : SqrtLib}.

(** [body.velocity -= barycentre_velocity], in place. *)
Definition recentre (barycentre_velocity : vec) (_ : unit) (body : Body)
  : M unit :=
  v <- load (velocity body) ;;
  store (velocity body) (vsub v barycentre_velocity).

(** [create_red_dwarf_system]; every [np.array(...)] that a body keeps is
    a new array of the store. *)
Definition create_red_dwarf_system : M Scenario :=
  star_position <- alloc (0, 0) ;;
  star_velocity <- alloc (0, 0) ;;
  let star := {| name := "Star"; mass := star_mass CONSTANTS;
                 position := star_position; velocity := star_velocity;
                 color := "orange" |} in
  let planet_distance := 12 # 10 in
  let planet_velocity_mag :=
    sqrt (gravitational_constant CONSTANTS * mass star
          * (2 / planet_distance - 1 / (15 # 10))) in
  planet_position <- alloc (planet_distance, 0) ;;
  planet_velocity <- alloc (0, (75 # 100) * planet_velocity_mag) ;;
  let planet := {| name := "Planet"; mass := planet_mass CONSTANTS;
                   position := planet_position; velocity := planet_velocity;
                   color := "#4080ff" |} in
  let moon_distance := 18 # 100 in
  let moon_speed :=
    sqrt (gravitational_constant CONSTANTS * mass planet
          * (2 / moon_distance - 1 / (26 # 100))) in
  pp <- load (position planet) ;;
  moon_position <- alloc (vadd pp (moon_distance, 0)) ;;
  pv <- load (velocity planet) ;;
  moon_velocity <- alloc (vadd pv (0, (135 # 100) * moon_speed)) ;;
  let moon := {| name := "Moon"; mass := moon_mass CONSTANTS;
                 position := moon_position; velocity := moon_velocity;
                 color := "#dddddd" |} in
  sv <- load (velocity star) ;;
  pv <- load (velocity planet) ;;
  mv <- load (velocity moon) ;;
  let barycentre_velocity :=
    vdiv (vadd (vadd (vscale (mass star) sv) (vscale (mass planet) pv))
               (vscale (mass moon) mv))
         (mass star + mass planet + mass moon) in
  _ <- foldM (recentre barycentre_velocity) [star; planet; moon] tt ;;
  let state := {| bodies := [star; planet; moon] |} in
  let precession_config : config :=
    {[ "moon_precession_strength"%string := 4 # 10000 ]} in
  ret {| state := state; precession_config := precession_config |}.

End RedDwarf.

(** [sum_i m_i * v_i]: the total momentum of a state. *)
Definition total_momentum (h : list vec) (system : SystemState) : vec :=
  sum_rows (zip_with vscale (masses system) (velocity_rows h system)).

End Scenarios.

(** ** sim/config.py and sim/run_simulation.py *)

Module RunSimulation.
Import Numpy Events Bodies Physics Integrators Scenarios.

Record SimulationConfig : Type := {
  duration : Q;
  dt : Q;
  integrator : string;
  scenario : string;
  animate : bool;
  output_dir : string
}.

Definition DEFAULT_CONFIG : SimulationConfig :=
  {| duration := 50; dt := 2 # 1000; integrator := "leapfrog";
     scenario := "red_dwarf_system"; animate := false;
     output_dir := "output" |}.

(** [np.linspace(start, stop, num)] with the endpoint, in exact
    arithmetic. *)
Definition linspace (start stop : Q) (num : nat) : list Q :=
  match num with
  | 0%nat => []
  | 1%nat => [start]
  | _ =>
      let step := (stop - start) / inject_Z (Z.of_nat (num - 1)) in
      <[(num - 1)%nat := stop]>
        (map (fun i => inject_Z (Z.of_nat i) * step + start) (seq 0 num))
  end.

(** [positions[:, k, :2]]: row [k] of every snapshot. *)
Definition body_track (positions : list (list vec)) (k : nat)
  : result (list vec) :=
  mapR (fun snapshot => index snapshot k) positions.

Section Pipeline.
Context {F : FloatLib} {S : SqrtLib}.

Definition SCENARIO_LOADERS : gmap string (M Scenario) :=
  {[ "red_dwarf_system"%string := create_red_dwarf_system ]}.

Definition unknown_scenario (name : string) : exn :=
  ValueError ("Unknown scenario '" +:+ name
              +:+ "'. Available: ['red_dwarf_system']").

Definition load_scenario (name : string) : M Scenario :=
  match SCENARIO_LOADERS !! name with
  | Some loader => loader
  | None => raise (unknown_scenario name)
  end.

(** The body of the loop of [compute_energy_profile]. *)
Definition energy_at (positions velocities : list (list vec)) (masses : list Q)
    (i : nat) : result Q :=
  (p <- index positions i ;;
   v <- index velocities i ;;
   kp <- compute_total_energy p v masses ;;
   Ok (fst kp + snd kp))%result.

Definition compute_energy_profile (positions velocities : list (list vec))
    (masses : list Q) : result (list Q) :=
  mapR (energy_at positions velocities masses) (seq 0 (length positions)).

(** What [main] hands to [save_outputs]. *)
Record Outputs : Type := {
  times : list Q;
  positions : list (list vec);
  velocities : list (list vec);
  energy : list Q;
  metrics : OrbitalMetrics
}.

(** [main] from the parsed configuration to the call of [save_outputs]. *)
Definition main (config : SimulationConfig) : M Outputs :=
  (scenario <- load_scenario (scenario config) ;;
   pv <- integrate (state scenario) (duration config) (dt config)
                   (integrator config) compute_accelerations
                   (Some (precession_config scenario)) ;;
   let positions := fst pv in
   let velocities := snd pv in
   let times :=
     linspace 0 (dt config * inject_Z (Z.of_nat (length positions - 1)))
              (length positions) in
   let masses := Bodies.masses (state scenario) in
   energy <- liftR (compute_energy_profile positions velocities masses) ;;
   star <- liftR (body_track positions 0) ;;
   planet <- liftR (body_track positions 1) ;;
   moon <- liftR (body_track positions 2) ;;
   metrics <- liftR (summarise_metrics times star planet moon) ;;
   ret {| times := times; positions := positions; velocities := velocities;
          energy := energy; metrics := metrics |})%state.

(** [alignment_indices] of [animate_system]: the frames at which the
    animation shows "Alignment!". *)
Definition alignment_indices (times alignment_times : list Q) : gset nat :=
  list_to_set (map (searchsorted times) alignment_times).

End Pipeline.

End RunSimulation.


(** ** Data for evaluating the definitions *)

Module Samples.
Import Numpy Bodies Physics.

(** A stand-in for the float routines on rows parallel to an axis: there
    the taxicab length is the Euclidean one; [arccos] is interpolated
    between [arccos 1 = 0] and [arccos 0], about [11/7]. *)
Definition grid_lib : FloatLib :=
  {| norm := fun v => Qabs (fst v) + Qabs (snd v);
     arccos := fun c => (1 - c) * (11 # 7);
     pow_neg_1_5 := fun x => / x;
     deg2rad_1_5 := 2618 # 100000 |}.

(** Eleven samples at times 0.5 .. 5.5: the star rests at the origin, the
    planet at (10, 0); the moon is behind the planet (aligned) at times 1, 3
    and 5 and closest to it at times 1.5, 2.5, 3.5 and 4.5. *)
Definition times_a : list Q :=
  [1 # 2; 1; 3 # 2; 2; 5 # 2; 3; 7 # 2; 4; 9 # 2; 5; 11 # 2].
Definition star_a : list vec := replicate 11 (0, 0).
Definition planet_a : list vec := replicate 11 (10, 0).
Definition moon_a : list vec :=
  [(10, 2); (12, 0); (10, 1); (10, 2); (10, 1); (12, 0);
   (10, 1); (10, 2); (10, 1); (12, 0); (10, 2)].

(** Three samples with one alignment, at time 1, and no pericentre. *)
Definition times_b : list Q := [0; 1; 2].
Definition star_b : list vec := replicate 3 (0, 0).
Definition planet_b : list vec := replicate 3 (10, 0).
Definition moon_b : list vec := [(10, 1); (11, 0); (10, 1)].

(** Five samples: alignments at times 1 and 3, and a pericentre at time 1,
    the time of the first alignment. *)
Definition times_c : list Q := [0; 1; 2; 3; 4].
Definition star_c : list vec := replicate 5 (0, 0).
Definition planet_c : list vec := replicate 5 (10, 0).
Definition moon_c : list vec := [(10, 2); (11, 0); (10, 2); (12, 0); (10, 2)].

(** A store with a star at the origin and a planet and a moon in the same
    place, (1, 0); each body owns a position and a velocity array. *)
Definition heap_d : list vec := [(0, 0); (0, 0); (1, 0); (0, 1); (1, 0); (0, 2)].

Definition star_body : Body :=
  {| name := "Star"; mass := 1; position := 0%nat; velocity := 1%nat;
     color := "orange" |}.
Definition planet_body : Body :=
  {| name := "Planet"; mass := 25 # 10000; position := 2%nat; velocity := 3%nat;
     color := "#4080ff" |}.
Definition moon_body : Body :=
  {| name := "Moon"; mass := 3 # 100000; position := 4%nat; velocity := 5%nat;
     color := "#dddddd" |}.

Definition system_d : SystemState :=
  {| bodies := [star_body; planet_body; moon_body] |}.

(** The same store read as a system without a moon. *)
Definition system_e : SystemState := {| bodies := [star_body; planet_body] |}.

Definition empty_system : SystemState := {| bodies := [] |}.

(** The configuration of the red-dwarf scenario. *)
Definition precession_on : config :=
  {[ "moon_precession_strength"%string := 4 # 10000 ]}.

(** A configuration that names the strength and sets it to zero. *)
Definition precession_off : config :=
  {[ "moon_precession_strength"%string := 0 ]}.

(** A snapshot of two bodies three units apart. *)
Definition positions_f : list vec := [(0, 0); (3, 0)].
Definition velocities_f : list vec := [(0, 0); (0, 1)].
Definition masses_f : list Q := [1; 25 # 10000].

Definition world_d : world := {| heap := heap_d; evals := [] |}.

(** Output arrays for one step (two snapshots) of [system_d], with the
    initial condition in slot 0, and the accelerations before the step. *)
Definition positions_g : list (list vec) :=
  [[(0, 0); (1, 0); (1, 0)]; [(0, 0); (0, 0); (0, 0)]].
Definition velocities_g : list (list vec) :=
  [[(0, 0); (0, 1); (0, 2)]; [(0, 0); (0, 0); (0, 0)]].
Definition accel_g : list vec := [(0, 0); (-1, 0); (-1, 0)].

End Samples.
(** ** More data for evaluating the definitions *)

Module MoreSamples.
Import Numpy Bodies Physics Scenarios RunSimulation.

(** A stand-in for [np.sqrt]: one Newton step from 1. *)
Definition rough_sqrt : SqrtLib := {| sqrt := fun x => (1 + x) * (1 # 2) |}.

(** Two steps of the red-dwarf scenario with the Runge-Kutta integrator. *)
Definition config_h : SimulationConfig :=
  {| duration := 1; dt := 1 # 2; integrator := "RK4";
     scenario := "red_dwarf_system"; animate := false;
     output_dir := "output" |}.

End MoreSamples.


(** * Properties *)

(** ** Event metrics *)

Module EventsFacts.
Import Numpy Events.

Lemma Qltb_lt x y : Qltb x y = true <-> x < y.
Proof.
  unfold Qltb. rewrite negb_true_iff. split; intros H.
  - apply Qnot_le_lt. intros Hle. apply Qle_bool_iff in Hle. congruence.
  - destruct (Qle_bool y x) eqn:E; [|reflexivity].
    apply Qle_bool_iff in E. exfalso. exact (Qlt_not_le _ _ H E).
Qed.

Lemma Qltb_ge x y : Qltb x y = false <-> y <= x.
Proof.
  unfold Qltb. rewrite negb_false_iff. apply Qle_bool_iff.
Qed.

Lemma sortedb_cons a l : sortedb (a :: l) = true ->
  sortedb l = true /\ Forall (fun x => a <= x) l.
Proof.
  revert a. induction l as [|b l IH]; intros a H; simpl in *.
  - split; [reflexivity | constructor].
  - apply andb_true_iff in H as [Hab Hs]. apply Qle_bool_iff in Hab.
    split; [exact Hs|]. constructor; [exact Hab|].
    destruct (IH b Hs) as [_ Hall].
    eapply Forall_impl; [exact Hall|]. simpl. intros x Hx.
    eapply Qle_trans; eassumption.
Qed.

Lemma sortedb_nth l : sortedb l = true ->
  forall i j, (i <= j < length l)%nat -> nth i l 0 <= nth j l 0.
Proof.
  induction l as [|a l IH]; intros Hs i j Hij; simpl in Hij; [lia|].
  destruct (sortedb_cons _ _ Hs) as [Hs' Hall].
  destruct i as [|i], j as [|j]; simpl; try lia.
  - apply Qle_refl.
  - rewrite List.Forall_forall in Hall. apply Hall. apply nth_In. lia.
  - apply IH; [exact Hs'|lia].
Qed.

(** The search returns a partition point of a sorted array. *)
Lemma binsearch_left_partition a key : sortedb a = true ->
  forall fuel lo hi,
    (lo <= hi <= length a)%nat -> (hi - lo <= fuel)%nat ->
    (forall i, (i < lo)%nat -> nth i a 0 < key) ->
    (forall i, (hi <= i < length a)%nat -> key <= nth i a 0) ->
    partition_point a key (binsearch_left fuel a key lo hi).
Proof.
  intros Hs. induction fuel as [|fuel IH]; intros lo hi Hb Hf Hlo Hhi.
  - assert (lo = hi) by lia. subst. simpl.
    repeat split; [lia| exact Hlo | exact Hhi].
  - cbn [binsearch_left]. destruct (Nat.ltb lo hi) eqn:E.
    + apply Nat.ltb_lt in E. cbv zeta.
      assert (Hmid : ((hi - lo) / 2 < hi - lo)%nat)
        by (apply Nat.Div0.div_lt_upper_bound; lia).
      remember (lo + (hi - lo) / 2)%nat as mid eqn:Emid.
      destruct (Qltb (nth mid a 0) key) eqn:Ek.
      * apply Qltb_lt in Ek. apply IH; try lia; [|exact Hhi].
        intros i Hi. eapply Qle_lt_trans; [|exact Ek].
        apply sortedb_nth; [exact Hs|lia].
      * apply Qltb_ge in Ek. apply IH; try lia; [exact Hlo|].
        intros i Hi. eapply Qle_trans; [exact Ek|].
        apply sortedb_nth; [exact Hs|lia].
    + apply Nat.ltb_ge in E. assert (lo = hi) by lia. subst.
      repeat split; [lia| exact Hlo | exact Hhi].
Qed.

Lemma partition_count_lt a key : forall r,
  partition_point a key r -> count_lt a key = r.
Proof.
  unfold count_lt, partition_point.
  induction a as [|x a IH]; intros r (Hr & Hlo & Hhi); simpl in *.
  - lia.
  - destruct r as [|r].
    + assert (Hx : Qltb x key = false) by (apply Qltb_ge; apply (Hhi 0%nat); lia).
      rewrite Hx. apply (IH 0%nat). repeat split; [lia | intros; lia |].
      intros i Hi. apply (Hhi (S i)). lia.
    + assert (Hx : Qltb x key = true) by (apply Qltb_lt; apply (Hlo 0%nat); lia).
      rewrite Hx. simpl. f_equal. apply IH. repeat split; [lia | |].
      * intros i Hi. apply (Hlo (S i)). lia.
      * intros i Hi. apply (Hhi (S i)). lia.
Qed.

(** On a sorted array the ordered search counts the entries below the key. *)
Lemma searchsorted_count_lt a v : sortedb a = true ->
  searchsorted a v = count_lt a v.
Proof.
  intros Hs. unfold searchsorted. symmetry.
  apply partition_count_lt, binsearch_left_partition;
    [exact Hs | lia | lia | intros i Hi; lia | intros i Hi; lia].
Qed.

Lemma count_lt_split l a b : a <= b ->
  count_lt l b = (count_lt l a + count_from_first l a b)%nat.
Proof.
  intros Hab. unfold count_lt, count_from_first.
  induction l as [|t l IH]; simpl; [reflexivity|].
  destruct (Qltb t a) eqn:Eta.
  - assert (Qltb t b = true) as ->.
    { apply Qltb_lt. apply Qltb_lt in Eta. eapply Qlt_le_trans; eassumption. }
    assert (Qle_bool a t = false) as ->.
    { unfold Qltb in Eta. apply negb_true_iff in Eta. exact Eta. }
    simpl. rewrite IH. reflexivity.
  - assert (Qle_bool a t = true) as ->.
    { unfold Qltb in Eta. apply negb_false_iff in Eta. exact Eta. }
    destruct (Qltb t b); simpl; rewrite IH; lia.
Qed.

(** The counts the loop appends, for alignments [a :: rest]. *)
Lemma between_loop p : sortedb p = true -> forall rest a acc,
  sortedb (a :: rest) = true ->
  snd (fold_left (between_step p) rest (searchsorted p a, acc)) =
  acc ++ map (fun ab => Z.of_nat (count_from_first p (fst ab) (snd ab)))
             (consecutive_pairs (a :: rest)).
Proof.
  intros Hp. induction rest as [|b rest IH]; intros a acc Hs.
  - simpl. rewrite app_nil_r. reflexivity.
  - cbn [fold_left between_step].
    rewrite IH by (apply sortedb_cons in Hs; tauto).
    cbn [consecutive_pairs map fst snd]. rewrite <- app_assoc. f_equal.
    cbn [app]. f_equal.
    rewrite !searchsorted_count_lt by exact Hp.
    assert (Hab : a <= b).
    { simpl in Hs. apply andb_true_iff in Hs as [H _]. apply Qle_bool_iff, H. }
    rewrite (count_lt_split p a b Hab). lia.
Qed.

Lemma mean_orbits_sorted p al : sortedb p = true -> sortedb al = true ->
  (2 <= length al)%nat -> (1 <= length p)%nat ->
  mean_orbits p al = Some (average_over_pairs (count_from_first p) al).
Proof.
  intros Hp Ha Hl2 Hl1. unfold mean_orbits.
  assert (Nat.leb 2 (length al) && Nat.ltb 0 (length p) = true) as ->.
  { apply andb_true_iff. split; [apply Nat.leb_le | apply Nat.ltb_lt]; lia. }
  destruct al as [|a [|b rest]]; simpl in Hl2; try lia.
  cbn [hd tl]. rewrite (between_loop p Hp (b :: rest) a [] Ha). cbn [app].
  unfold average_over_pairs, mean. rewrite length_map.
  cbn [consecutive_pairs map]. reflexivity.
Qed.

Lemma mean_orbits_absent p al :
  (length al < 2)%nat \/ length p = 0%nat -> mean_orbits p al = None.
Proof.
  intros H. unfold mean_orbits.
  assert (Nat.leb 2 (length al) && Nat.ltb 0 (length p) = false) as ->; [|reflexivity].
  apply andb_false_iff. destruct H as [H|H]; [left; apply Nat.leb_gt; lia|right; apply Nat.ltb_ge; lia].
Qed.

#[local] Instance Qltb_comp : Proper (Qeq ==> Qeq ==> eq) Qltb.
Proof.
  intros x x' Hx y y' Hy. unfold Qltb. f_equal.
  apply Qleb_comp; assumption.
Qed.

(** The mean field is the mean of the two detected lists. *)
Lemma summarise_metrics_inv `{F : FloatLib} times star planet moon m :
  summarise_metrics times star planet moon = Ok m ->
  detect_pericentre_passages times moon planet = Ok (pericentre_times m) /\
  detect_alignments times star planet moon deg2rad_1_5 = Ok (alignment_times m) /\
  mean_orbits_between_alignments m =
    mean_orbits (pericentre_times m) (alignment_times m).
Proof.
  unfold summarise_metrics, bindR.
  destruct (detect_pericentre_passages _ _ _) as [p|]; [|discriminate].
  destruct (detect_alignments _ _ _ _ _) as [a|]; [|discriminate].
  intros [= <-]. simpl. auto.
Qed.

(** The representation of the timestamps does not matter. *)
Lemma sortedb_comp l l' : Forall2 Qeq l l' -> sortedb l = sortedb l'.
Proof.
  induction 1 as [|x y l l' Hxy Hl IH]; [reflexivity|].
  destruct Hl as [|x' y' l l' Hxy' Hl]; [reflexivity|].
  cbn [sortedb] in *. rewrite IH, Hxy, Hxy'. reflexivity.
Qed.

Lemma count_from_first_comp p p' a a' b b' :
  Forall2 Qeq p p' -> a == a' -> b == b' ->
  count_from_first p a b = count_from_first p' a' b'.
Proof.
  intros Hp Ha Hb. unfold count_from_first.
  induction Hp as [|x y l l' Hxy Hl IH]; [reflexivity|].
  cbn [List.filter]. rewrite Hxy, Ha, Hb.
  destruct (Qle_bool a' y && Qltb y b'); simpl; rewrite IH; reflexivity.
Qed.

Lemma average_from_first_comp p p' al al' :
  Forall2 Qeq p p' -> Forall2 Qeq al al' ->
  average_over_pairs (count_from_first p) al =
  average_over_pairs (count_from_first p') al'.
Proof.
  intros Hp Ha. unfold average_over_pairs.
  assert (H : map (fun ab => Z.of_nat (count_from_first p (fst ab) (snd ab)))
                  (consecutive_pairs al) =
              map (fun ab => Z.of_nat (count_from_first p' (fst ab) (snd ab)))
                  (consecutive_pairs al')).
  { induction Ha as [|x y l l' Hxy Hl IH]; [reflexivity|].
    destruct Hl as [|x' y' l l' Hxy' Hl]; [reflexivity|].
    cbn [consecutive_pairs map fst snd] in *. rewrite IH.
    rewrite (count_from_first_comp p p' x y x' y' Hp Hxy Hxy'). reflexivity. }
  rewrite H.
  apply (f_equal (@length Z)) in H. rewrite !length_map in H. rewrite H.
  reflexivity.
Qed.

Lemma mean_orbits_two_per_interval p a :
  Forall2 Qeq p [3 # 2; 5 # 2; 7 # 2; 9 # 2] -> Forall2 Qeq a [1; 3; 5] ->
  opt_Qeq (mean_orbits p a) (Some 2).
Proof.
  intros Hp Ha.
  pose proof (Forall2_length _ _ _ Hp) as Lp.
  pose proof (Forall2_length _ _ _ Ha) as La.
  rewrite mean_orbits_sorted.
  - rewrite (average_from_first_comp _ _ _ _ Hp Ha). vm_compute. reflexivity.
  - rewrite (sortedb_comp _ _ Hp). reflexivity.
  - rewrite (sortedb_comp _ _ Ha). reflexivity.
  - rewrite La. simpl. lia.
  - rewrite Lp. simpl. lia.
Qed.

(** C1 (as amended).  In [summarise_metrics], when the detected alignment
    timestamps are [1.0, 3.0, 5.0] and the detected pericentre timestamps are
    [1.5, 2.5, 3.5, 4.5], the reported mean orbits-between-alignments is 2.0
    (two pericentres in each of the two intervals); and when a single
    alignment is detected, the mean is absent. *)
Theorem summarise_metrics_example `{F : FloatLib} times star planet moon p a :
  detect_pericentre_passages times moon planet = Ok p ->
  detect_alignments times star planet moon deg2rad_1_5 = Ok a ->
  exists m,
    summarise_metrics times star planet moon = Ok m /\
    pericentre_times m = p /\ alignment_times m = a /\
    (Forall2 Qeq p [3 # 2; 5 # 2; 7 # 2; 9 # 2] -> Forall2 Qeq a [1; 3; 5] ->
     opt_Qeq (mean_orbits_between_alignments m) (Some 2)) /\
    (length a = 1%nat -> mean_orbits_between_alignments m = None).
Proof.
  intros Hp Ha. unfold summarise_metrics. rewrite Hp, Ha. cbn [bindR].
  eexists. split; [reflexivity|]. cbn.
  split; [reflexivity|]. split; [reflexivity|]. split.
  - apply mean_orbits_two_per_interval.
  - intros Hl. apply mean_orbits_absent. left. lia.
Qed.

Lemma summarise_metrics_example_witness :
  (exists m,
     summarise_metrics (F := Samples.grid_lib) Samples.times_a Samples.star_a
       Samples.planet_a Samples.moon_a = Ok m /\
     alignment_times m = [1; 3; 5] /\
     opt_Qeq (mean_orbits_between_alignments m) (Some 2)) /\
  (exists m,
     summarise_metrics (F := Samples.grid_lib) Samples.times_b Samples.star_b
       Samples.planet_b Samples.moon_b = Ok m /\
     alignment_times m = [1] /\
     mean_orbits_between_alignments m = None).
Proof.
  split.
  - destruct (summarise_metrics_example (F := Samples.grid_lib)
                Samples.times_a Samples.star_a Samples.planet_a Samples.moon_a
                [3 # 2; 5 # 2; 7 # 2; 9 # 2] [1; 3; 5] eq_refl eq_refl)
      as (m & Hm & _ & Ha & Hmean & _).
    exists m. split; [exact Hm|]. split; [exact Ha|].
    apply Hmean; repeat constructor.
  - destruct (summarise_metrics_example (F := Samples.grid_lib)
                Samples.times_b Samples.star_b Samples.planet_b Samples.moon_b
                [] [1] eq_refl eq_refl)
      as (m & Hm & _ & Ha & _ & Hnone).
    exists m. split; [exact Hm|]. split; [exact Ha|].
    apply Hnone. reflexivity.
Defined.

(** With alignments [1.0, 3.0, 5.0] and pericentres [1.5, 2.5, 3.5, 4.5] the
    mean is 2.0, not 1.0. *)
Lemma mean_orbits_example_not_one :
  opt_Qeq (mean_orbits [3 # 2; 5 # 2; 7 # 2; 9 # 2] [1; 3; 5]) (Some 2) /\
  ~ opt_Qeq (mean_orbits [3 # 2; 5 # 2; 7 # 2; 9 # 2] [1; 3; 5]) (Some 1).
Proof.
  split.
  - vm_compute. reflexivity.
  - vm_compute. discriminate.
Qed.

(** C2 (as amended).  For sorted pericentre and alignment timestamps
    processed by [summarise_metrics]: with at least two alignments and at
    least one pericentre, the mean is the average, over the consecutive
    alignment pairs [(a_j, a_{j+1})], of the number of pericentre timestamps
    [t] with [a_j <= t < a_{j+1}]; otherwise the mean is absent. *)
Theorem summarise_metrics_mean `{F : FloatLib} times star planet moon m :
  summarise_metrics times star planet moon = Ok m ->
  sortedb (pericentre_times m) = true ->
  sortedb (alignment_times m) = true ->
  ((2 <= length (alignment_times m))%nat ->
   (1 <= length (pericentre_times m))%nat ->
   mean_orbits_between_alignments m =
     Some (average_over_pairs (count_from_first (pericentre_times m))
                              (alignment_times m))) /\
  ((length (alignment_times m) < 2)%nat \/
   length (pericentre_times m) = 0%nat ->
   mean_orbits_between_alignments m = None).
Proof.
  intros Hm Hp Ha. apply summarise_metrics_inv in Hm as (_ & _ & ->).
  split.
  - intros H2 H1. apply mean_orbits_sorted; assumption.
  - apply mean_orbits_absent.
Qed.

Lemma summarise_metrics_mean_witness :
  exists m,
    summarise_metrics (F := Samples.grid_lib) Samples.times_c Samples.star_c
      Samples.planet_c Samples.moon_c = Ok m /\
    pericentre_times m = [1] /\ alignment_times m = [1; 3] /\
    mean_orbits_between_alignments m =
      Some (average_over_pairs (count_from_first [1]) [1; 3]).
Proof.
  eexists. split; [reflexivity|].
  split; [reflexivity|]. split; [reflexivity|].
  apply (summarise_metrics_mean (F := Samples.grid_lib) Samples.times_c
           Samples.star_c Samples.planet_c Samples.moon_c _ eq_refl eq_refl eq_refl);
    simpl; lia.
Defined.

(** A pericentre at the time of an alignment is counted in the interval
    that starts there: the strict count is 0, the reported mean is 1. *)
Lemma mean_orbits_not_strict :
  sortedb [1] = true /\ sortedb [1; 3] = true /\
  opt_Qeq (mean_orbits [1] [1; 3]) (Some 1) /\
  average_over_pairs (count_strictly_between [1]) [1; 3] == 0 /\
  ~ opt_Qeq (mean_orbits [1] [1; 3])
            (Some (average_over_pairs (count_strictly_between [1]) [1; 3])).
Proof.
  repeat split; try reflexivity. vm_compute. discriminate.
Qed.

End EventsFacts.

(** ** Array helpers *)

Module NumpyFacts.
Import Numpy.

Lemma broadcast2_same_length {A B C} (f : A -> B -> C) xs ys :
  length xs = length ys -> broadcast2 f xs ys = Ok (zip_with f xs ys).
Proof.
  intros H. unfold broadcast2. rewrite H, Nat.eqb_refl. reflexivity.
Qed.

Lemma index_lookup {A} (l : list A) i x : l !! i = Some x -> index l i = Ok x.
Proof. intros H. unfold index. rewrite H. reflexivity. Qed.

Lemma index_nth {A} (l : list A) i d : (i < length l)%nat -> index l i = Ok (nth i l d).
Proof.
  intros H. apply index_lookup.
  destruct (nth_lookup_or_length l i d) as [E|E]; [exact E|lia].
Qed.

Lemma mapR_total {A B} (f : A -> result B) (g : A -> B) l :
  (forall x, In x l -> f x = Ok (g x)) -> mapR f l = Ok (map g l).
Proof.
  induction l as [|x l IH]; intros H; [reflexivity|].
  cbn [mapR map]. rewrite (H x) by (left; reflexivity). cbn [bindR].
  rewrite IH by (intros y Hy; apply H; right; exact Hy). reflexivity.
Qed.

#[global] Instance veq_equiv : Equivalence veq.
Proof.
  split.
  - intros x. split; reflexivity.
  - intros x y [H1 H2]. split; symmetry; assumption.
  - intros x y z [H1 H2] [H3 H4]. split; etransitivity; eassumption.
Qed.

End NumpyFacts.

Module PhysicsFacts.
Import Numpy Bodies Constants Physics NumpyFacts.

Section WithFloatLib.
Context {F : FloatLib}.

Lemma force_rows p_i : forall ms ps,
  map (vscale (- gravitational_constant CONSTANTS))
      (zip_with vscale_r
         (zip_with vscale ms (map (fun p => vsub p_i p) ps))
         (map inv_cubed (map sum_sq (map (fun p => vsub p_i p) ps)))) =
  zip_with (fun m p => pair_term m p_i p) ms ps.
Proof.
  induction ms as [|m ms IH]; intros [|p ps]; try reflexivity.
  cbn [map zip_with]. rewrite IH. reflexivity.
Qed.

(** The acceleration of a body is the sum of the rows [pair_term]. *)
Lemma gravity_on_terms positions masses p_i :
  length masses = length positions ->
  gravity_on positions masses p_i =
  Ok (sum_rows (zip_with (fun m p => pair_term m p_i p) masses positions)).
Proof.
  intros Hl. unfold gravity_on.
  rewrite broadcast2_same_length by (rewrite length_map; exact Hl).
  cbn [bindR]. rewrite broadcast2_same_length.
  - cbn [bindR]. rewrite force_rows. reflexivity.
  - rewrite length_zip_with, !length_map. lia.
Qed.

Lemma compute_pairwise_gravity_terms positions masses :
  length masses = length positions ->
  compute_pairwise_gravity positions masses =
  Ok (map (fun p_i => sum_rows (zip_with (fun m p => pair_term m p_i p)
                                        masses positions)) positions).
Proof.
  intros Hl. unfold compute_pairwise_gravity. apply mapR_total.
  intros p_i _. apply gravity_on_terms, Hl.
Qed.

Lemma inv_cubed_zero_separation p_i p_j :
  veq p_i p_j -> inv_cubed (sum_sq (vsub p_i p_j)) = 0.
Proof.
  intros [H1 H2]. unfold inv_cubed.
  assert (Hs : sum_sq (vsub p_i p_j) == 0).
  { unfold sum_sq, vmul, vsub. cbn [fst snd]. rewrite H1, H2. ring. }
  assert (Qltb 0 (sum_sq (vsub p_i p_j)) = false) as ->; [|reflexivity].
  unfold Qltb. apply negb_false_iff, Qle_bool_iff. rewrite Hs. apply Qle_refl.
Qed.

Lemma pair_term_zero_separation m p_i p_j :
  veq p_i p_j -> veq (pair_term m p_i p_j) vzero.
Proof.
  intros H. unfold pair_term. cbv zeta.
  rewrite (inv_cubed_zero_separation _ _ H).
  unfold veq, vscale, vscale_r, vzero. cbn [fst snd]. split; ring.
Qed.

(** C8.  In [compute_pairwise_gravity] a pair of bodies at zero separation,
    and so each body with itself, contributes exactly zero to the
    acceleration: the inverse cubed distance is defined as 0 there, whatever
    [0 ** -1.5] is; and for a single body the returned acceleration is the
    zero vector. *)
Theorem zero_separation_contributes_zero :
  (forall positions masses, length masses = length positions ->
     compute_pairwise_gravity positions masses =
     Ok (map (fun p_i => sum_rows (zip_with (fun m p => pair_term m p_i p)
                                           masses positions)) positions)) /\
  (forall m p_i p_j, veq p_i p_j ->
     inv_cubed (sum_sq (vsub p_i p_j)) = 0 /\ veq (pair_term m p_i p_j) vzero) /\
  (forall m p, veq (pair_term m p p) vzero) /\
  (forall m p, exists a, compute_pairwise_gravity [p] [m] = Ok [a] /\ veq a vzero).
Proof.
  split; [exact compute_pairwise_gravity_terms|].
  split; [|split].
  - intros m p_i p_j H. split.
    + apply inv_cubed_zero_separation, H.
    + apply pair_term_zero_separation, H.
  - intros m p. apply pair_term_zero_separation. reflexivity.
  - intros m p. eexists. split.
    + rewrite compute_pairwise_gravity_terms by reflexivity. reflexivity.
    + unfold sum_rows. cbn [zip_with fold_left].
      pose proof (pair_term_zero_separation m p p (reflexivity p)) as [H1 H2].
      unfold veq, vadd, vzero in *. cbn [fst snd] in *. rewrite H1, H2. split; ring.
Qed.

(** *** Energy *)

Lemma kinetic_rows : forall ms vs,
  fold_right Qplus 0
    (map (fun r : vec => fst r + snd r)
         (zip_with (fun m v => vscale m (vmul v v)) ms vs)) ==
  fold_right Qplus 0 (zip_with (fun m v => m * dot v v) ms vs).
Proof.
  induction ms as [|m ms IH]; intros [|v vs]; try reflexivity.
  cbn [zip_with map fold_right]. rewrite IH.
  unfold vscale, vmul, dot. cbn [fst snd]. ring.
Qed.

Lemma sum_over_cons x l f : sum_over (x :: l) f = f x + sum_over l f.
Proof. reflexivity. Qed.

(** [ring] does not look under binders: name the sums first. *)
Ltac hide_sums :=
  repeat match goal with
         | |- context [sum_over ?l ?f] => generalize (sum_over l f); intro
         end.

Lemma sum_over_app l1 l2 f :
  sum_over (l1 ++ l2) f == sum_over l1 f + sum_over l2 f.
Proof.
  unfold sum_over. induction l1 as [|x l1 IH]; cbn [app map fold_right].
  - ring.
  - rewrite IH. ring.
Qed.

Lemma sum_over_ext l f g :
  (forall x, In x l -> f x == g x) -> sum_over l f == sum_over l g.
Proof.
  unfold sum_over. induction l as [|x l IH]; intros H; cbn [map fold_right].
  - reflexivity.
  - rewrite (H x) by (left; reflexivity).
    rewrite IH by (intros y Hy; apply H; right; exact Hy). reflexivity.
Qed.

Lemma sum_over_zero l f :
  (forall x, In x l -> f x == 0) -> sum_over l f == 0.
Proof.
  unfold sum_over. induction l as [|x l IH]; intros H; cbn [map fold_right].
  - reflexivity.
  - rewrite (H x) by (left; reflexivity).
    rewrite IH by (intros y Hy; apply H; right; exact Hy). ring.
Qed.

(** The pairs [(i, j)] with [i < j] are those the inner loop visits. *)
Lemma sum_over_above n i f : (i < n)%nat ->
  sum_over (seq 0 n) (fun j => if Nat.ltb i j then f j else 0) ==
  sum_over (seq (i + 1) (n - (i + 1))) f.
Proof.
  intros Hi.
  replace n with ((i + 1) + (n - (i + 1)))%nat at 1 by lia.
  rewrite seq_app, sum_over_app. cbn [Nat.add].
  rewrite sum_over_zero.
  - rewrite Qplus_0_l. apply sum_over_ext. intros j Hj. apply in_seq in Hj.
    destruct (Nat.ltb_spec i j); [reflexivity|lia].
  - intros j Hj. apply in_seq in Hj.
    destruct (Nat.ltb_spec i j); [lia|reflexivity].
Qed.

Lemma potential_inner_sum ps ms i :
  length ps = length ms -> (i < length ms)%nat -> forall k start acc,
  (start + k <= length ms)%nat ->
  exists u, foldR (potential_inner ps ms i) (seq start k) acc = Ok u /\
            u == acc - sum_over (seq start k) (pair_potential ps ms i).
Proof.
  intros Hps Hi. induction k as [|k IH]; intros start acc Hk.
  - exists acc. split; [reflexivity|]. unfold sum_over. cbn. ring.
  - cbn [seq foldR]. unfold potential_inner at 1.
    rewrite (index_nth ps i vzero), (index_nth ps start vzero),
            (index_nth ms i 0), (index_nth ms start 0) by lia.
    cbn [bindR].
    destruct (IH (S start)
                (acc - gravitational_constant CONSTANTS * nth i ms 0 * nth start ms 0
                       / norm (vsub (nth i ps vzero) (nth start ps vzero))))
      as (u & Hu & Eu); [lia|].
    exists u. split; [exact Hu|]. rewrite Eu.
    rewrite sum_over_cons. unfold pair_potential at 2. hide_sums. ring.
Qed.

Lemma potential_outer_sum ps ms :
  length ps = length ms -> forall k start acc,
  (start + k <= length ms)%nat ->
  exists u, foldR (potential_outer ps ms (length ms)) (seq start k) acc = Ok u /\
            u == acc - sum_over (seq start k) (fun i =>
                         sum_over (seq (i + 1) (length ms - (i + 1)))
                                  (pair_potential ps ms i)).
Proof.
  intros Hps. induction k as [|k IH]; intros start acc Hk.
  - exists acc. split; [reflexivity|]. unfold sum_over. cbn. ring.
  - cbn [seq foldR]. unfold potential_outer at 1.
    destruct (potential_inner_sum ps ms start Hps ltac:(lia)
                (length ms - (start + 1))%nat
                (start + 1)%nat acc ltac:(lia)) as (u1 & Hu1 & Eu1).
    rewrite Hu1. cbn [bindR].
    destruct (IH (S start) u1 ltac:(lia)) as (u & Hu & Eu).
    exists u. split; [exact Hu|]. rewrite Eu, Eu1.
    rewrite sum_over_cons. hide_sums. ring.
Qed.

(** C9.  For a snapshot of bodies that are pairwise apart,
    [compute_total_energy] returns the kinetic energy
    [1/2 * sum_i m_i * |v_i|^2] and the potential energy
    [- sum_{i<j} G * m_i * m_j / |r_i - r_j|], with the gravitational constant
    of the acceleration model. *)
Theorem compute_total_energy_formulas (ps vs : list vec) (ms : list Q) :
  length ps = length ms -> length vs = length ms ->
  pairwise_apart ps ->
  exists kinetic potential,
    compute_total_energy ps vs ms = Ok (kinetic, potential) /\
    kinetic == kinetic_energy ms vs /\
    potential == potential_energy ps ms.
Proof.
  intros Hp Hv _. unfold compute_total_energy.
  rewrite broadcast2_same_length by (symmetry; exact Hv). cbn [bindR].
  destruct (potential_outer_sum ps ms Hp (length ms) 0%nat 0 ltac:(lia))
    as (u & Hu & Eu).
  rewrite Hu. cbn [bindR]. eexists _, u. split; [reflexivity|]. split.
  - unfold kinetic_energy. rewrite kinetic_rows. reflexivity.
  - rewrite Eu. unfold potential_energy. cbv zeta.
    rewrite (sum_over_ext (seq 0 (length ms))
               (fun i => sum_over (seq 0 (length ms)) (fun j =>
                  if Nat.ltb i j then pair_potential ps ms i j else 0))
               (fun i => sum_over (seq (i + 1) (length ms - (i + 1)))
                                  (pair_potential ps ms i))).
    + hide_sums. ring.
    + intros i Hi. apply in_seq in Hi. apply sum_over_above. lia.
Qed.

(** *** The precession term *)

Lemma classic_present n bs :
  (exists b, In b bs /\ name b = n) \/ (forall b, In b bs -> name b <> n).
Proof.
  induction bs as [|b bs [(b' & Hb' & Hn)|IH]].
  - right. intros b [].
  - left. exists b'. split; [right; exact Hb'|exact Hn].
  - destruct (String.eqb_spec (name b) n) as [E|E].
    + left. exists b. split; [left; reflexivity|exact E].
    + right. intros b' [<-|Hb']; [exact E|apply IH, Hb'].
Qed.

Lemma find_named_None n bs : forall i,
  find_named n bs i = None <-> (forall b, In b bs -> name b <> n).
Proof.
  induction bs as [|b bs IH]; intros i; cbn [find_named].
  - split; [intros _ b []|reflexivity].
  - destruct (String.eqb_spec (name b) n) as [E|E].
    + split; [discriminate|]. intros H. exfalso. apply (H b); [left; reflexivity|exact E].
    + rewrite IH. split.
      * intros H b' [<-|Hb']; [exact E|apply H, Hb'].
      * intros H b' Hb'. apply H. right. exact Hb'.
Qed.

Lemma find_named_present n system :
  present n system <-> exists r, find_named n (bodies system) 0 = Some r.
Proof.
  unfold present. split.
  - intros (b & Hb & Hn).
    destruct (find_named n (bodies system) 0) as [r|] eqn:E; [eauto|].
    exfalso. apply (proj1 (find_named_None _ _ _) E b Hb Hn).
  - intros (r & Hr).
    destruct (classic_present n (bodies system)) as [H|H]; [exact H|].
    exfalso. apply (proj2 (find_named_None n (bodies system) 0)) in H. congruence.
Qed.

Lemma apply_precession_error h system acc cfg :
  apply_precession h system acc cfg = Err configuration_error <->
  ~ strength_of cfg == 0 /\
  ~ (present "Planet" system /\ present "Moon" system).
Proof.
  unfold apply_precession. cbv zeta.
  destruct (Qeq_bool (strength_of cfg) 0) eqn:Es; cbv iota.
  - apply Qeq_bool_iff in Es. split; [discriminate|]. intros [H _]. contradiction.
  - assert (Hs : ~ strength_of cfg == 0).
    { intros H. apply Qeq_bool_iff in H. congruence. }
    destruct (find_named "Planet" (bodies system) 0) as [[pi planet]|] eqn:Ep.
    + destruct (find_named "Moon" (bodies system) 0) as [[mi moon]|] eqn:Em.
      * split.
        -- unfold index, configuration_error.
           destruct (Qeq_bool (norm _) 0); [discriminate|].
           destruct (acc !! mi); cbv beta iota delta [bindR]; discriminate.
        -- intros [_ H]. exfalso. apply H.
           split; apply find_named_present; eauto.
      * split; [|reflexivity]. intros _. split; [exact Hs|].
        intros [_ H]. apply find_named_present in H as [r Hr]. congruence.
    + split; [|reflexivity]. intros _. split; [exact Hs|].
      intros [H _]. apply find_named_present in H as [r Hr]. congruence.
Qed.

(** A planet and a moon at zero distance: the term is skipped. *)
Lemma apply_precession_degenerate h system acc cfg pi planet mi moon :
  find_named "Planet" (bodies system) 0 = Some (pi, planet) ->
  find_named "Moon" (bodies system) 0 = Some (mi, moon) ->
  norm (vsub (read h (position moon)) (read h (position planet))) == 0 ->
  apply_precession h system acc cfg = Ok acc.
Proof.
  intros Hp Hm Hr. unfold apply_precession. cbv zeta. rewrite Hp, Hm.
  destruct (Qeq_bool (strength_of cfg) 0); [reflexivity|].
  apply Qeq_bool_iff in Hr. rewrite Hr. reflexivity.
Qed.

Lemma truthy_strength cfg_opt cfg :
  truthy cfg_opt = Some cfg -> cfg_opt = Some cfg.
Proof.
  unfold truthy. destruct cfg_opt as [c|]; [|discriminate].
  destruct (decide (c = ∅)); [discriminate|]. intros [= ->]. reflexivity.
Qed.

Lemma truthy_None cfg_opt :
  truthy cfg_opt = None ->
  cfg_opt = None \/ exists cfg, cfg_opt = Some cfg /\ strength_of cfg = 0.
Proof.
  unfold truthy. destruct cfg_opt as [c|]; [|auto].
  destruct (decide (c = ∅)) as [->|]; [|discriminate].
  intros _. right. exists ∅. split; reflexivity.
Qed.

(** Gravity alone never raises on a state with at least one body. *)
Lemma gravity_of_state h system :
  bodies system <> [] ->
  exists a,
    (positions h system = Ok (position_rows h system)) /\
    compute_pairwise_gravity (position_rows h system) (masses system) = Ok a /\
    length a = length (bodies system).
Proof.
  intros Hne. eexists. split; [|split].
  - unfold positions, stack, position_rows.
    destruct (bodies system); [contradiction|reflexivity].
  - apply compute_pairwise_gravity_terms.
    unfold masses, position_rows. rewrite !length_map. reflexivity.
  - unfold position_rows. rewrite !length_map. reflexivity.
Qed.

Lemma compute_accelerations_error h system cfg_opt :
  bodies system <> [] ->
  (compute_accelerations h system cfg_opt = Err configuration_error <->
   exists cfg, cfg_opt = Some cfg /\ ~ strength_of cfg == 0 /\
               ~ (present "Planet" system /\ present "Moon" system)).
Proof.
  intros Hne. destruct (gravity_of_state h system Hne) as (a & Hp & Ha & _).
  unfold compute_accelerations. rewrite Hp. cbn [bindR]. rewrite Ha. cbn [bindR].
  destruct (truthy cfg_opt) as [cfg|] eqn:Et.
  - apply truthy_strength in Et as ->. rewrite apply_precession_error.
    split.
    + intros H. exists cfg. split; [reflexivity|exact H].
    + intros (c & [= <-] & H). exact H.
  - split; [discriminate|]. intros (cfg & -> & Hs & _).
    apply truthy_None in Et as [Et|(c & [= <-] & Hc)]; [discriminate|].
    exfalso. apply Hs. rewrite Hc. reflexivity.
Qed.

Lemma compute_accelerations_degenerate h system cfg_opt pi planet mi moon :
  find_named "Planet" (bodies system) 0 = Some (pi, planet) ->
  find_named "Moon" (bodies system) 0 = Some (mi, moon) ->
  norm (vsub (read h (position moon)) (read h (position planet))) == 0 ->
  compute_accelerations h system cfg_opt =
  compute_pairwise_gravity (position_rows h system) (masses system).
Proof.
  intros Hp Hm Hr.
  assert (Hne : bodies system <> []).
  { intros E. rewrite E in Hp. discriminate. }
  destruct (gravity_of_state h system Hne) as (a & Hpos & Ha & _).
  unfold compute_accelerations. rewrite Hpos. cbn [bindR]. rewrite Ha. cbn [bindR].
  destruct (truthy cfg_opt); [|reflexivity].
  eapply apply_precession_degenerate; eassumption.
Qed.

Lemma find_named_bound n bs : forall i k b,
  find_named n bs i = Some (k, b) -> (i <= k < i + length bs)%nat.
Proof.
  induction bs as [|b0 bs IH]; intros i k b; cbn [find_named length].
  - discriminate.
  - destruct (String.eqb (name b0) n).
    + intros [= <- _]. lia.
    + intros H. apply IH in H. lia.
Qed.

Lemma present_names n system : present n system <-> In n (names system).
Proof.
  unfold present, names. rewrite in_map_iff. split.
  - intros (b & Hb & Hn). exists b. auto.
  - intros (b & Hn & Hb). exists b. auto.
Qed.

(** With the bodies it asks for, the precession term does not raise. *)
Lemma apply_precession_ok h system acc cfg :
  length acc = length (bodies system) ->
  strength_of cfg == 0 \/ (present "Planet" system /\ present "Moon" system) ->
  exists a, apply_precession h system acc cfg = Ok a /\ length a = length acc.
Proof.
  intros Hl Hc. unfold apply_precession. cbv zeta.
  destruct (Qeq_bool (strength_of cfg) 0) eqn:Es; [eauto|].
  destruct Hc as [Hc|[Hp Hm]].
  { apply Qeq_bool_iff in Hc. congruence. }
  apply find_named_present in Hp as [[pi planet] Hp].
  apply find_named_present in Hm as [[mi moon] Hm].
  rewrite Hp, Hm.
  destruct (Qeq_bool (norm _) 0); [eauto|].
  apply find_named_bound in Hm.
  destruct (lookup_lt_is_Some_2 acc mi) as [a Ha]; [lia|].
  unfold index. rewrite Ha. cbn [bindR]. eexists. split; [reflexivity|].
  apply length_insert.
Qed.

Lemma compute_accelerations_ok h system cfg_opt :
  bodies system <> [] -> precession_ready cfg_opt (names system) ->
  exists a, compute_accelerations h system cfg_opt = Ok a /\
            length a = length (bodies system).
Proof.
  intros Hne Hc. destruct (gravity_of_state h system Hne) as (a & Hp & Ha & La).
  unfold compute_accelerations. rewrite Hp. cbn [bindR]. rewrite Ha. cbn [bindR].
  unfold precession_ready in Hc. destruct (truthy cfg_opt) as [cfg|]; [|eauto].
  destruct (apply_precession_ok h system a cfg La) as (a' & Ha' & La').
  - destruct Hc as [Hc|[Hp' Hm']]; [left; exact Hc|right].
    split; apply present_names; assumption.
  - exists a'. split; [exact Ha'|congruence].
Qed.

(** C6 (as amended).  [apply_precession] raises the configuration error if
    and only if a nonzero moon-precession strength is configured and bodies
    named "Planet" and "Moon" are not both present, and so does
    [compute_accelerations] for a system with at least one body; and when
    the planet-moon separation is zero the accelerations are left as they
    are: no error, the result of gravity alone is kept. *)
Theorem precession_errors h system acc cfg cfg_opt :
  (apply_precession h system acc cfg = Err configuration_error <->
   ~ strength_of cfg == 0 /\
   ~ (present "Planet" system /\ present "Moon" system)) /\
  (bodies system <> [] ->
   (compute_accelerations h system cfg_opt = Err configuration_error <->
    exists c, cfg_opt = Some c /\ ~ strength_of c == 0 /\
              ~ (present "Planet" system /\ present "Moon" system))) /\
  (forall pi planet mi moon,
     find_named "Planet" (bodies system) 0 = Some (pi, planet) ->
     find_named "Moon" (bodies system) 0 = Some (mi, moon) ->
     norm (vsub (read h (position moon)) (read h (position planet))) == 0 ->
     apply_precession h system acc cfg = Ok acc /\
     compute_accelerations h system cfg_opt =
       compute_pairwise_gravity (position_rows h system) (masses system)).
Proof.
  split; [apply apply_precession_error|]. split.
  - apply compute_accelerations_error.
  - intros pi planet mi moon Hp Hm Hr. split.
    + eapply apply_precession_degenerate; eassumption.
    + eapply compute_accelerations_degenerate; eassumption.
Qed.

End WithFloatLib.

(** A system without a moon and a nonzero strength: the configuration
    error; a planet and a moon in the same place: gravity alone. *)
Lemma precession_errors_witness :
  compute_accelerations (F := Samples.grid_lib) Samples.heap_d Samples.system_e
    (Some Samples.precession_on) = Err configuration_error /\
  apply_precession (F := Samples.grid_lib) Samples.heap_d Samples.system_d
    [(0, 0); (0, 0); (0, 0)] Samples.precession_on
  = Ok [(0, 0); (0, 0); (0, 0)] /\
  compute_accelerations (F := Samples.grid_lib) Samples.heap_d Samples.system_d
    (Some Samples.precession_on) =
  compute_pairwise_gravity (F := Samples.grid_lib)
    (position_rows Samples.heap_d Samples.system_d) (masses Samples.system_d).
Proof.
  destruct (precession_errors (F := Samples.grid_lib) Samples.heap_d
              Samples.system_e [] Samples.precession_on
              (Some Samples.precession_on)) as (_ & He & _).
  destruct (precession_errors (F := Samples.grid_lib) Samples.heap_d
              Samples.system_d [(0, 0); (0, 0); (0, 0)] Samples.precession_on
              (Some Samples.precession_on)) as (_ & _ & Hd).
  split; [|exact (Hd 1%nat Samples.planet_body 2%nat Samples.moon_body
                     eq_refl eq_refl eq_refl)].
  apply He; [discriminate|].
  exists Samples.precession_on. split; [reflexivity|]. split.
  - vm_compute. discriminate.
  - intros [_ (b & Hb & Hn)]. simpl in Hb.
    destruct Hb as [<-|[<-|[]]]; discriminate Hn.
Defined.

(** For a system without bodies [compute_accelerations] fails when it
    stacks the positions, before the precession term is reached.  With a
    nonzero strength and neither planet nor moon the exception is not the
    configuration error; with a zero strength there is an exception where
    none is due. *)
Lemma compute_accelerations_empty_system :
  (~ strength_of Samples.precession_on == 0 /\
   ~ (present "Planet" Samples.empty_system /\
      present "Moon" Samples.empty_system) /\
   compute_accelerations (F := Samples.grid_lib) [] Samples.empty_system
     (Some Samples.precession_on)
   = Err (ValueError "need at least one array to stack") /\
   compute_accelerations (F := Samples.grid_lib) [] Samples.empty_system
     (Some Samples.precession_on)
   <> Err configuration_error) /\
  (strength_of Samples.precession_off == 0 /\
   compute_accelerations (F := Samples.grid_lib) [] Samples.empty_system
     (Some Samples.precession_off)
   = Err (ValueError "need at least one array to stack")).
Proof.
  split.
  - split; [vm_compute; discriminate|]. split.
    + intros [(b & [] & _) _].
    + split; [reflexivity|]. vm_compute. discriminate.
  - split; reflexivity.
Qed.

Lemma compute_total_energy_formulas_witness :
  exists kinetic potential,
    compute_total_energy (F := Samples.grid_lib) Samples.positions_f
      Samples.velocities_f Samples.masses_f = Ok (kinetic, potential) /\
    kinetic == kinetic_energy Samples.masses_f Samples.velocities_f /\
    potential == potential_energy (F := Samples.grid_lib) Samples.positions_f
                   Samples.masses_f.
Proof.
  apply (compute_total_energy_formulas (F := Samples.grid_lib));
    [reflexivity | reflexivity |].
  intros i j Hij. simpl in Hij.
  destruct i as [|[|i]], j as [|[|j]]; try lia.
  vm_compute. discriminate.
Defined.

End PhysicsFacts.

(** ** The store *)

Module BodiesFacts.
Import Numpy Bodies.
Local Open Scope state_scope.

Lemma bind_Ok {A B} (m : M A) (k : A -> M B) w w' a :
  m w = (w', Ok a) -> bind m k w = k a w'.
Proof. intros H. unfold bind. rewrite H. reflexivity. Qed.

(** *** Rules for [keeps] *)

Lemma keeps_ret {A} n (a : A) (R : A -> Prop) : R a -> keeps n (ret a) R.
Proof.
  intros Ha w Hw. cbn. split; [exact Hw|]. split; [reflexivity|].
  intros a' [= <-]. exact Ha.
Qed.

Lemma keeps_raise {A} n e (R : A -> Prop) : keeps n (raise e) R.
Proof.
  intros w Hw. cbn. split; [exact Hw|]. split; [reflexivity|]. discriminate.
Qed.

Lemma keeps_liftR {A} n (r : result A) : keeps n (liftR r) (fun _ => True).
Proof.
  intros w Hw. cbn. auto.
Qed.

Lemma keeps_bind {A B} n (m : M A) (k : A -> M B) (R : A -> Prop) (S : B -> Prop) :
  keeps n m R -> (forall a, R a -> keeps n (k a) S) -> keeps n (bind m k) S.
Proof.
  intros Hm Hk w Hw. destruct (Hm w Hw) as (H1 & H2 & H3).
  unfold bind. destruct (m w) as [w' [a|e]]; cbn [fst snd] in *.
  - destruct (Hk a (H3 a eq_refl) w' H1) as (K1 & K2 & K3).
    split; [exact K1|]. split; [congruence|exact K3].
  - split; [exact H1|]. split; [exact H2|]. discriminate.
Qed.

Lemma keeps_foldM {A B} n (f : A -> B -> M A) l :
  (forall a x, keeps n (f a x) (fun _ => True)) ->
  forall a, keeps n (foldM f l a) (fun _ => True).
Proof.
  intros Hf. induction l as [|x l IH]; intros a; cbn [foldM].
  - apply keeps_ret. exact I.
  - eapply keeps_bind; [apply Hf|]. intros a' _. apply IH.
Qed.

Lemma keeps_mapM {A B} n (f : A -> M B) (R : B -> Prop) l :
  (forall x, keeps n (f x) R) -> keeps n (mapM f l) (Forall R).
Proof.
  intros Hf. induction l as [|x l IH]; cbn [mapM].
  - apply keeps_ret. constructor.
  - eapply keeps_bind; [apply Hf|]. intros y Hy.
    eapply keeps_bind; [apply IH|]. intros ys Hys.
    apply keeps_ret. constructor; assumption.
Qed.

Lemma keeps_load n l : keeps n (load l) (fun _ => True).
Proof. intros w Hw. cbn. auto. Qed.

(** A new array lies above the cells that are kept. *)
Lemma keeps_alloc n v : keeps n (alloc v) (fun l => (n <= l)%nat).
Proof.
  intros w Hw. cbn. rewrite length_app. split; [lia|]. split.
  - rewrite take_app_le by exact Hw. reflexivity.
  - intros a [= <-]. exact Hw.
Qed.

(** A write at or above [n] keeps the cells below [n]. *)
Lemma keeps_store n l v : (n <= l)%nat -> keeps n (store l v) (fun _ => True).
Proof.
  intros Hl w Hw. cbn. rewrite length_insert. split; [exact Hw|]. split; [|auto].
  apply take_insert_ge. exact Hl.
Qed.

Lemma keeps_Body_copy n b :
  keeps n (Body_copy b) (fun b' => (n <= position b')%nat /\ (n <= velocity b')%nat).
Proof.
  unfold Body_copy.
  eapply keeps_bind; [apply keeps_load|]. intros p _.
  eapply keeps_bind; [apply keeps_alloc|]. intros p' Hp'.
  eapply keeps_bind; [apply keeps_load|]. intros v _.
  eapply keeps_bind; [apply keeps_alloc|]. intros v' Hv'.
  apply keeps_ret. cbn. auto.
Qed.

(** The copy owns arrays of its own. *)
Lemma keeps_copy n s : keeps n (copy s) (fun s' => fresh n (bodies s')).
Proof.
  unfold copy.
  eapply keeps_bind; [apply keeps_mapM, keeps_Body_copy|]. intros bs Hbs.
  apply keeps_ret. exact Hbs.
Qed.

Lemma keeps_update n s ps vs :
  fresh n (bodies s) -> keeps n (update s ps vs) (fun _ => True).
Proof.
  unfold update, fresh. generalize (bodies s) as bs. intros bs. revert ps vs.
  generalize tt as u.
  induction bs as [|b bs IH]; intros u ps vs Hf.
  - cbn. apply keeps_ret. exact I.
  - destruct ps as [|p ps]; [apply keeps_ret; exact I|].
    destruct vs as [|v vs]; [apply keeps_ret; exact I|].
    apply Forall_cons in Hf as [[Hp Hv] Hf].
    cbn [zip3 foldM].
    eapply keeps_bind.
    + eapply keeps_bind; [apply keeps_store, Hp|]. intros _ _.
      apply keeps_store, Hv.
    + intros u' _. apply IH, Hf.
Qed.

(** *** What [update] and [copy] compute *)

Lemma update_run s ps vs w :
  update s ps vs w =
  ({| heap := store_all (zip3 (bodies s) ps vs) (heap w); evals := evals w |}, Ok tt).
Proof.
  unfold update. generalize (bodies s) as bs. intros bs. revert ps vs w.
  induction bs as [|b bs IH]; intros ps vs w.
  - destruct w. reflexivity.
  - destruct ps as [|p ps]; [destruct w; reflexivity|].
    destruct vs as [|v vs]; [destruct w; reflexivity|].
    cbn [zip3 foldM store_all]. unfold bind at 1. unfold bind at 1.
    cbn [store fst snd]. rewrite IH. reflexivity.
Qed.

Lemma copy_run s w :
  copy s w =
  ({| heap := snd (copy_all (bodies s) (heap w)); evals := evals w |},
   Ok {| bodies := fst (copy_all (bodies s) (heap w)) |}).
Proof.
  unfold copy.
  assert (H : forall bs w,
             mapM Body_copy bs w =
             ({| heap := snd (copy_all bs (heap w)); evals := evals w |},
              Ok (fst (copy_all bs (heap w))))).
  { induction bs as [|b bs IH]; intros w0.
    - destruct w0. reflexivity.
    - cbn [mapM copy_all]. unfold bind at 1. unfold Body_copy at 1.
      unfold bind at 1. cbn [load alloc ret bind heap evals fst snd].
      rewrite length_app. cbn [length]. rewrite Nat.add_1_r.
      unfold bind at 1. rewrite IH. reflexivity. }
  unfold bind. rewrite H. reflexivity.
Qed.

Lemma length_store_all l : forall h, length (store_all l h) = length h.
Proof.
  induction l as [|[[b p] v] l IH]; intros h; [reflexivity|].
  cbn [store_all]. rewrite IH, !length_insert. reflexivity.
Qed.

Lemma read_insert_eq (h : list vec) l v :
  (l < length h)%nat -> read (<[l := v]> h) l = v.
Proof.
  intros H. unfold read. rewrite list_lookup_insert_eq by exact H. reflexivity.
Qed.

Lemma read_insert_ne (h : list vec) l l' v :
  l <> l' -> read (<[l := v]> h) l' = read h l'.
Proof.
  intros H. unfold read. rewrite list_lookup_insert_ne by exact H. reflexivity.
Qed.

(** The writes of [update] leave the other arrays alone. *)
Lemma read_store_all_other l x : forall h,
  (forall b p v, In (b, p, v) l -> position b <> x /\ velocity b <> x) ->
  read (store_all l h) x = read h x.
Proof.
  induction l as [|[[b p] v] l IH]; intros h H; [reflexivity|].
  cbn [store_all]. rewrite IH.
  - destruct (H b p v (or_introl eq_refl)) as [Hp Hv].
    rewrite read_insert_ne by exact Hv. apply read_insert_ne, Hp.
  - intros b' p' v' Hin. apply (H b' p' v'). right. exact Hin.
Qed.

Lemma in_zip3 {A B C} (x : A) (y : B) (z : C) xs : forall ys zs,
  In (x, y, z) (zip3 xs ys zs) -> In x xs.
Proof.
  induction xs as [|x0 xs IH]; intros [|y0 ys] [|z0 zs]; cbn [zip3 In];
    try tauto.
  intros [[= <- _ _]|H]; [left; reflexivity|right; eapply IH, H].
Qed.

Lemma in_locs b bs : In b bs -> In (position b) (locs bs) /\ In (velocity b) (locs bs).
Proof.
  induction bs as [|b0 bs IH]; [intros []|].
  intros [<-|H]; cbn [locs].
  - split; [left; reflexivity|right; left; reflexivity].
  - destruct (IH H). split; right; right; assumption.
Qed.

(** After [update] the arrays of separate bodies hold the rows given. *)
Lemma store_all_rows bs : forall ps vs h,
  length ps = length bs -> length vs = length bs -> separate h bs ->
  position_rows (store_all (zip3 bs ps vs) h) {| bodies := bs |} = ps /\
  velocity_rows (store_all (zip3 bs ps vs) h) {| bodies := bs |} = vs.
Proof.
  unfold position_rows, velocity_rows. cbn [bodies].
  induction bs as [|b bs IH]; intros [|p ps] [|v vs] h Lp Lv [Hnd Hal];
    try discriminate; [split; reflexivity|].
  cbn [locs] in Hnd, Hal.
  apply NoDup_cons in Hnd as [Hpb Hnd]. apply NoDup_cons in Hnd as [Hvb Hnd].
  apply Forall_cons in Hal as [Hpl Hal]. apply Forall_cons in Hal as [Hvl Hal].
  apply not_elem_of_cons in Hpb as [Hpv Hpb].
  cbn [zip3 store_all map].
  set (h1 := <[velocity b := v]> (<[position b := p]> h)).
  assert (Hother : forall b' p' v', In (b', p', v') (zip3 bs ps vs) ->
                     (position b' <> position b /\ velocity b' <> position b) /\
                     (position b' <> velocity b /\ velocity b' <> velocity b)).
  { intros b' p' v' Hin. apply in_zip3, in_locs in Hin as [H1 H2].
    apply list_elem_of_In in H1, H2.
    repeat split; intros E; rewrite E in *; contradiction. }
  destruct (IH ps vs h1) as [IHp IHv].
  - cbn in Lp. lia.
  - cbn in Lv. lia.
  - split; [exact Hnd|]. unfold h1. rewrite !length_insert. exact Hal.
  - rewrite IHp, IHv. split; f_equal.
    + rewrite read_store_all_other by (intros; eapply Hother; eassumption).
      unfold h1. rewrite read_insert_ne by (intros E; apply Hpv; symmetry; exact E).
      apply read_insert_eq, Hpl.
    + rewrite read_store_all_other by (intros; eapply Hother; eassumption).
      unfold h1. apply read_insert_eq. rewrite length_insert. exact Hvl.
Qed.

(** The copies are the same bodies: same names, same masses. *)
Lemma copy_all_names bs : forall h,
  names {| bodies := fst (copy_all bs h) |} = names {| bodies := bs |}.
Proof.
  unfold names. cbn [bodies].
  induction bs as [|b bs IH]; intros h; [reflexivity|].
  cbn [copy_all fst map name]. rewrite IH. reflexivity.
Qed.

Lemma copy_all_extends bs : forall h,
  exists ext, snd (copy_all bs h) = h ++ ext /\ length ext = (2 * length bs)%nat.
Proof.
  induction bs as [|b bs IH]; intros h.
  - exists []. split; [symmetry; apply app_nil_r|reflexivity].
  - cbn [copy_all snd]. cbv zeta.
    destruct (IH ((h ++ [read h (position b)]) ++
                  [read (h ++ [read h (position b)]) (velocity b)]))
      as (ext & -> & Le).
    eexists. rewrite <- !app_assoc. split; [reflexivity|].
    cbn [app length]. lia.
Qed.

Lemma copy_all_locs bs : forall h,
  locs (fst (copy_all bs h)) = seq (length h) (2 * length bs).
Proof.
  induction bs as [|b bs IH]; intros h; [reflexivity|].
  cbn [copy_all fst locs position velocity]. cbv zeta. rewrite IH.
  rewrite !length_app. cbn [length].
  replace (2 * S (length bs))%nat with (S (S (2 * length bs))) by lia.
  cbn [seq]. repeat f_equal. lia.
Qed.

(** The copy owns separate arrays. *)
Lemma copy_all_separate bs h :
  separate (snd (copy_all bs h)) (fst (copy_all bs h)).
Proof.
  destruct (copy_all_extends bs h) as (ext & E & Le).
  unfold separate. rewrite copy_all_locs, E. split.
  - apply NoDup_seq.
  - apply List.Forall_forall. intros l Hl. apply in_seq in Hl.
    rewrite length_app. lia.
Qed.

Lemma read_app_l (h ext : list vec) l :
  (l < length h)%nat -> read (h ++ ext) l = read h l.
Proof.
  intros H. unfold read. rewrite lookup_app_l by exact H. reflexivity.
Qed.

(** The copy holds the positions and velocities of the original. *)
Lemma copy_all_rows bs : forall h,
  allocated h {| bodies := bs |} ->
  position_rows (snd (copy_all bs h)) {| bodies := fst (copy_all bs h) |}
    = position_rows h {| bodies := bs |} /\
  velocity_rows (snd (copy_all bs h)) {| bodies := fst (copy_all bs h) |}
    = velocity_rows h {| bodies := bs |}.
Proof.
  unfold allocated, position_rows, velocity_rows. cbn [bodies].
  induction bs as [|b bs IH]; intros h Ha; [split; reflexivity|].
  apply Forall_cons in Ha as [[Hp Hv] Ha].
  cbn [copy_all fst snd map position velocity]. cbv zeta.
  set (p := read h (position b)).
  set (v := read (h ++ [p]) (velocity b)).
  set (h2 := (h ++ [p]) ++ [v]).
  assert (Ev : v = read h (velocity b)) by (apply read_app_l, Hv).
  destruct (copy_all_extends bs h2) as (ext & E & _).
  destruct (IH h2) as [IHp IHv].
  { eapply Forall_impl; [exact Ha|]. intros b' [H1 H2].
    unfold h2. rewrite !length_app. cbn [length]. lia. }
  rewrite IHp, IHv, E. split; f_equal.
  - rewrite read_app_l by (unfold h2; rewrite !length_app; cbn [length]; lia).
    unfold h2. rewrite read_app_l by (rewrite length_app; cbn [length]; lia).
    unfold read. rewrite list_lookup_middle by reflexivity. reflexivity.
  - apply map_ext_in. intros b' Hb'. rewrite List.Forall_forall in Ha.
    destruct (Ha b' Hb') as [H1 H2].
    unfold h2. rewrite <- app_assoc. apply read_app_l, H1.
  - rewrite read_app_l by (unfold h2; rewrite !length_app; cbn [length]; lia).
    unfold h2, read. rewrite list_lookup_middle; [rewrite Ev; reflexivity|].
    rewrite length_app. cbn [length]. lia.
  - apply map_ext_in. intros b' Hb'. rewrite List.Forall_forall in Ha.
    destruct (Ha b' Hb') as [H1 H2].
    unfold h2. rewrite <- app_assoc. apply read_app_l, H2.
Qed.

End BodiesFacts.

(** ** The integrators *)

Module IntegratorsFacts.
Import Numpy Bodies Physics Integrators NumpyFacts BodiesFacts.
Local Open Scope state_scope.

(** *** The caller's arrays are kept *)

Lemma keeps_evaluate n fn s cfg : keeps n (evaluate fn s cfg) (fun _ => True).
Proof. intros w Hw. cbn. auto. Qed.

Lemma keeps_get_positions n s : keeps n (get_positions s) (fun _ => True).
Proof. intros w Hw. cbn. auto. Qed.

Lemma keeps_get_velocities n s : keeps n (get_velocities s) (fun _ => True).
Proof. intros w Hw. cbn. auto. Qed.

(** Chains of binds whose steps keep the store. *)
Ltac keeps_step :=
  first
    [ apply keeps_ret; try exact I
    | apply keeps_raise
    | eapply keeps_bind;
      [ first [ apply keeps_liftR | apply keeps_evaluate
              | apply keeps_get_positions | apply keeps_get_velocities
              | apply keeps_update; assumption ]
      | intros ? _ ] ].

Lemma keeps_prepare n state duration dt :
  keeps n (prepare state duration dt) (fun pre => fresh n (bodies (snd pre))).
Proof.
  unfold prepare. do 6 keeps_step.
  eapply keeps_bind; [apply keeps_copy|]. intros ts Hts.
  apply keeps_ret. exact Hts.
Qed.

Lemma keeps_leapfrog_step n ts dt fn cfg st step :
  fresh n (bodies ts) ->
  keeps n (leapfrog_step ts dt fn cfg st step) (fun _ => True).
Proof.
  intros Hts. unfold leapfrog_step. cbv zeta. repeat keeps_step.
Qed.

Lemma keeps_rk4_step n ts dt fn cfg st step :
  fresh n (bodies ts) ->
  keeps n (rk4_step ts dt fn cfg st step) (fun _ => True).
Proof.
  intros Hts. unfold rk4_step. cbv zeta. repeat keeps_step.
Qed.

Lemma keeps_leapfrog n state duration dt fn cfg :
  keeps n (leapfrog state duration dt fn cfg) (fun _ => True).
Proof.
  unfold leapfrog.
  eapply keeps_bind; [apply keeps_prepare|]. intros pre Hts. cbv zeta.
  keeps_step.
  eapply keeps_bind.
  - apply keeps_foldM. intros st step. apply keeps_leapfrog_step, Hts.
  - intros fin _. apply keeps_ret. exact I.
Qed.

Lemma keeps_rk4 n state duration dt fn cfg :
  keeps n (rk4 state duration dt fn cfg) (fun _ => True).
Proof.
  unfold rk4.
  eapply keeps_bind; [apply keeps_prepare|]. intros pre Hts. cbv zeta.
  apply keeps_foldM. intros st step. apply keeps_rk4_step, Hts.
Qed.

(** *** The dispatcher *)

Lemma integrators_lookup key :
  integrators !! key =
  if decide (key = "leapfrog"%string) then Some leapfrog
  else if decide (key = "verlet"%string) then Some leapfrog
  else if decide (key = "rk4"%string) then Some rk4
  else None.
Proof.
  unfold integrators. rewrite !lookup_insert, lookup_empty.
  repeat case_decide; congruence.
Qed.

Lemma keeps_integrate n state duration dt method fn cfg :
  keeps n (integrate state duration dt method fn cfg) (fun _ => True).
Proof.
  unfold integrate. rewrite integrators_lookup.
  repeat case_decide;
    try (eapply keeps_bind; [apply keeps_copy|]; intros s _;
         first [apply keeps_leapfrog | apply keeps_rk4]).
  apply keeps_raise.
Qed.

Lemma read_take n (h h' : list vec) l :
  (l < n)%nat -> take n h' = take n h -> read h' l = read h l.
Proof.
  intros Hl Ht. unfold read.
  rewrite <- (lookup_take_lt h' n l), <- (lookup_take_lt h n l) by exact Hl.
  rewrite Ht. reflexivity.
Qed.

Lemma observe_take (h h' : list vec) s :
  allocated h s -> take (length h) h' = take (length h) h ->
  observe h' s = observe h s.
Proof.
  unfold allocated, observe. intros Ha Ht.
  induction Ha as [|b bs [Hp Hv] Ha IH]; [reflexivity|].
  cbn [map]. rewrite IH.
  rewrite (read_take _ _ _ _ Hp Ht), (read_take _ _ _ _ Hv Ht). reflexivity.
Qed.

(** *** Running the steps *)

Lemma bind_liftR_eq {A B} (r : result A) (k : A -> M B) w :
  bind (liftR r) k w = match r with Ok a => k a w | Err e => (w, Err e) end.
Proof. destruct r; reflexivity. Qed.

Lemma bind_evaluate {B} fn ts cfg (k : list vec -> M B) w a :
  fn (heap w) ts cfg = Ok a ->
  bind (evaluate fn ts cfg) k w =
  k a {| heap := heap w;
         evals := evals w ++ [(position_rows (heap w) ts, velocity_rows (heap w) ts)] |}.
Proof. intros H. unfold bind, evaluate. rewrite H. reflexivity. Qed.

Lemma bind_update {B} ts ps vs (k : unit -> M B) w :
  bind (update ts ps vs) k w =
  k tt {| heap := store_all (zip3 (bodies ts) ps vs) (heap w); evals := evals w |}.
Proof. unfold bind. rewrite update_run. reflexivity. Qed.

Lemma add_same xs ys :
  length xs = length ys -> add xs ys = Ok (zip_with vadd xs ys).
Proof.
  intros H. unfold add, broadcast2. rewrite H, Nat.eqb_refl. reflexivity.
Qed.

Lemma assign_same (out : array3) i rows slot :
  out !! i = Some slot -> length rows = length slot ->
  assign out i rows = Ok (<[i := rows]> out).
Proof.
  intros Hs Hl. unfold assign. rewrite Hs, Hl, Nat.eqb_refl. reflexivity.
Qed.

Lemma shaped_lookup n N (arr : array3) i :
  shaped n N arr -> (i < n)%nat -> exists slot, arr !! i = Some slot /\ length slot = N.
Proof.
  intros [Hl Hf] Hi.
  destruct (lookup_lt_is_Some_2 arr i) as [slot Hs]; [lia|].
  exists slot. split; [exact Hs|].
  rewrite List.Forall_forall in Hf. apply Hf.
  apply list_elem_of_In. eapply list_elem_of_lookup_2, Hs.
Qed.

Lemma shaped_insert n N (arr : array3) i rows :
  shaped n N arr -> length rows = N -> shaped n N (<[i := rows]> arr).
Proof.
  intros [Hl Hf] Hr. split; [rewrite length_insert; exact Hl|].
  apply Forall_insert; assumption.
Qed.

(** Lengths of the arrays that the steps combine. *)
Ltac lengths :=
  unfold smul, mulr;
  repeat (rewrite ?length_zip_with, ?length_map); lia.

(** One step of [leapfrog], run on arrays of matching shapes. *)
Lemma leapfrog_step_run ts dt fn cfg (P V : array3) accel step w p v slotP slotV a' :
  P !! (step - 1)%nat = Some p -> V !! (step - 1)%nat = Some v ->
  length v = length p -> length accel = length p ->
  P !! step = Some slotP -> V !! step = Some slotV ->
  length slotP = length p -> length slotV = length p ->
  let new_positions :=
    zip_with vadd (zip_with vadd p (mulr v dt))
                  (mulr (mulr (smul (1 # 2) accel) dt) dt) in
  let h1 := store_all (zip3 (bodies ts) new_positions v) (heap w) in
  fn h1 ts cfg = Ok a' -> length a' = length p ->
  leapfrog_step ts dt fn cfg (P, V, accel) step w =
  ({| heap := h1;
      evals := evals w ++ [(position_rows h1 ts, velocity_rows h1 ts)] |},
   Ok (<[step := new_positions]> P,
       <[step := zip_with vadd v (mulr (smul (1 # 2) (zip_with vadd accel a')) dt)]> V,
       a')).
Proof.
  intros HP HV Lv La HsP HsV LsP LsV np h1 Hfn La'.
  unfold leapfrog_step. cbv zeta. cbn [fst snd].
  rewrite bind_liftR_eq, (index_lookup _ _ _ HP).
  rewrite bind_liftR_eq, (index_lookup _ _ _ HV).
  rewrite bind_liftR_eq, add_same; [|lengths].
  rewrite bind_liftR_eq, add_same; [|lengths].
  rewrite bind_update.
  rewrite (bind_evaluate _ _ _ _ _ a'); [|exact Hfn].
  rewrite bind_liftR_eq, add_same; [|lengths].
  rewrite bind_liftR_eq, add_same; [|lengths].
  rewrite bind_liftR_eq, (assign_same _ _ _ slotP HsP); [|lengths].
  rewrite bind_liftR_eq, (assign_same _ _ _ slotV HsV); [|lengths].
  reflexivity.
Qed.

(** A step keeps the shapes and the slots before it. *)
Lemma leapfrog_step_shaped ts dt fn cfg nm n N (P V : array3) accel step w :
  names ts = nm -> length nm = N -> returns_rows fn cfg nm ->
  shaped n N P -> shaped n N V -> length accel = N ->
  (1 <= step < n)%nat ->
  exists w' P' V' a',
    leapfrog_step ts dt fn cfg (P, V, accel) step w = (w', Ok (P', V', a')) /\
    shaped n N P' /\ shaped n N V' /\ length a' = N /\
    P' !! 0%nat = P !! 0%nat /\ V' !! 0%nat = V !! 0%nat.
Proof.
  intros Hts HN Hfn HP HV La Hstep.
  destruct (shaped_lookup _ _ _ (step - 1) HP) as (p & Hp & Lp); [lia|].
  destruct (shaped_lookup _ _ _ (step - 1) HV) as (v & Hv & Lv); [lia|].
  destruct (shaped_lookup _ _ _ step HP) as (sP & HsP & LsP); [lia|].
  destruct (shaped_lookup _ _ _ step HV) as (sV & HsV & LsV); [lia|].
  set (np := zip_with vadd (zip_with vadd p (mulr v dt))
                      (mulr (mulr (smul (1 # 2) accel) dt) dt)).
  destruct (Hfn (store_all (zip3 (bodies ts) np v) (heap w)) ts Hts)
    as (a' & Ha' & La').
  eexists _, _, _, a'. split.
  - apply (leapfrog_step_run ts dt fn cfg P V accel step w p v sP sV a');
      try assumption; lia.
  - split; [apply shaped_insert; [exact HP|lengths]|].
    split; [apply shaped_insert; [exact HV|lengths]|].
    split; [lia|].
    split; apply list_lookup_insert_ne; lia.
Qed.

Lemma leapfrog_loop ts dt fn cfg nm n N :
  names ts = nm -> length nm = N -> returns_rows fn cfg nm ->
  forall steps (P V : array3) accel w,
    Forall (fun step => (1 <= step < n)%nat) steps ->
    shaped n N P -> shaped n N V -> length accel = N ->
    exists w' P' V' a',
      foldM (leapfrog_step ts dt fn cfg) steps (P, V, accel) w
        = (w', Ok (P', V', a')) /\
      shaped n N P' /\ shaped n N V' /\
      P' !! 0%nat = P !! 0%nat /\ V' !! 0%nat = V !! 0%nat.
Proof.
  intros Hts HN Hfn. induction steps as [|step steps IH]; intros P V accel w Hs HP HV La.
  - eexists w, P, V, accel. cbn. auto.
  - apply Forall_cons in Hs as [Hstep Hs]. cbn [foldM].
    destruct (leapfrog_step_shaped ts dt fn cfg nm n N P V accel step w
                Hts HN Hfn HP HV La Hstep)
      as (w1 & P1 & V1 & a1 & Hrun & HP1 & HV1 & La1 & E0 & E1).
    rewrite (bind_Ok _ _ _ _ _ Hrun).
    destruct (IH P1 V1 a1 w1 Hs HP1 HV1 La1)
      as (w' & P' & V' & a' & Hrun' & HP' & HV' & E0' & E1').
    eexists w', P', V', a'. split; [exact Hrun'|].
    repeat split; try apply HP'; try apply HV'; congruence.
Qed.

(** *** Rules for [succeeds] *)

Lemma succeeds_ret {A} (a : A) (Q : A -> Prop) : Q a -> succeeds (ret a) Q.
Proof. intros H w. exists w, a. split; [reflexivity|exact H]. Qed.

Lemma succeeds_bind {A B} (m : M A) (k : A -> M B) (Q : A -> Prop) (R : B -> Prop) :
  succeeds m Q -> (forall a, Q a -> succeeds (k a) R) -> succeeds (bind m k) R.
Proof.
  intros Hm Hk w. destruct (Hm w) as (w1 & a & Hrun & Ha).
  destruct (Hk a Ha w1) as (w2 & b & Hrun2 & Hb).
  exists w2, b. split; [|exact Hb]. rewrite (bind_Ok _ _ _ _ _ Hrun). exact Hrun2.
Qed.

Lemma succeeds_liftR {A} (r : result A) a (Q : A -> Prop) :
  r = Ok a -> Q a -> succeeds (liftR r) Q.
Proof. intros -> H w. exists w, a. split; [reflexivity|exact H]. Qed.

Lemma succeeds_index {A} (l : list A) i x :
  l !! i = Some x -> succeeds (liftR (index l i)) (fun y => y = x).
Proof. intros H. eapply succeeds_liftR; [apply index_lookup, H|reflexivity]. Qed.

Lemma succeeds_add xs ys N :
  length xs = N -> length ys = N ->
  succeeds (liftR (add xs ys)) (fun r => length r = N).
Proof.
  intros Hx Hy. eapply succeeds_liftR; [apply add_same; congruence|].
  rewrite length_zip_with. lia.
Qed.

Lemma succeeds_assign n N (out : array3) i rows :
  shaped n N out -> (i < n)%nat -> length rows = N ->
  succeeds (liftR (assign out i rows))
           (fun out' => shaped n N out' /\
                        forall j, j <> i -> out' !! j = out !! j).
Proof.
  intros Ho Hi Hr. destruct (shaped_lookup _ _ _ i Ho Hi) as (slot & Hs & Ls).
  eapply succeeds_liftR; [apply (assign_same _ _ _ slot Hs); congruence|].
  split; [apply shaped_insert; assumption|].
  intros j Hj. apply list_lookup_insert_ne. congruence.
Qed.

Lemma succeeds_update ts ps vs : succeeds (update ts ps vs) (fun _ => True).
Proof. intros w. eexists _, tt. split; [apply update_run|exact I]. Qed.

Lemma succeeds_evaluate fn ts cfg nm :
  returns_rows fn cfg nm -> names ts = nm ->
  succeeds (evaluate fn ts cfg) (fun a => length a = length nm).
Proof.
  intros Hfn Hts w. destruct (Hfn (heap w) ts Hts) as (a & Ha & La).
  eexists _, a. split; [|exact La]. unfold evaluate. rewrite Ha. reflexivity.
Qed.

Lemma succeeds_foldM {A B} (f : A -> B -> M A) (I : A -> Prop) (ok : B -> Prop) :
  (forall a x, I a -> ok x -> succeeds (f a x) I) ->
  forall l a, Forall ok l -> I a -> succeeds (foldM f l a) I.
Proof.
  intros Hf. induction l as [|x l IH]; intros a Hl Ha; cbn [foldM].
  - apply succeeds_ret, Ha.
  - apply Forall_cons in Hl as [Hx Hl].
    eapply succeeds_bind; [apply Hf; assumption|].
    intros a' Ha'. apply IH; assumption.
Qed.

(** One step of [rk4] keeps the shapes and the slots before it. *)
Lemma rk4_step_shaped ts dt fn cfg nm n N (P V : array3) step :
  names ts = nm -> length nm = N -> returns_rows fn cfg nm ->
  shaped n N P -> shaped n N V -> (1 <= step < n)%nat ->
  succeeds (rk4_step ts dt fn cfg (P, V) step)
           (fun st => shaped n N (fst st) /\ shaped n N (snd st) /\
                      fst st !! 0%nat = P !! 0%nat /\ snd st !! 0%nat = V !! 0%nat).
Proof.
  intros Hts HN Hfn HP HV Hstep. subst N.
  destruct (shaped_lookup _ _ _ (step - 1) HP) as (p & Hp & Lp); [lia|].
  destruct (shaped_lookup _ _ _ (step - 1) HV) as (v & Hv & Lv); [lia|].
  unfold rk4_step. cbv zeta. cbn [fst snd].
  eapply succeeds_bind; [apply succeeds_index, Hp|]. intros ? ->.
  eapply succeeds_bind; [apply succeeds_index, Hv|]. intros ? ->.
  repeat
    (eapply succeeds_bind;
     [ first [ apply succeeds_update
             | apply (succeeds_evaluate fn ts cfg nm Hfn Hts)
             | apply (succeeds_add _ _ (length nm)); lengths ]
     | intros ? ?; cbv beta in * ]).
  eapply succeeds_bind;
    [apply (succeeds_assign n (length nm) P step); [exact HP|lia|assumption]|].
  intros P' [HP' EP'].
  repeat
    (eapply succeeds_bind;
     [ apply (succeeds_add _ _ (length nm)); lengths | intros ? ?; cbv beta in * ]).
  eapply succeeds_bind;
    [apply (succeeds_assign n (length nm) V step); [exact HV|lia|assumption]|].
  intros V' [HV' EV'].
  apply succeeds_ret. cbn [fst snd].
  repeat split; try apply HP'; try apply HV'; [apply EP'|apply EV']; lia.
Qed.

(** The common prelude, for a step size other than 0, a step count that is
    not negative and a state with at least one body. *)
Lemma prepare_run state duration dt w :
  ~ dt == 0 -> (0 <= Qceiling (duration / dt))%Z -> bodies state <> [] ->
  exists (P V : array3),
    prepare state duration dt w =
      ({| heap := snd (copy_all (bodies state) (heap w)); evals := evals w |},
       Ok (Qceiling (duration / dt), P, V,
           {| bodies := fst (copy_all (bodies state) (heap w)) |})) /\
    names {| bodies := fst (copy_all (bodies state) (heap w)) |} = names state /\
    shaped (Z.to_nat (Qceiling (duration / dt) + 1)) (length (bodies state)) P /\
    shaped (Z.to_nat (Qceiling (duration / dt) + 1)) (length (bodies state)) V /\
    P !! 0%nat = Some (position_rows (heap w) state) /\
    V !! 0%nat = Some (velocity_rows (heap w) state).
Proof.
  intros Hdt Hn Hne.
  set (n := Qceiling (duration / dt)) in *. set (N := length (bodies state)).
  set (Z0 := replicate (Z.to_nat (n + 1)) (replicate N vzero)).
  assert (HZ : shaped (Z.to_nat (n + 1)) N Z0).
  { split; [apply length_replicate|].
    apply Forall_replicate, length_replicate. }
  assert (Hpos : positions (heap w) state = Ok (position_rows (heap w) state)).
  { unfold positions, stack, position_rows.
    destruct (bodies state); [contradiction|reflexivity]. }
  assert (Hvel : velocities (heap w) state = Ok (velocity_rows (heap w) state)).
  { unfold velocities, stack, velocity_rows.
    destruct (bodies state); [contradiction|reflexivity]. }
  destruct (shaped_lookup _ _ _ 0%nat HZ) as (slot & Hs & Ls); [lia|].
  exists (<[0%nat := position_rows (heap w) state]> Z0),
         (<[0%nat := velocity_rows (heap w) state]> Z0).
  split.
  - unfold prepare.
    rewrite bind_liftR_eq. unfold n_steps_of.
    assert (Qeq_bool dt 0 = false) as ->.
    { destruct (Qeq_bool dt 0) eqn:E; [|reflexivity].
      apply Qeq_bool_iff in E. contradiction. }
    fold n. rewrite bind_liftR_eq. unfold zeros.
    assert ((n + 1 <? 0)%Z = false) as -> by (apply Z.ltb_ge; lia).
    fold N. fold Z0.
    unfold bind at 1. unfold get_positions at 1. rewrite Hpos.
    rewrite bind_liftR_eq, (assign_same _ _ _ slot Hs);
      [|unfold position_rows; rewrite length_map; fold N; lia].
    unfold bind at 1. unfold get_velocities at 1. rewrite Hvel.
    rewrite bind_liftR_eq, (assign_same _ _ _ slot Hs);
      [|unfold velocity_rows; rewrite length_map; fold N; lia].
    unfold bind at 1. rewrite copy_run. reflexivity.
  - split; [apply copy_all_names|].
    split; [apply shaped_insert; [exact HZ|unfold position_rows; apply length_map]|].
    split; [apply shaped_insert; [exact HZ|unfold velocity_rows; apply length_map]|].
    split; apply list_lookup_insert_eq; destruct HZ as [-> _]; lia.
Qed.

Lemma seq_steps n : Forall (fun step => (1 <= step < n + 1)%nat) (seq 1 n).
Proof.
  apply List.Forall_forall. intros x Hx. apply in_seq in Hx. lia.
Qed.

(** Both integrators return [ceil(duration/dt) + 1] snapshots of [N] rows,
    the first of them the initial condition. *)
Lemma trajectory_shape state duration dt fn cfg w integrator :
  integrator = leapfrog \/ integrator = rk4 ->
  ~ dt == 0 -> (0 <= Qceiling (duration / dt))%Z -> bodies state <> [] ->
  returns_rows fn cfg (names state) ->
  is_trajectory (heap w) state duration dt (integrator state duration dt fn cfg w).
Proof.
  intros Hi Hdt Hn Hne Hfn.
  destruct (prepare_run state duration dt w Hdt Hn Hne)
    as (P0 & V0 & Hpre & Hts & HP0 & HV0 & E0 & E1).
  set (ts := {| bodies := fst (copy_all (bodies state) (heap w)) |}) in *.
  assert (HN : length (names state) = length (bodies state))
    by (unfold names; apply length_map).
  set (n := Qceiling (duration / dt)) in *.
  assert (Hsteps : Forall (fun step => (1 <= step < Z.to_nat (n + 1))%nat)
                          (seq 1 (Z.to_nat n))).
  { replace (Z.to_nat (n + 1)) with (Z.to_nat n + 1)%nat by lia. apply seq_steps. }
  set (w1 := {| heap := snd (copy_all (bodies state) (heap w)); evals := evals w |}) in *.
  unfold is_trajectory. fold n.
  destruct Hi as [-> | ->].
  - destruct (Hfn (heap w1) ts Hts) as (a0 & Ha0 & La0).
    destruct (leapfrog_loop ts dt fn cfg _ _ _ Hts HN Hfn _ P0 V0 a0
                {| heap := heap w1;
                   evals := evals w1 ++ [(position_rows (heap w1) ts,
                                          velocity_rows (heap w1) ts)] |}
                Hsteps HP0 HV0 ltac:(lia))
      as (w' & P & V & a & Hrun & HP & HV & EP & EV).
    exists P, V. split.
    + unfold leapfrog. rewrite (bind_Ok _ _ _ _ _ Hpre). cbv zeta. cbn [fst snd].
      rewrite (bind_evaluate fn ts cfg _ w1 a0 Ha0).
      rewrite (bind_Ok _ _ _ _ _ Hrun). reflexivity.
    + destruct HP as [LP FP], HV as [LV FV].
      repeat split; try assumption; try lia; congruence.
  - destruct (succeeds_foldM (rk4_step ts dt fn cfg)
                (fun st => shaped (Z.to_nat (n + 1)) (length (bodies state)) (fst st) /\
                           shaped (Z.to_nat (n + 1)) (length (bodies state)) (snd st) /\
                           fst st !! 0%nat = P0 !! 0%nat /\
                           snd st !! 0%nat = V0 !! 0%nat)
                (fun step => (1 <= step < Z.to_nat (n + 1))%nat))
      with (l := seq 1 (Z.to_nat n)) (a := (P0, V0)) (w := w1)
      as (w' & [P V] & Hrun & HP & HV & EP & EV).
    + intros [P1 V1] step (HP1 & HV1 & EP1 & EV1) Hstep. cbn [fst snd] in *.
      intros w2.
      destruct (rk4_step_shaped ts dt fn cfg _ _ _ P1 V1 step Hts HN Hfn HP1 HV1
                  Hstep w2)
        as (w3 & [P2 V2] & Hrun & HP2 & HV2 & EP2 & EV2).
      cbn [fst snd] in *. exists w3, (P2, V2). split; [exact Hrun|].
      cbn [fst snd]. repeat split; try apply HP2; try apply HV2; congruence.
    + exact Hsteps.
    + cbn [fst snd]. auto.
    + cbn [fst snd] in *. exists P, V. split.
      * unfold rk4. rewrite (bind_Ok _ _ _ _ _ Hpre). cbv zeta. cbn [fst snd].
        rewrite Hrun. reflexivity.
      * destruct HP as [LP FP], HV as [LV FV].
        repeat split; try assumption; try lia; congruence.
Qed.

(** *** The formulas of a leapfrog step *)

Lemma position_formula_rows dt : forall p v a,
  Forall2 veq
    (zip_with vadd (zip_with vadd p (mulr v dt))
                   (mulr (mulr (smul (1 # 2) a) dt) dt))
    (map (position_formula dt) (zip3 p v a)).
Proof.
  induction p as [|pi p IH]; intros [|vi v] [|ai a]; cbn; try constructor.
  - unfold veq, vadd, vscale, vscale_r. cbn [fst snd]. split; ring.
  - apply IH.
Qed.

Lemma velocity_formula_rows dt : forall v a a',
  Forall2 veq
    (zip_with vadd v (mulr (smul (1 # 2) (zip_with vadd a a')) dt))
    (map (velocity_formula dt) (zip3 v a a')).
Proof.
  induction v as [|vi v IH]; intros [|ai a] [|ai' a']; cbn; try constructor.
  - unfold veq, vadd, vscale, vscale_r. cbn [fst snd]. split; ring.
  - apply IH.
Qed.

Lemma precession_ready_present cfg nm :
  In "Planet"%string nm -> In "Moon"%string nm -> precession_ready cfg nm.
Proof.
  intros Hp Hm. unfold precession_ready. destruct (truthy cfg); auto.
Qed.

(** The accelerations of the package are such a function. *)
Lemma compute_accelerations_returns_rows `{F : FloatLib} cfg nm :
  nm <> [] -> precession_ready cfg nm ->
  returns_rows compute_accelerations cfg nm.
Proof.
  intros Hne Hc h s Hs. subst nm.
  destruct (PhysicsFacts.compute_accelerations_ok h s cfg) as (a & Ha & La).
  - intros E. apply Hne. unfold names. rewrite E. reflexivity.
  - exact Hc.
  - exists a. split; [exact Ha|]. unfold names. rewrite length_map. exact La.
Qed.

(** C3.  A leapfrog step first computes
    [position[k] = position[k-1] + velocity[k-1]*dt + 0.5*a[k-1]*dt^2], then
    evaluates [a[k]], the acceleration of the working state that holds the
    new positions and still the velocities of step [k-1], and last computes
    [velocity[k] = velocity[k-1] + 0.5*(a[k-1] + a[k])*dt]; the step makes
    one acceleration evaluation, the one the log gains. *)
Theorem leapfrog_step_order ts dt fn cfg n (P V : array3) accel step w p v :
  returns_rows fn cfg (names ts) -> separate (heap w) (bodies ts) ->
  shaped n (length (bodies ts)) P -> shaped n (length (bodies ts)) V ->
  length accel = length (bodies ts) -> (1 <= step < n)%nat ->
  P !! (step - 1)%nat = Some p -> V !! (step - 1)%nat = Some v ->
  exists w' new_positions new_accel new_velocities,
    leapfrog_step ts dt fn cfg (P, V, accel) step w =
      (w', Ok (<[step := new_positions]> P, <[step := new_velocities]> V,
               new_accel)) /\
    Forall2 veq new_positions (map (position_formula dt) (zip3 p v accel)) /\
    position_rows (heap w') ts = new_positions /\
    velocity_rows (heap w') ts = v /\
    fn (heap w') ts cfg = Ok new_accel /\
    evals w' = evals w ++ [(new_positions, v)] /\
    Forall2 veq new_velocities
            (map (velocity_formula dt) (zip3 v accel new_accel)).
Proof.
  intros Hfn Hsep HP HV La Hstep Hp Hv.
  assert (HN : length (names ts) = length (bodies ts))
    by (unfold names; apply length_map).
  destruct (shaped_lookup _ _ _ (step - 1) HP) as (p' & Hp' & Lp); [lia|].
  destruct (shaped_lookup _ _ _ (step - 1) HV) as (v' & Hv' & Lv); [lia|].
  rewrite Hp in Hp'. rewrite Hv in Hv'.
  injection Hp' as <-. injection Hv' as <-.
  destruct (shaped_lookup _ _ _ step HP) as (sP & HsP & LsP); [lia|].
  destruct (shaped_lookup _ _ _ step HV) as (sV & HsV & LsV); [lia|].
  set (np := zip_with vadd (zip_with vadd p (mulr v dt))
                      (mulr (mulr (smul (1 # 2) accel) dt) dt)).
  set (h1 := store_all (zip3 (bodies ts) np v) (heap w)).
  destruct (Hfn h1 ts eq_refl) as (a' & Ha' & La').
  destruct (store_all_rows (bodies ts) np v (heap w)) as [Rp Rv];
    [unfold np; lengths | lia | exact Hsep |].
  fold h1 in Rp, Rv.
  assert (Ets : {| bodies := bodies ts |} = ts) by (destruct ts; reflexivity).
  rewrite Ets in Rp, Rv.
  exists {| heap := h1;
            evals := evals w ++ [(position_rows h1 ts, velocity_rows h1 ts)] |},
         np, a',
         (zip_with vadd v (mulr (smul (1 # 2) (zip_with vadd accel a')) dt)).
  split.
  - apply (leapfrog_step_run ts dt fn cfg P V accel step w p v sP sV a');
      try assumption; lia.
  - cbn [heap evals]. rewrite Rp, Rv.
    split; [apply position_formula_rows|].
    split; [reflexivity|]. split; [reflexivity|]. split; [exact Ha'|].
    split; [reflexivity|]. apply velocity_formula_rows.
Qed.

Lemma leapfrog_step_order_witness :
  exists w' new_positions new_accel new_velocities,
    leapfrog_step Samples.system_d (1 # 2)
      (compute_accelerations (F := Samples.grid_lib)) None
      (Samples.positions_g, Samples.velocities_g, Samples.accel_g) 1
      Samples.world_d =
      (w', Ok (<[1%nat := new_positions]> Samples.positions_g,
               <[1%nat := new_velocities]> Samples.velocities_g, new_accel)) /\
    Forall2 veq new_positions
      (map (position_formula (1 # 2))
           (zip3 [(0, 0); (1, 0); (1, 0)] [(0, 0); (0, 1); (0, 2)] Samples.accel_g)) /\
    position_rows (heap w') Samples.system_d = new_positions /\
    velocity_rows (heap w') Samples.system_d = [(0, 0); (0, 1); (0, 2)] /\
    compute_accelerations (F := Samples.grid_lib) (heap w') Samples.system_d None
      = Ok new_accel /\
    evals w' = evals Samples.world_d ++ [(new_positions, [(0, 0); (0, 1); (0, 2)])] /\
    Forall2 veq new_velocities
      (map (velocity_formula (1 # 2))
           (zip3 [(0, 0); (0, 1); (0, 2)] Samples.accel_g new_accel)).
Proof.
  apply (leapfrog_step_order Samples.system_d (1 # 2)
           (compute_accelerations (F := Samples.grid_lib)) None 2
           Samples.positions_g Samples.velocities_g Samples.accel_g 1
           Samples.world_d).
  - apply compute_accelerations_returns_rows; [discriminate|exact I].
  - split.
    + cbn. repeat (apply NoDup_cons_2;
                     [rewrite ?elem_of_cons, elem_of_nil; lia|]).
      apply NoDup_nil_2.
    + repeat constructor.
  - split; [reflexivity|]. repeat constructor.
  - split; [reflexivity|]. repeat constructor.
  - reflexivity.
  - lia.
  - reflexivity.
  - reflexivity.
Defined.

Lemma separate_store_all l h bs :
  separate h bs -> separate (store_all l h) bs.
Proof.
  intros [Hn Ha]. split; [exact Hn|]. rewrite length_store_all. exact Ha.
Qed.

(** The loop of [leapfrog] evaluates the acceleration once per step, on
    the positions of the step and the velocities of the step before. *)
Lemma leapfrog_loop_log ts dt fn cfg n :
  returns_rows fn cfg (names ts) ->
  forall m s (P V : array3) accel w,
    (1 <= s)%nat -> (s + m <= n)%nat ->
    shaped n (length (bodies ts)) P -> shaped n (length (bodies ts)) V ->
    length accel = length (bodies ts) -> separate (heap w) (bodies ts) ->
    exists w' (P' V' : array3) a',
      foldM (leapfrog_step ts dt fn cfg) (seq s m) (P, V, accel) w
        = (w', Ok (P', V', a')) /\
      (forall j, (j < s)%nat -> P' !! j = P !! j /\ V' !! j = V !! j) /\
      evals w' = evals w ++
                 map (fun k => (nth k P' [], nth (k - 1) V' [])) (seq s m).
Proof.
  intros Hfn.
  assert (HN : length (names ts) = length (bodies ts))
    by (unfold names; apply length_map).
  induction m as [|m IH]; intros s P V accel w Hs Hm HP HV La Hsep.
  - exists w, P, V, accel. cbn. rewrite app_nil_r. auto.
  - cbn [seq foldM].
    destruct (shaped_lookup _ _ _ (s - 1) HP) as (p & Hp & Lp); [lia|].
    destruct (shaped_lookup _ _ _ (s - 1) HV) as (v & Hv & Lv); [lia|].
    destruct (shaped_lookup _ _ _ s HP) as (sP & HsP & LsP); [lia|].
    destruct (shaped_lookup _ _ _ s HV) as (sV & HsV & LsV); [lia|].
    set (np := zip_with vadd (zip_with vadd p (mulr v dt))
                        (mulr (mulr (smul (1 # 2) accel) dt) dt)).
    set (h1 := store_all (zip3 (bodies ts) np v) (heap w)).
    destruct (Hfn h1 ts eq_refl) as (a1 & Ha1 & La1).
    set (nv := zip_with vadd v (mulr (smul (1 # 2) (zip_with vadd accel a1)) dt)).
    destruct (store_all_rows (bodies ts) np v (heap w)) as [Rp Rv];
      [unfold np; lengths | lia | exact Hsep |].
    fold h1 in Rp, Rv.
    assert (Ets : {| bodies := bodies ts |} = ts) by (destruct ts; reflexivity).
    rewrite Ets in Rp, Rv.
    rewrite (bind_Ok _ _ _ _ _
               (leapfrog_step_run ts dt fn cfg P V accel s w p v sP sV a1
                  Hp Hv ltac:(lia) ltac:(lia) HsP HsV ltac:(lia) ltac:(lia)
                  Ha1 ltac:(lia))).
    fold np h1 nv. rewrite Rp, Rv.
    destruct (IH (S s) (<[s := np]> P) (<[s := nv]> V) a1
                {| heap := h1; evals := evals w ++ [(np, v)] |})
      as (w' & P' & V' & a' & Hrun & Hkeep & Hlog).
    + lia.
    + lia.
    + apply shaped_insert; [exact HP|unfold np; lengths].
    + apply shaped_insert; [exact HV|unfold nv; lengths].
    + lia.
    + apply separate_store_all, Hsep.
    + exists w', P', V', a'. split; [exact Hrun|]. split.
      * intros j Hj. destruct (Hkeep j ltac:(lia)) as [E1 E2].
        rewrite E1, E2. split; apply list_lookup_insert_ne; lia.
      * rewrite Hlog. cbn [evals map]. rewrite <- app_assoc. cbn [app].
        do 3 f_equal.
        -- destruct (Hkeep s ltac:(lia)) as [E1 _].
           rewrite list_lookup_insert_eq in E1 by (destruct HP; lia).
           symmetry. apply nth_lookup_Some with (d := []) in E1. exact E1.
        -- destruct (Hkeep (s - 1)%nat ltac:(lia)) as [_ E2].
           rewrite list_lookup_insert_ne in E2 by lia. rewrite Hv in E2.
           symmetry. apply nth_lookup_Some with (d := []) in E2. exact E2.
Qed.

(** A run of [leapfrog] makes [ceil(duration/dt) + 1] acceleration
    evaluations: one on the initial condition and one per step [k], on the
    positions of snapshot [k] and the velocities of snapshot [k - 1]. *)
Lemma leapfrog_evaluations state duration dt fn cfg w :
  ~ dt == 0 -> (0 <= Qceiling (duration / dt))%Z -> bodies state <> [] ->
  returns_rows fn cfg (names state) -> allocated (heap w) state ->
  exists w' (P V : array3),
    leapfrog state duration dt fn cfg w = (w', Ok (P, V)) /\
    P !! 0%nat = Some (position_rows (heap w) state) /\
    V !! 0%nat = Some (velocity_rows (heap w) state) /\
    evals w' =
    evals w ++
    (position_rows (heap w) state, velocity_rows (heap w) state)
    :: map (fun k => (nth k P [], nth (k - 1) V []))
           (seq 1 (Z.to_nat (Qceiling (duration / dt)))).
Proof.
  intros Hdt Hn Hne Hfn Hal.
  destruct (prepare_run state duration dt w Hdt Hn Hne)
    as (P0 & V0 & Hpre & Hts & HP0 & HV0 & E0 & E1).
  set (ts := {| bodies := fst (copy_all (bodies state) (heap w)) |}) in *.
  set (n := Qceiling (duration / dt)) in *.
  set (w1 := {| heap := snd (copy_all (bodies state) (heap w)); evals := evals w |}) in *.
  assert (HN : length (bodies ts) = length (bodies state)).
  { apply (f_equal (@length string)) in Hts. unfold names in Hts.
    rewrite !length_map in Hts. exact Hts. }
  assert (Es : {| bodies := bodies state |} = state) by (destruct state; reflexivity).
  destruct (copy_all_rows (bodies state) (heap w)) as [Rp Rv];
    [rewrite Es; exact Hal|].
  fold ts in Rp, Rv. rewrite Es in Rp, Rv.
  rewrite <- Hts in Hfn.
  destruct (Hfn (heap w1) ts eq_refl) as (a0 & Ha0 & La0).
  rewrite <- HN in HP0, HV0.
  destruct (leapfrog_loop_log ts dt fn cfg (Z.to_nat (n + 1)) Hfn (Z.to_nat n) 1
              P0 V0 a0
              {| heap := heap w1;
                 evals := evals w1 ++ [(position_rows (heap w1) ts,
                                        velocity_rows (heap w1) ts)] |})
    as (w' & P & V & a & Hrun & Hkeep & Hlog).
  - lia.
  - lia.
  - exact HP0.
  - exact HV0.
  - unfold names in La0. rewrite length_map in La0. exact La0.
  - apply copy_all_separate.
  - destruct (Hkeep 0%nat ltac:(lia)) as [K0 K1].
    exists w', P, V. split; [|split; [congruence|split; [congruence|]]].
    + unfold leapfrog. rewrite (bind_Ok _ _ _ _ _ Hpre). cbv zeta. cbn [fst snd].
      rewrite (bind_evaluate fn ts cfg _ w1 a0 Ha0).
      rewrite (bind_Ok _ _ _ _ _ Hrun). reflexivity.
    + rewrite Hlog. cbn [evals heap w1]. cbn [heap] in Rp, Rv.
      rewrite Rp, Rv, <- app_assoc. reflexivity.
Qed.

(** C5 (as amended).  For every initial state with at least one body, and
    every duration and step size [dt] with [dt] other than 0 and
    [ceil(duration/dt)] not negative, and an acceleration function that
    returns one row per body, both [leapfrog] and [rk4] return position and
    velocity arrays of exactly [ceil(duration/dt) + 1] snapshots, each with
    one row per body, where snapshot 0 holds the stacked positions and
    velocities of the initial state. *)
Theorem integrators_return_trajectories state duration dt fn cfg w :
  ~ dt == 0 -> (0 <= Qceiling (duration / dt))%Z -> bodies state <> [] ->
  returns_rows fn cfg (names state) ->
  is_trajectory (heap w) state duration dt (leapfrog state duration dt fn cfg w) /\
  is_trajectory (heap w) state duration dt (rk4 state duration dt fn cfg w).
Proof.
  intros Hdt Hn Hne Hfn.
  split; apply trajectory_shape; auto.
Qed.

Lemma integrators_return_trajectories_witness :
  is_trajectory Samples.heap_d Samples.system_d 1 (1 # 2)
    (leapfrog Samples.system_d 1 (1 # 2)
       (compute_accelerations (F := Samples.grid_lib))
       (Some Samples.precession_on) Samples.world_d) /\
  is_trajectory Samples.heap_d Samples.system_d 1 (1 # 2)
    (rk4 Samples.system_d 1 (1 # 2)
       (compute_accelerations (F := Samples.grid_lib))
       (Some Samples.precession_on) Samples.world_d).
Proof.
  apply (integrators_return_trajectories Samples.system_d 1 (1 # 2)
           (compute_accelerations (F := Samples.grid_lib))
           (Some Samples.precession_on) Samples.world_d).
  - discriminate.
  - discriminate.
  - discriminate.
  - apply compute_accelerations_returns_rows; [discriminate|].
    apply precession_ready_present;
      [right; left; reflexivity|right; right; left; reflexivity].
Defined.

(** A step size of 0 or a negative duration: the integrators raise and
    return no arrays at all. *)
Lemma integrators_raise_on_bad_steps :
  snd (leapfrog Samples.system_d 1 0
         (compute_accelerations (F := Samples.grid_lib)) None Samples.world_d)
    = Err ZeroDivisionError /\
  snd (rk4 Samples.system_d 1 0
         (compute_accelerations (F := Samples.grid_lib)) None Samples.world_d)
    = Err ZeroDivisionError /\
  snd (leapfrog Samples.system_d (-2) 1
         (compute_accelerations (F := Samples.grid_lib)) None Samples.world_d)
    = Err (ValueError "negative dimensions are not allowed") /\
  snd (rk4 Samples.system_d (-1) 1
         (compute_accelerations (F := Samples.grid_lib)) None Samples.world_d)
    = Err IndexError /\
  ~ is_trajectory Samples.heap_d Samples.system_d 1 0
      (leapfrog Samples.system_d 1 0
         (compute_accelerations (F := Samples.grid_lib)) None Samples.world_d) /\
  ~ is_trajectory Samples.heap_d Samples.system_d 1 0
      (rk4 Samples.system_d 1 0
         (compute_accelerations (F := Samples.grid_lib)) None Samples.world_d).
Proof.
  repeat split; try reflexivity;
    intros (P & V & H & _); vm_compute in H; discriminate H.
Qed.

(** C7.  After a call of [integrate], with either integrator and whether
    it returns or raises, the caller's state is as before: the store still
    holds what it held, so every body's name, mass, position vector and
    velocity vector are the same; the integration writes only to arrays of
    its own copies. *)
Theorem integrate_keeps_state state duration dt method fn cfg w :
  allocated (heap w) state ->
  take (length (heap w))
       (heap (fst (integrate state duration dt method fn cfg w))) = heap w /\
  observe (heap (fst (integrate state duration dt method fn cfg w))) state =
  observe (heap w) state.
Proof.
  intros Ha.
  destruct (keeps_integrate (length (heap w)) state duration dt method fn cfg w
              (Nat.le_refl _)) as (_ & Ht & _).
  split.
  - rewrite Ht. apply firstn_all.
  - apply observe_take; [exact Ha|exact Ht].
Qed.

Lemma integrate_keeps_state_witness :
  take 6 (heap (fst (integrate Samples.system_d 1 (1 # 2) "rk4"
                       (compute_accelerations (F := Samples.grid_lib))
                       (Some Samples.precession_on) Samples.world_d)))
    = Samples.heap_d /\
  observe (heap (fst (integrate Samples.system_d 1 (1 # 2) "rk4"
                        (compute_accelerations (F := Samples.grid_lib))
                        (Some Samples.precession_on) Samples.world_d)))
          Samples.system_d
    = observe Samples.heap_d Samples.system_d.
Proof.
  apply (integrate_keeps_state Samples.system_d 1 (1 # 2) "rk4"
           (compute_accelerations (F := Samples.grid_lib))
           (Some Samples.precession_on) Samples.world_d).
  repeat constructor.
Defined.

(** C4.  [integrate] selects the integrator by the lower-cased method name:
    "leapfrog" and "verlet" run [leapfrog], "rk4" runs [rk4], each on a copy
    of the state; any other name raises the invalid-argument error whose
    message quotes the name as given, before anything is copied or computed. *)
Theorem integrate_dispatch state duration dt method fn cfg :
  (lower method = "leapfrog"%string \/ lower method = "verlet"%string ->
   integrate state duration dt method fn cfg =
   (s <- copy state ;; leapfrog s duration dt fn cfg)) /\
  (lower method = "rk4"%string ->
   integrate state duration dt method fn cfg =
   (s <- copy state ;; rk4 s duration dt fn cfg)) /\
  (lower method <> "leapfrog"%string -> lower method <> "verlet"%string ->
   lower method <> "rk4"%string ->
   forall w, integrate state duration dt method fn cfg w =
             (w, Err (ValueError ("Unknown integration method '" +:+ method +:+ "'.")))).
Proof.
  unfold integrate. rewrite integrators_lookup. split; [|split].
  - intros [-> | ->]; reflexivity.
  - intros ->. reflexivity.
  - intros H1 H2 H3 w. repeat (case_decide; try contradiction). reflexivity.
Qed.

(** C10.  A method name that is "verlet" up to letter case is accepted and
    runs exactly what "leapfrog" runs: the same positions and velocities, the
    same store, the same exception if the integration raises. *)
Theorem integrate_verlet_alias state duration dt method fn cfg :
  lower method = "verlet"%string ->
  integrators !! lower method = Some leapfrog /\
  integrate state duration dt method fn cfg =
  integrate state duration dt "leapfrog" fn cfg.
Proof.
  intros H. split.
  - rewrite H. reflexivity.
  - unfold integrate. rewrite H. reflexivity.
Qed.

Lemma integrate_verlet_alias_witness :
  integrators !! lower "Verlet" = Some leapfrog /\
  integrate Samples.system_d 1 (1 # 2) "Verlet"
    (compute_accelerations (F := Samples.grid_lib)) None =
  integrate Samples.system_d 1 (1 # 2) "leapfrog"
    (compute_accelerations (F := Samples.grid_lib)) None.
Proof.
  apply (integrate_verlet_alias Samples.system_d 1 (1 # 2) "Verlet"
           (compute_accelerations (F := Samples.grid_lib)) None).
  reflexivity.
Defined.

(** "euler" is no integrator: the call raises and the store is as before. *)
Example integrate_euler :
  integrate Samples.system_d 1 (1 # 2) "euler"
    (compute_accelerations (F := Samples.grid_lib)) None Samples.world_d =
  (Samples.world_d, Err (ValueError "Unknown integration method 'euler'.")).
Proof. reflexivity. Qed.

Example lower_upper_case :
  lower "RK4" = "rk4"%string /\ lower "LeapFrog" = "leapfrog"%string.
Proof. split; reflexivity. Qed.

End IntegratorsFacts.
(** ** The detectors *)

Module DetectionFacts.
Import Numpy Events Detection NumpyFacts EventsFacts.

(** A loop that appends the timestamp of every sample that passes a test. *)
Lemma foldR_times_where (f : list Q -> nat -> result (list Q))
    (times : list Q) (test : nat -> bool) (l : list nat) :
  (forall acc i, In i l ->
     f acc i = Ok (if test i then acc ++ [nth i times 0] else acc)) ->
  forall acc,
    foldR f l acc = Ok (acc ++ map (fun i => nth i times 0) (List.filter test l)).
Proof.
  induction l as [|i l IH]; intros Hf acc.
  - simpl. rewrite app_nil_r. reflexivity.
  - cbn [foldR List.filter]. rewrite (Hf acc i) by (left; reflexivity).
    cbn [bindR]. rewrite IH by (intros a j Hj; apply Hf; right; exact Hj).
    destruct (test i); [|reflexivity].
    cbn [map]. rewrite <- app_assoc. reflexivity.
Qed.

Lemma foldR_app {A B} (f : A -> B -> result A) l1 l2 a :
  foldR f (l1 ++ l2) a = bindR (foldR f l1 a) (foldR f l2).
Proof.
  revert a. induction l1 as [|x l1 IH]; intros a; [reflexivity|].
  cbn [app foldR]. destruct (f a x) as [a'|e]; cbn [bindR]; [apply IH|reflexivity].
Qed.

Section WithFloatLib.
Context {F : FloatLib}.

Lemma radial_nth moon planet i :
  length moon = length planet -> (i < length moon)%nat ->
  nth i (map norm (zip_with vsub moon planet)) 0 = radial_distance moon planet i.
Proof.
  revert planet i. induction moon as [|m moon IH]; intros [|p planet] i Hl Hi;
    simpl in *; try lia.
  destruct i as [|i]; [reflexivity|]. apply IH; lia.
Qed.

Lemma pericentre_step_test times moon planet acc i :
  length moon = length times -> length planet = length times ->
  (1 <= i)%nat -> (i + 1 < length times)%nat ->
  pericentre_step times (map norm (zip_with vsub moon planet)) acc i =
  Ok (if is_pericentre moon planet i then acc ++ [nth i times 0] else acc).
Proof.
  intros Hm Hp H1 H2. unfold pericentre_step.
  assert (Hr : length (map norm (zip_with vsub moon planet)) = length times)
    by (rewrite length_map, length_zip_with; lia).
  rewrite !(index_nth _ _ 0) by lia. cbn [bindR].
  rewrite !radial_nth by lia. fold (is_pericentre moon planet i).
  destruct (is_pericentre moon planet i); reflexivity.
Qed.

(** With one row per timestamp the pericentre detector does not fail and
    returns the timestamps of the strict local minima of the distance. *)
Lemma detect_pericentre_passages_where times moon planet :
  length moon = length times -> length planet = length times ->
  detect_pericentre_passages times moon planet =
  Ok (times_where times (is_pericentre moon planet) 1 (length times - 2)).
Proof.
  intros Hm Hp. unfold detect_pericentre_passages.
  rewrite broadcast2_same_length by lia. cbn [bindR].
  rewrite length_map, length_zip_with.
  replace (length moon `min` length planet)%nat with (length times) by lia.
  rewrite (foldR_times_where _ times (is_pericentre moon planet)); [reflexivity|].
  intros acc i Hi. apply in_seq in Hi.
  apply pericentre_step_test; lia.
Qed.

Lemma alignment_step_test times star planet moon threshold acc idx :
  (idx < length times)%nat -> (idx < length star)%nat ->
  (idx < length planet)%nat -> (idx < length moon)%nat ->
  alignment_step times star planet moon threshold acc idx =
  Ok (if is_alignment star planet moon threshold idx
      then acc ++ [nth idx times 0] else acc).
Proof.
  intros Ht Hs Hp Hm. unfold alignment_step, is_alignment.
  rewrite !(index_nth _ _ vzero) by lia. cbn [bindR]. cbv zeta.
  destruct (Qeq_bool _ 0 || Qeq_bool _ 0); cbn [negb andb]; [reflexivity|].
  destruct (Qle_bool _ threshold); [|reflexivity].
  rewrite (index_nth _ _ 0) by lia. reflexivity.
Qed.

Lemma alignment_step_short times star planet moon threshold acc idx :
  (length star <= idx)%nat \/ (length planet <= idx)%nat \/
  (length moon <= idx)%nat ->
  alignment_step times star planet moon threshold acc idx = Err IndexError.
Proof.
  intros H. unfold alignment_step, index.
  destruct (planet !! idx) as [p|] eqn:Ep; [|reflexivity]. cbn [bindR].
  destruct (star !! idx) as [s|] eqn:Es; [|reflexivity]. cbn [bindR].
  destruct (moon !! idx) as [m|] eqn:Em; [|reflexivity].
  apply lookup_lt_Some in Ep, Es, Em. lia.
Qed.

Lemma detect_alignments_where times star planet moon threshold :
  (length times <= length star)%nat -> (length times <= length planet)%nat ->
  (length times <= length moon)%nat ->
  detect_alignments times star planet moon threshold =
  Ok (times_where times (is_alignment star planet moon threshold)
                  0 (length times)).
Proof.
  intros Hs Hp Hm. unfold detect_alignments.
  rewrite (foldR_times_where _ times (is_alignment star planet moon threshold));
    [reflexivity|].
  intros acc i Hi. apply in_seq in Hi.
  apply alignment_step_test; lia.
Qed.

Lemma detect_alignments_short times star planet moon threshold :
  (length star < length times)%nat \/ (length planet < length times)%nat \/
  (length moon < length times)%nat ->
  detect_alignments times star planet moon threshold = Err IndexError.
Proof.
  intros H. unfold detect_alignments.
  set (k := (length star `min` (length planet `min` length moon))%nat).
  assert (Hk : (k < length times)%nat) by lia.
  replace (length times) with (k + S (length times - S k))%nat by lia.
  rewrite seq_app, foldR_app.
  rewrite (foldR_times_where _ times (is_alignment star planet moon threshold)).
  - cbn [bindR seq foldR]. rewrite alignment_step_short by lia. reflexivity.
  - intros acc i Hi. apply in_seq in Hi. apply alignment_step_test; lia.
Qed.

End WithFloatLib.

(** *** Samples picked in order *)

Lemma times_where_In times test first count t :
  In t (times_where times test first count) <->
  exists i, (first <= i < first + count)%nat /\ test i = true /\ nth i times 0 = t.
Proof.
  unfold times_where. rewrite in_map_iff. split.
  - intros (i & Ht & Hi). apply filter_In in Hi as [Hi Htest].
    apply in_seq in Hi. eauto.
  - intros (i & Hi & Htest & Ht). exists i. split; [exact Ht|].
    apply filter_In. split; [apply in_seq; exact Hi | exact Htest].
Qed.

Lemma times_where_length times test first count :
  (length (times_where times test first count) <= count)%nat.
Proof.
  unfold times_where. rewrite length_map.
  etransitivity; [apply List.filter_length_le|]. rewrite length_seq. lia.
Qed.


Lemma sortedb_cons_intro a l :
  Forall (fun x => a <= x) l -> sortedb l = true -> sortedb (a :: l) = true.
Proof.
  intros Hall Hs. destruct l as [|b l]; [reflexivity|].
  cbn [sortedb]. apply andb_true_iff. split; [|exact Hs].
  apply Qle_bool_iff. inversion Hall; assumption.
Qed.

(** Picking samples in order from sorted timestamps gives sorted
    timestamps. *)
Lemma times_where_sorted times test : sortedb times = true ->
  forall count first, (first + count <= length times)%nat ->
    sortedb (times_where times test first count) = true /\
    Forall (fun t => nth first times 0 <= t) (times_where times test first count).
Proof.
  intros Hs. unfold times_where.
  induction count as [|count IH]; intros first Hb.
  - split; [reflexivity|constructor].
  - cbn [seq List.filter]. destruct (IH (S first)) as [IH1 IH2]; [lia|].
    assert (Hstep : Forall (fun t => nth first times 0 <= t)
                      (map (fun i => nth i times 0)
                           (List.filter test (seq (S first) count)))).
    { destruct count as [|count']; [constructor|].
      eapply Forall_impl; [exact IH2|]. cbv beta. intros t Ht.
      eapply Qle_trans; [|exact Ht]. apply sortedb_nth; [exact Hs|lia]. }
    destruct (test first); cbn [map].
    + split; [apply sortedb_cons_intro; assumption|].
      constructor; [apply Qle_refl | exact Hstep].
    + split; assumption.
Qed.

(** Among consecutive samples at most every other one passes a test that
    no two neighbours pass. *)
Lemma filter_no_neighbours (test : nat -> bool) :
  (forall i, test i = true -> test (S i) = false) ->
  forall count first,
    (2 * length (List.filter test (seq first count)) <= count + 1)%nat /\
    (test first = false ->
     2 * length (List.filter test (seq first count)) <= count)%nat.
Proof.
  intros Hn. induction count as [|count IH]; intros first.
  - simpl. lia.
  - cbn [seq List.filter]. destruct (IH (S first)) as [IH1 IH2].
    destruct (test first) eqn:E.
    + specialize (IH2 (Hn _ E)). cbn [length]. split; [lia|discriminate].
    + split; [lia|]. intros _. lia.
Qed.

Lemma is_pericentre_no_neighbours `{F : FloatLib} moon planet i :
  is_pericentre moon planet i = true -> is_pericentre moon planet (S i) = false.
Proof.
  unfold is_pericentre. intros H. apply andb_true_iff in H as [_ H].
  apply Qltb_lt in H. apply andb_false_iff. left.
  apply Qltb_ge. replace (S i - 1)%nat with i by lia.
  replace (i + 1)%nat with (S i) in H by lia. apply Qlt_le_weak, H.
Qed.

Lemma increasingb_cons a l : increasingb (a :: l) = true ->
  increasingb l = true /\ Forall (fun x => a < x) l.
Proof.
  revert a. induction l as [|b l IH]; intros a H; simpl in *.
  - split; [reflexivity | constructor].
  - apply andb_true_iff in H as [Hab Hs]. apply Qltb_lt in Hab.
    split; [exact Hs|]. constructor; [exact Hab|].
    destruct (IH b Hs) as [_ Hall].
    eapply Forall_impl; [exact Hall|]. simpl. intros x Hx.
    eapply Qlt_trans; eassumption.
Qed.

Lemma increasingb_nth l : increasingb l = true ->
  forall i j, (i < j < length l)%nat -> nth i l 0 < nth j l 0.
Proof.
  induction l as [|a l IH]; intros Hs i j Hij; simpl in Hij; [lia|].
  destruct (increasingb_cons _ _ Hs) as [Hs' Hall].
  destruct i as [|i], j as [|j]; simpl; try lia.
  - rewrite List.Forall_forall in Hall. apply Hall. apply nth_In. lia.
  - apply IH; [exact Hs'|lia].
Qed.

Lemma increasingb_sortedb l : increasingb l = true -> sortedb l = true.
Proof.
  induction l as [|a [|b l] IH]; intros H; try reflexivity.
  cbn [increasingb sortedb] in *. apply andb_true_iff in H as [Hab Hs].
  apply andb_true_iff. split; [|apply IH, Hs].
  apply Qle_bool_iff, Qlt_le_weak, Qltb_lt, Hab.
Qed.

(** In strictly increasing timestamps the ordered search finds a timestamp
    at its own index. *)
Lemma searchsorted_own_index times i : increasingb times = true ->
  (i < length times)%nat -> searchsorted times (nth i times 0) = i.
Proof.
  intros Hinc Hi.
  pose proof (increasingb_sortedb _ Hinc) as Hs.
  rewrite searchsorted_count_lt by exact Hs.
  apply partition_count_lt. repeat split; [lia| |].
  - intros j Hj. apply increasingb_nth; [exact Hinc|lia].
  - intros j Hj. apply sortedb_nth; [exact Hs|lia].
Qed.

(** The counts between consecutive alignments add up to the count between
    the first and the last. *)
Lemma count_from_first_chain p a b c : a <= b -> b <= c ->
  count_from_first p a c = (count_from_first p a b + count_from_first p b c)%nat.
Proof.
  intros Hab Hbc.
  pose proof (count_lt_split p a c (Qle_trans _ _ _ Hab Hbc)).
  pose proof (count_lt_split p a b Hab).
  pose proof (count_lt_split p b c Hbc). lia.
Qed.

Lemma count_from_first_empty p a : count_from_first p a a = 0%nat.
Proof.
  unfold count_from_first. induction p as [|t p IH]; [reflexivity|].
  cbn [List.filter]. destruct (Qle_bool a t) eqn:E1; cbn [andb]; [|exact IH].
  assert (Qltb t a = false) as -> by (apply Qltb_ge, Qle_bool_iff, E1).
  exact IH.
Qed.

Lemma count_from_first_le p a b : (count_from_first p a b <= length p)%nat.
Proof. unfold count_from_first. apply List.filter_length_le. Qed.

Lemma last_default (l : list Q) x a b :
  List.last (x :: l) a = List.last (x :: l) b.
Proof.
  revert x. induction l as [|y l IH]; intros x; [reflexivity|].
  change (List.last (x :: y :: l) a) with (List.last (y :: l) a).
  change (List.last (x :: y :: l) b) with (List.last (y :: l) b).
  apply IH.
Qed.

Lemma last_cons_default (al : list Q) a b :
  List.last (b :: al) a = List.last al b.
Proof.
  destruct al as [|c al]; [reflexivity|].
  change (List.last (b :: c :: al) a) with (List.last (c :: al) a).
  apply last_default.
Qed.

Lemma pairs_telescope p : forall al a,
  sortedb (a :: al) = true ->
  fold_right Z.add 0%Z
    (map (fun ab => Z.of_nat (count_from_first p (fst ab) (snd ab)))
         (consecutive_pairs (a :: al))) =
  Z.of_nat (count_from_first p a (List.last al a)) /\ a <= List.last al a.
Proof.
  induction al as [|b al IH]; intros a Hs.
  - cbn. rewrite count_from_first_empty. split; [reflexivity|apply Qle_refl].
  - destruct (sortedb_cons _ _ Hs) as [Hs' Hall].
    destruct (IH b Hs') as [IH1 IH2].
    assert (Hab : a <= b) by (inversion Hall; assumption).
    change (consecutive_pairs (a :: b :: al))
      with ((a, b) :: consecutive_pairs (b :: al)).
    cbn [map fold_right fst snd]. rewrite IH1.
    rewrite (last_cons_default al a b). split; [|eapply Qle_trans; eassumption].
    rewrite (count_from_first_chain p a b (List.last al b) Hab IH2). lia.
Qed.

Lemma length_consecutive_pairs al :
  length (consecutive_pairs al) = (length al - 1)%nat.
Proof.
  induction al as [|a [|b al] IH]; try reflexivity.
  cbn [consecutive_pairs length] in *. rewrite IH. lia.
Qed.


(** On sorted timestamps the detected lists are sorted and the mean is the
    average over the consecutive alignment pairs. *)
Lemma summarise_metrics_on_sorted `{F : FloatLib} times star planet moon :
  sortedb times = true ->
  length star = length times -> length planet = length times ->
  length moon = length times ->
  exists m,
    summarise_metrics times star planet moon = Ok m /\
    sortedb (pericentre_times m) = true /\
    sortedb (alignment_times m) = true /\
    mean_orbits_between_alignments m =
      if Nat.leb 2 (length (alignment_times m)) &&
         Nat.leb 1 (length (pericentre_times m))
      then Some (average_over_pairs (count_from_first (pericentre_times m))
                                    (alignment_times m))
      else None.
Proof.
  intros Hsort Hs Hp Hm. unfold summarise_metrics.
  rewrite detect_pericentre_passages_where by assumption. cbn [bindR].
  rewrite detect_alignments_where by lia. cbn [bindR].
  eexists. split; [reflexivity|].
  cbn [pericentre_times alignment_times mean_orbits_between_alignments].
  assert (Sp : sortedb (times_where times (is_pericentre moon planet) 1
                                    (length times - 2)) = true).
  { destruct (le_lt_dec 2 (length times)) as [Hl|Hl].
    - apply times_where_sorted; [exact Hsort|lia].
    - replace (length times - 2)%nat with 0%nat by lia. reflexivity. }
  destruct (times_where_sorted times
              (is_alignment star planet moon deg2rad_1_5) Hsort
              (length times) 0) as [Sa _]; [lia|].
  split; [exact Sp|]. split; [exact Sa|].
  destruct (Nat.leb 2 _) eqn:E2; cbn [andb].
  - destruct (Nat.leb 1 _) eqn:E1.
    + apply Nat.leb_le in E1, E2. apply mean_orbits_sorted; assumption.
    + apply Nat.leb_gt in E1. apply mean_orbits_absent. right. lia.
  - apply Nat.leb_gt in E2. apply mean_orbits_absent. left. lia.
Qed.

End DetectionFacts.

Module DetectionTheorems.
Import Numpy Events Detection NumpyFacts EventsFacts DetectionFacts.

(** X1.  Given one moon row and one planet row per timestamp,
    [detect_pericentre_passages] does not fail and returns, in sample order,
    the timestamps of exactly the interior samples [i] (never the first or
    the last one) at which the planet-moon distance is strictly below the
    distance in both neighbouring samples; with fewer than three samples
    the result is empty. *)
Theorem detect_pericentre_passages_minima `{F : FloatLib} times moon planet :
  length moon = length times -> length planet = length times ->
  detect_pericentre_passages times moon planet =
    Ok (times_where times (is_pericentre moon planet) 1 (length times - 2)) /\
  (forall t,
     In t (times_where times (is_pericentre moon planet) 1 (length times - 2)) <->
     exists i, (1 <= i)%nat /\ (i + 1 < length times)%nat /\ nth i times 0 = t /\
       radial_distance moon planet i < radial_distance moon planet (i - 1) /\
       radial_distance moon planet i < radial_distance moon planet (i + 1)) /\
  ((length times < 3)%nat ->
   detect_pericentre_passages times moon planet = Ok []).
Proof.
  intros Hm Hp.
  pose proof (detect_pericentre_passages_where times moon planet Hm Hp) as E.
  split; [exact E|]. split.
  - intros t. rewrite times_where_In. split.
    + intros (i & Hi & Htest & Ht). exists i.
      unfold is_pericentre in Htest. apply andb_true_iff in Htest as [H1 H2].
      apply Qltb_lt in H1, H2. repeat split; try lia; assumption.
    + intros (i & H1 & H2 & Ht & Hl & Hr). exists i.
      split; [lia|]. split; [|exact Ht].
      unfold is_pericentre. apply andb_true_iff. split; apply Qltb_lt; assumption.
  - intros Hlt. rewrite E.
    replace (length times - 2)%nat with 0%nat by lia. reflexivity.
Qed.

Lemma detect_pericentre_passages_minima_witness :
  detect_pericentre_passages (F := Samples.grid_lib) Samples.times_a
    Samples.moon_a Samples.planet_a = Ok [3 # 2; 5 # 2; 7 # 2; 9 # 2] /\
  (exists i, (1 <= i)%nat /\ (i + 1 < 11)%nat /\
     nth i Samples.times_a 0 = 3 # 2).
Proof.
  destruct (detect_pericentre_passages_minima (F := Samples.grid_lib)
              Samples.times_a Samples.moon_a Samples.planet_a
              eq_refl eq_refl) as (E & Hin & _).
  split; [exact E|].
  destruct (proj1 (Hin (3 # 2))) as (i & H1 & H2 & H3 & _).
  - left. reflexivity.
  - exists i. auto.
Defined.

(** X2.  No two neighbouring samples are both pericentres, so of [n]
    samples at most [(n - 1) / 2] are: the orbit count that
    [summarise_metrics] reports satisfies [2 * moon_orbit_count <= n - 1]. *)
Theorem moon_orbit_count_bound `{F : FloatLib} times star planet moon m :
  length moon = length times -> length planet = length times ->
  summarise_metrics times star planet moon = Ok m ->
  moon_orbit_count m = length (pericentre_times m) /\
  (2 * moon_orbit_count m <= length times - 1)%nat.
Proof.
  intros Hm Hp Hs.
  assert (Hc : moon_orbit_count m = length (pericentre_times m)).
  { revert Hs. unfold summarise_metrics, bindR.
    destruct (detect_pericentre_passages _ _ _); [|discriminate].
    destruct (detect_alignments _ _ _ _ _); [|discriminate].
    intros [= <-]. reflexivity. }
  split; [exact Hc|]. rewrite Hc.
  apply summarise_metrics_inv in Hs as (Hd & _ & _).
  rewrite detect_pericentre_passages_where in Hd by assumption.
  injection Hd as <-. unfold times_where. rewrite length_map.
  destruct (filter_no_neighbours (is_pericentre moon planet)
              (is_pericentre_no_neighbours moon planet)
              (length times - 2) 1) as [H _].
  destruct (length times) as [|[|n]]; simpl in *; lia.
Qed.

Lemma moon_orbit_count_bound_witness :
  exists m,
    summarise_metrics (F := Samples.grid_lib) Samples.times_a Samples.star_a
      Samples.planet_a Samples.moon_a = Ok m /\
    moon_orbit_count m = 4%nat /\ (2 * moon_orbit_count m <= 11 - 1)%nat.
Proof.
  eexists. split; [reflexivity|]. split; [reflexivity|].
  apply (moon_orbit_count_bound (F := Samples.grid_lib) Samples.times_a
           Samples.star_a Samples.planet_a Samples.moon_a _
           eq_refl eq_refl eq_refl).
Defined.

(** X3.  [detect_alignments] indexes the three position arrays at every
    sample: it raises [IndexError] exactly when one of them has fewer rows
    than there are timestamps, and otherwise returns without error (no
    division error at a zero-length vector, no other exception). *)
Theorem detect_alignments_index_error `{F : FloatLib}
    times star planet moon threshold :
  (detect_alignments times star planet moon threshold = Err IndexError <->
   (length star < length times)%nat \/ (length planet < length times)%nat \/
   (length moon < length times)%nat) /\
  (forall e, detect_alignments times star planet moon threshold = Err e ->
             e = IndexError) /\
  ((length times <= length star)%nat -> (length times <= length planet)%nat ->
   (length times <= length moon)%nat ->
   exists a, detect_alignments times star planet moon threshold = Ok a /\
             (length a <= length times)%nat).
Proof.
  assert (Hcases :
    ((length times <= length star)%nat /\ (length times <= length planet)%nat /\
     (length times <= length moon)%nat) \/
    ((length star < length times)%nat \/ (length planet < length times)%nat \/
     (length moon < length times)%nat)) by lia.
  split; [|split].
  - destruct Hcases as [(H1 & H2 & H3)|H].
    + rewrite detect_alignments_where by assumption. split; [discriminate|lia].
    + rewrite detect_alignments_short by exact H. tauto.
  - intros e. destruct Hcases as [(H1 & H2 & H3)|H].
    + rewrite detect_alignments_where by assumption. discriminate.
    + rewrite detect_alignments_short by exact H. congruence.
  - intros H1 H2 H3. eexists. split.
    + apply detect_alignments_where; assumption.
    + apply times_where_length.
Qed.

(** X4.  A timestamp is reported by [detect_alignments] exactly when it is
    the timestamp of a sample in which neither the star-planet nor the
    planet-moon vector has zero length and the angle between them,
    [arccos] of the cosine clipped to [-1, 1], is at most the threshold;
    a sample with a zero-length vector is skipped whatever the angle
    would be. *)
Theorem detect_alignments_samples `{F : FloatLib}
    times star planet moon threshold :
  length star = length times -> length planet = length times ->
  length moon = length times ->
  exists a,
    detect_alignments times star planet moon threshold = Ok a /\
    a = times_where times (is_alignment star planet moon threshold)
                    0 (length times) /\
    forall t, In t a <->
      exists idx, (idx < length times)%nat /\ nth idx times 0 = t /\
        let sp := vsub (nth idx planet vzero) (nth idx star vzero) in
        let pm := vsub (nth idx moon vzero) (nth idx planet vzero) in
        ~ norm sp == 0 /\ ~ norm pm == 0 /\
        arccos (clip (dot sp pm / (norm sp * norm pm)) (-1) 1) <= threshold.
Proof.
  intros Hs Hp Hm. eexists. split; [apply detect_alignments_where; lia|].
  split; [reflexivity|].
  intros t. rewrite times_where_In. unfold is_alignment. cbv zeta.
  split.
  - intros (i & Hi & Htest & Ht). exists i.
    apply andb_true_iff in Htest as [Hn Ha].
    apply negb_true_iff, orb_false_iff in Hn as [Hn1 Hn2].
    apply Qle_bool_iff in Ha.
    split; [lia|]. split; [exact Ht|].
    split; [|split; [|exact Ha]];
      intros H0; apply Qeq_bool_iff in H0; congruence.
  - intros (i & Hi & Ht & Hn1 & Hn2 & Ha). exists i.
    split; [lia|]. split; [|exact Ht].
    apply andb_true_iff. split; [|apply Qle_bool_iff, Ha].
    apply negb_true_iff, orb_false_iff. split.
    + destruct (Qeq_bool _ 0) eqn:E; [|reflexivity].
      apply Qeq_bool_iff in E. contradiction.
    + destruct (Qeq_bool (norm (vsub (nth i moon vzero) (nth i planet vzero))) 0) eqn:E;
        [|reflexivity].
      apply Qeq_bool_iff in E. contradiction.
Qed.

Lemma detect_alignments_samples_witness :
  exists a,
    detect_alignments (F := Samples.grid_lib) Samples.times_a Samples.star_a
      Samples.planet_a Samples.moon_a (@deg2rad_1_5 Samples.grid_lib) = Ok a /\
    a = [1; 3; 5] /\ In 3 a.
Proof.
  destruct (detect_alignments_samples (F := Samples.grid_lib) Samples.times_a
              Samples.star_a Samples.planet_a Samples.moon_a (@deg2rad_1_5 Samples.grid_lib)
              eq_refl eq_refl eq_refl) as (a & Ha & Hw & _).
  exists a. split; [exact Ha|]. split; [exact Hw|].
  rewrite Hw. right. left. reflexivity.
Defined.

(** X5.  On sorted timestamps with one row per timestamp in each array,
    [summarise_metrics] does not fail, the pericentre and alignment
    timestamps it reports are sorted, and so the mean it reports is the
    average over the consecutive alignment pairs of the pericentre
    timestamps [t] with [a_j <= t < a_{j+1}] whenever there are at least two
    alignments and one pericentre, and absent otherwise. *)
Theorem summarise_metrics_sorted `{F : FloatLib} times star planet moon :
  sortedb times = true ->
  length star = length times -> length planet = length times ->
  length moon = length times ->
  exists m,
    summarise_metrics times star planet moon = Ok m /\
    sortedb (pericentre_times m) = true /\
    sortedb (alignment_times m) = true /\
    mean_orbits_between_alignments m =
      if Nat.leb 2 (length (alignment_times m)) &&
         Nat.leb 1 (length (pericentre_times m))
      then Some (average_over_pairs (count_from_first (pericentre_times m))
                                    (alignment_times m))
      else None.
Proof. apply summarise_metrics_on_sorted. Qed.

Lemma summarise_metrics_sorted_witness :
  exists m,
    summarise_metrics (F := Samples.grid_lib) Samples.times_a Samples.star_a
      Samples.planet_a Samples.moon_a = Ok m /\
    sortedb (pericentre_times m) = true /\
    sortedb (alignment_times m) = true.
Proof.
  destruct (summarise_metrics_sorted (F := Samples.grid_lib) Samples.times_a
              Samples.star_a Samples.planet_a Samples.moon_a
              eq_refl eq_refl eq_refl eq_refl) as (m & Hm & Sp & Sa & _).
  exists m. auto.
Defined.

(** X6.  For sorted pericentre and alignment timestamps with at least two
    alignments and one pericentre, the reported mean times the number of
    alignment intervals equals the number of pericentre timestamps [t] with
    [first alignment <= t < last alignment]: the per-interval counts
    telescope and [max(0, .)] never clamps.  The mean is therefore between
    0 and the orbit count. *)
Theorem mean_orbits_telescopes p al :
  sortedb p = true -> sortedb al = true ->
  (2 <= length al)%nat -> (1 <= length p)%nat ->
  exists q,
    mean_orbits p al = Some q /\
    q * inject_Z (Z.of_nat (length al - 1)) ==
      inject_Z (Z.of_nat (count_from_first p (hd 0 al) (List.last al 0))) /\
    0 <= q /\ q <= inject_Z (Z.of_nat (length p)).
Proof.
  intros Hp Ha H2 H1. rewrite mean_orbits_sorted by assumption.
  eexists. split; [reflexivity|].
  unfold average_over_pairs. rewrite length_consecutive_pairs.
  destruct al as [|a al]; [simpl in H2; lia|].
  destruct (pairs_telescope p al a Ha) as [-> _].
  cbn [hd]. rewrite (last_cons_default al 0 a).
  set (c := count_from_first p a (List.last al a)).
  set (k := (length (a :: al) - 1)%nat).
  assert (Hk : (1 <= k)%nat) by (subst k; simpl in *; lia).
  assert (Hc : (c <= length p)%nat) by apply count_from_first_le.
  assert (Hk0 : 0 < inject_Z (Z.of_nat k)).
  { change 0 with (inject_Z 0). rewrite <- Zlt_Qlt. lia. }
  assert (Hc0 : 0 <= inject_Z (Z.of_nat c)).
  { change 0 with (inject_Z 0). rewrite <- Zle_Qle. lia. }
  split; [|split].
  - field. intros H0. rewrite H0 in Hk0. exact (Qlt_irrefl _ Hk0).
  - apply Qle_shift_div_l; [exact Hk0|]. rewrite Qmult_0_l. exact Hc0.
  - apply Qle_shift_div_r; [exact Hk0|].
    rewrite <- inject_Z_mult, <- Zle_Qle. nia.
Qed.

Lemma mean_orbits_telescopes_witness :
  exists q,
    mean_orbits [3 # 2; 5 # 2; 7 # 2; 9 # 2] [1; 3; 5] = Some q /\
    q * inject_Z (Z.of_nat 2) ==
      inject_Z (Z.of_nat (count_from_first [3 # 2; 5 # 2; 7 # 2; 9 # 2] 1 5)).
Proof.
  destruct (mean_orbits_telescopes [3 # 2; 5 # 2; 7 # 2; 9 # 2] [1; 3; 5]
              eq_refl eq_refl) as (q & Hq & Hm & _); [simpl; lia|simpl; lia|].
  exists q. split; [exact Hq|exact Hm].
Defined.

End DetectionTheorems.

(** ** System states *)

Module StateFacts.
Import Numpy Bodies NumpyFacts BodiesFacts.

Lemma observe_ext h h' bs : forall bs',
  map name bs = map name bs' -> map mass bs = map mass bs' ->
  position_rows h {| bodies := bs |} = position_rows h' {| bodies := bs' |} ->
  velocity_rows h {| bodies := bs |} = velocity_rows h' {| bodies := bs' |} ->
  observe h {| bodies := bs |} = observe h' {| bodies := bs' |}.
Proof.
  unfold position_rows, velocity_rows, observe. cbn [bodies].
  induction bs as [|b bs IH]; intros [|b' bs'] Hn Hm Hp Hv;
    try discriminate; [reflexivity|].
  cbn [map] in *. injection Hn as Hn1 Hn2. injection Hm as Hm1 Hm2.
  injection Hp as Hp1 Hp2. injection Hv as Hv1 Hv2.
  rewrite Hn1, Hm1, Hp1, Hv1. f_equal. apply IH; assumption.
Qed.

Lemma copy_all_masses bs : forall h,
  map mass (fst (copy_all bs h)) = map mass bs /\
  map color (fst (copy_all bs h)) = map color bs.
Proof.
  induction bs as [|b bs IH]; intros h; [split; reflexivity|].
  cbn [copy_all fst map mass color].
  destruct (IH ((h ++ [read h (position b)]) ++
                [read (h ++ [read h (position b)]) (velocity b)])) as [-> ->].
  split; reflexivity.
Qed.

Lemma copy_all_fresh bs h : fresh (length h) (fst (copy_all bs h)).
Proof.
  unfold fresh. apply List.Forall_forall. intros b Hb.
  destruct (in_locs _ _ Hb) as [Hp Hv].
  rewrite copy_all_locs in Hp, Hv. apply in_seq in Hp, Hv. lia.
Qed.

Lemma locs_app bs1 bs2 : locs (bs1 ++ bs2) = locs bs1 ++ locs bs2.
Proof.
  induction bs1 as [|b bs1 IH]; [reflexivity|].
  cbn [app locs]. rewrite IH. reflexivity.
Qed.

Lemma length_zip3_take {A B C} (xs : list A) (ys : list B) (zs : list C) k :
  k = (length xs `min` (length ys `min` length zs))%nat ->
  zip3 xs ys zs = zip3 (take k xs) (take k ys) (take k zs).
Proof.
  intros ->. revert ys zs.
  induction xs as [|x xs IH]; intros [|y ys] [|z zs]; try reflexivity.
  cbn [zip3 length Nat.min take]. f_equal. apply IH.
Qed.

Lemma separate_app_l h bs1 bs2 : separate h (bs1 ++ bs2) -> separate h bs1.
Proof.
  unfold separate. rewrite locs_app. intros [Hn Ha]. split.
  - apply NoDup_app in Hn. tauto.
  - apply Forall_app in Ha. tauto.
Qed.

Lemma rows_store_all_disjoint l bs h :
  (forall b p v x, In (b, p, v) l -> In x (locs bs) ->
                   position b <> x /\ velocity b <> x) ->
  position_rows (store_all l h) {| bodies := bs |} =
    position_rows h {| bodies := bs |} /\
  velocity_rows (store_all l h) {| bodies := bs |} =
    velocity_rows h {| bodies := bs |}.
Proof.
  intros Hd. unfold position_rows, velocity_rows. cbn [bodies].
  split; apply map_ext_in; intros b Hb; apply read_store_all_other;
    intros b' p v Hin; eapply Hd; try exact Hin; apply in_locs; exact Hb.
Qed.

(** What [update] leaves in the store: the first [k] bodies hold the rows
    they were given, the others what they held. *)
Lemma update_rows bs ps vs h k :
  separate h bs ->
  k = (length bs `min` (length ps `min` length vs))%nat ->
  position_rows (store_all (zip3 bs ps vs) h) {| bodies := bs |} =
    take k ps ++ drop k (position_rows h {| bodies := bs |}) /\
  velocity_rows (store_all (zip3 bs ps vs) h) {| bodies := bs |} =
    take k vs ++ drop k (velocity_rows h {| bodies := bs |}).
Proof.
  intros Hsep Hk.
  rewrite (length_zip3_take bs ps vs k Hk).
  assert (Hbs : bs = take k bs ++ drop k bs) by (symmetry; apply take_drop).
  assert (Hsep1 : separate h (take k bs)).
  { apply (separate_app_l h (take k bs) (drop k bs)). rewrite <- Hbs. exact Hsep. }
  destruct (store_all_rows (take k bs) (take k ps) (take k vs) h) as [Hp Hv];
    [rewrite !length_take; lia | rewrite !length_take; lia | exact Hsep1 |].
  destruct (rows_store_all_disjoint
              (zip3 (take k bs) (take k ps) (take k vs)) (drop k bs) h)
    as [Hp' Hv'].
  { intros b p v x Hin Hx. apply in_zip3 in Hin.
    destruct (in_locs _ _ Hin) as [Hbp Hbv].
    destruct Hsep as [Hn _]. rewrite Hbs, locs_app in Hn.
    apply NoDup_app in Hn as (_ & Hdis & _).
    split; intros E.
    - apply (Hdis (position b)); [apply list_elem_of_In, Hbp|].
      rewrite E. apply list_elem_of_In, Hx.
    - apply (Hdis (velocity b)); [apply list_elem_of_In, Hbv|].
      rewrite E. apply list_elem_of_In, Hx. }
  unfold position_rows, velocity_rows in *. cbn [bodies] in *.
  rewrite Hbs at 1 3. rewrite !map_app, Hp, Hv, Hp', Hv'.
  rewrite !List.skipn_map. split; reflexivity.
Qed.

End StateFacts.

Module StateTheorems.
Import Numpy Bodies NumpyFacts BodiesFacts IntegratorsFacts StateFacts.

(** X7.  [SystemState.copy] is a deep copy: it returns a state with the
    same names, masses, colours, positions and velocities whose arrays are
    new and pairwise distinct; it writes to no array that existed before,
    and whatever is then written into the copy by [update] leaves the
    original state as it was. *)
Theorem copy_is_deep s w :
  allocated (heap w) s ->
  exists s' w',
    copy s w = (w', Ok s') /\
    observe (heap w') s' = observe (heap w) s /\
    map color (bodies s') = map color (bodies s) /\
    separate (heap w') (bodies s') /\
    fresh (length (heap w)) (bodies s') /\
    take (length (heap w)) (heap w') = heap w /\
    forall ps vs,
      observe (heap (fst (update s' ps vs w'))) s = observe (heap w) s.
Proof.
  intros Hal. rewrite copy_run. eexists _, _. split; [reflexivity|].
  cbn [heap].
  destruct (copy_all_masses (bodies s) (heap w)) as [Hm Hc].
  destruct (copy_all_rows (bodies s) (heap w)) as [Hp Hv].
  { destruct s. exact Hal. }
  destruct (copy_all_extends (bodies s) (heap w)) as (ext & Hext & _).
  assert (Htake : take (length (heap w)) (snd (copy_all (bodies s) (heap w)))
                  = heap w).
  { rewrite Hext, take_app_length. reflexivity. }
  split; [|split; [exact Hc|split; [apply copy_all_separate|
           split; [apply copy_all_fresh|split; [exact Htake|]]]]].
  - destruct s as [bs]. apply observe_ext; try assumption.
    apply (copy_all_names bs (heap w)).
  - intros ps vs.
    destruct (keeps_update (length (heap w))
                {| bodies := fst (copy_all (bodies s) (heap w)) |} ps vs
                (copy_all_fresh _ _)
                {| heap := snd (copy_all (bodies s) (heap w)); evals := evals w |})
      as (_ & Hk & _).
    { cbn [heap]. rewrite Hext, length_app. lia. }
    cbn [heap] in Hk. apply observe_take; [exact Hal|].
    rewrite Hk, Htake, take_ge by lia. reflexivity.
Qed.

Lemma copy_is_deep_witness :
  exists s' w',
    copy Samples.system_d Samples.world_d = (w', Ok s') /\
    observe (heap w') s' = observe Samples.heap_d Samples.system_d /\
    observe (heap (fst (update s' [(7, 7); (8, 8); (9, 9)]
                                  [(1, 1); (2, 2); (3, 3)] w')))
            Samples.system_d
      = observe Samples.heap_d Samples.system_d.
Proof.
  destruct (copy_is_deep Samples.system_d Samples.world_d)
    as (s' & w' & Hc & Ho & _ & _ & _ & _ & Hu).
  - repeat constructor.
  - exists s', w'. split; [exact Hc|]. split; [exact Ho|]. apply Hu.
Defined.

(** X8.  On a state whose arrays are pairwise distinct, [update] never
    fails and writes as many bodies as the shortest of the body list and
    the two arrays: these bodies then hold the rows given, the remaining
    bodies keep their positions and velocities, and nothing else in the
    store changes size.  In particular, with one row per body,
    [positions] and [velocities] read back exactly what was written. *)
Theorem update_writes_prefix s ps vs w :
  separate (heap w) (bodies s) ->
  exists w',
    update s ps vs w = (w', Ok tt) /\
    (forall k, k = (length (bodies s) `min` (length ps `min` length vs))%nat ->
       position_rows (heap w') s =
         take k ps ++ drop k (position_rows (heap w) s) /\
       velocity_rows (heap w') s =
         take k vs ++ drop k (velocity_rows (heap w) s)) /\
    length (heap w') = length (heap w) /\ evals w' = evals w /\
    (bodies s <> [] -> length ps = length (bodies s) ->
     length vs = length (bodies s) ->
     positions (heap w') s = Ok ps /\ velocities (heap w') s = Ok vs).
Proof.
  intros Hsep. rewrite update_run. eexists. split; [reflexivity|].
  cbn [heap evals]. destruct s as [bs]. cbn [bodies] in *.
  split; [|split; [apply length_store_all|split; [reflexivity|]]].
  - intros k Hk. apply update_rows; assumption.
  - intros Hne Hp Hv.
    destruct (update_rows bs ps vs (heap w) (length bs) Hsep) as [Ep Ev]; [lia|].
    unfold positions, velocities. rewrite Ep, Ev.
    rewrite !drop_ge by (unfold position_rows, velocity_rows;
                         rewrite length_map; cbn [bodies]; lia).
    rewrite !app_nil_r, !take_ge by lia.
    destruct ps, vs, bs; simpl in *; try congruence; try lia. auto.
Qed.

Lemma update_writes_prefix_witness :
  exists w',
    update Samples.system_d [(7, 7); (8, 8)] [(1, 1); (2, 2); (3, 3)]
      Samples.world_d = (w', Ok tt) /\
    position_rows (heap w') Samples.system_d = [(7, 7); (8, 8); (1, 0)] /\
    velocity_rows (heap w') Samples.system_d = [(1, 1); (2, 2); (0, 2)].
Proof.
  destruct (update_writes_prefix Samples.system_d [(7, 7); (8, 8)]
              [(1, 1); (2, 2); (3, 3)] Samples.world_d)
    as (w' & Hu & Hrows & _).
  - split.
    + cbn. repeat (apply NoDup_cons_2;
                     [rewrite ?elem_of_cons, elem_of_nil; lia|]).
      apply NoDup_nil_2.
    + repeat constructor.
  - exists w'. split; [exact Hu|]. exact (Hrows 2%nat eq_refl).
Defined.

End StateTheorems.

(** ** Gravity and precession *)

Module DynamicsFacts.
Import Numpy Bodies Constants Physics Dynamics NumpyFacts PhysicsFacts.

Lemma Qeq_bool_nonzero x : ~ x == 0 -> Qeq_bool x 0 = false.
Proof.
  intros H. destruct (Qeq_bool x 0) eqn:E; [|reflexivity].
  apply Qeq_bool_iff in E. contradiction.
Qed.

Lemma sumQ_cons {X} (f : X -> Q) x l : sumQ f (x :: l) = f x + sumQ f l.
Proof. reflexivity. Qed.

Lemma sumQ_ext {X} (f g : X -> Q) l :
  (forall x, In x l -> f x == g x) -> sumQ f l == sumQ g l.
Proof.
  induction l as [|x l IH]; intros H; [reflexivity|].
  rewrite !sumQ_cons, (H x) by (left; reflexivity).
  rewrite IH by (intros y Hy; apply H; right; exact Hy). reflexivity.
Qed.

Lemma sumQ_plus {X} (f g : X -> Q) l :
  sumQ (fun x => f x + g x) l == sumQ f l + sumQ g l.
Proof.
  induction l as [|x l IH]; [reflexivity|].
  rewrite !sumQ_cons, IH. ring.
Qed.

Lemma sumQ_scale {X} c (f : X -> Q) l :
  c * sumQ f l == sumQ (fun x => c * f x) l.
Proof.
  induction l as [|x l IH]; [unfold sumQ; simpl; ring|].
  rewrite !sumQ_cons, <- IH. ring.
Qed.

Lemma sumQ_zero {X} (f : X -> Q) l :
  (forall x, In x l -> f x == 0) -> sumQ f l == 0.
Proof.
  induction l as [|x l IH]; intros H; [reflexivity|].
  rewrite sumQ_cons, (H x) by (left; reflexivity).
  rewrite IH by (intros y Hy; apply H; right; exact Hy). ring.
Qed.

(** A double sum of terms that change sign when the indices are swapped
    vanishes. *)
Lemma sumQ_antisymmetric {X} (g : X -> X -> Q) :
  (forall x y, g x y + g y x == 0) ->
  forall l, sumQ (fun x => sumQ (g x) l) l == 0.
Proof.
  intros Hg. induction l as [|x l IH]; [reflexivity|].
  rewrite sumQ_cons, sumQ_cons.
  rewrite (sumQ_ext (fun x' => sumQ (g x') (x :: l))
                    (fun x' => g x' x + sumQ (g x') l))
    by (intros; rewrite sumQ_cons; reflexivity).
  rewrite sumQ_plus, IH.
  assert (Hxx : g x x == 0).
  { pose proof (Hg x x) as H.
    assert (E : g x x == (g x x + g x x) * (1 # 2)) by ring.
    rewrite E, H. ring. }
  assert (Hs : sumQ (g x) l + sumQ (fun x' => g x' x) l == 0).
  { rewrite <- sumQ_plus. apply sumQ_zero. intros y _. apply Hg. }
  rewrite Hxx. rewrite <- Hs at 3. ring.
Qed.

Lemma fold_left_vadd rows : forall a,
  fst (fold_left vadd rows a) == fst a + sumQ fst rows /\
  snd (fold_left vadd rows a) == snd a + sumQ snd rows.
Proof.
  induction rows as [|r rows IH]; intros a.
  - unfold sumQ. simpl. split; ring.
  - cbn [fold_left]. destruct (IH (vadd a r)) as [-> ->].
    rewrite !sumQ_cons. unfold vadd. cbn [fst snd]. split; ring.
Qed.

Lemma sum_rows_components rows :
  fst (sum_rows rows) == sumQ fst rows /\ snd (sum_rows rows) == sumQ snd rows.
Proof.
  unfold sum_rows. destruct (fold_left_vadd rows vzero) as [-> ->].
  unfold vzero. cbn [fst snd]. split; ring.
Qed.

Lemma sumQ_map {X Y} (f : Y -> Q) (g : X -> Y) l :
  sumQ f (map g l) = sumQ (fun x => f (g x)) l.
Proof. unfold sumQ. rewrite map_map. reflexivity. Qed.

Lemma zip_with_combine {A B C} (f : A -> B -> C) xs : forall ys,
  zip_with f xs ys = map (fun x => f (fst x) (snd x)) (combine xs ys).
Proof.
  induction xs as [|x xs IH]; intros [|y ys]; try reflexivity.
  cbn [zip_with combine map fst snd]. rewrite IH. reflexivity.
Qed.

Lemma map_snd_combine {A B} (xs : list A) : forall (ys : list B),
  length xs = length ys -> map snd (combine xs ys) = ys.
Proof.
  induction xs as [|x xs IH]; intros [|y ys] H; try discriminate; [reflexivity|].
  cbn [combine map snd]. rewrite IH by (simpl in H; lia). reflexivity.
Qed.

Lemma map_fst_combine {A B} (xs : list A) : forall (ys : list B),
  length xs = length ys -> map fst (combine xs ys) = xs.
Proof.
  induction xs as [|x xs IH]; intros [|y ys] H; try discriminate; [reflexivity|].
  cbn [combine map fst]. rewrite IH by (simpl in H; lia). reflexivity.
Qed.

Lemma combine_map_map {X A B} (f : X -> A) (g : X -> B) l :
  combine (map f l) (map g l) = map (fun x => (f x, g x)) l.
Proof.
  induction l as [|x l IH]; [reflexivity|].
  cbn [map combine]. rewrite IH. reflexivity.
Qed.

Section WithFloatLib.
Context {F : FloatLib}.
Hypothesis pow_value : pow_respects_value.

Lemma inv_cubed_value x y : x == y -> inv_cubed x == inv_cubed y.
Proof.
  intros H. unfold inv_cubed.
  rewrite (EventsFacts.Qltb_comp 0 0 (Qeq_refl 0) x y H).
  destruct (Qltb 0 y); [apply pow_value, H|reflexivity].
Qed.

Lemma pair_term_veq m p_i p_j q_i q_j :
  veq (vsub p_i p_j) (vsub q_i q_j) ->
  veq (pair_term m p_i p_j) (pair_term m q_i q_j).
Proof.
  intros [H1 H2]. unfold pair_term. cbv zeta.
  assert (Hs : sum_sq (vsub p_i p_j) == sum_sq (vsub q_i q_j)).
  { unfold sum_sq, vmul. cbn [fst snd]. rewrite H1, H2. reflexivity. }
  pose proof (inv_cubed_value _ _ Hs) as Hc.
  unfold veq, vscale, vscale_r. cbn [fst snd]. rewrite H1, H2, Hc.
  split; reflexivity.
Qed.

(** Action and reaction: the force of [y] on [x] is opposite to the force
    of [x] on [y]. *)
Lemma pair_term_opposite (x y : Q * vec) :
  veq (vadd (vscale (fst x) (pair_term (fst y) (snd x) (snd y)))
            (vscale (fst y) (pair_term (fst x) (snd y) (snd x))))
      vzero.
Proof.
  destruct x as [mx [x1 x2]], y as [my [y1 y2]]. unfold pair_term. cbv zeta.
  assert (Hs : sum_sq (vsub (y1, y2) (x1, x2)) == sum_sq (vsub (x1, x2) (y1, y2))).
  { unfold sum_sq, vmul, vsub. cbn [fst snd]. ring. }
  pose proof (inv_cubed_value _ _ Hs) as Hc.
  unfold veq, vadd, vscale, vscale_r, vsub, vzero in *. cbn [fst snd] in *.
  rewrite Hc. split; ring.
Qed.

Lemma gravity_rows_combine positions masses :
  length masses = length positions ->
  compute_pairwise_gravity positions masses =
  Ok (map (fun x => sum_rows (map (fun y => pair_term (fst y) (snd x) (snd y))
                                  (combine masses positions)))
          (combine masses positions)).
Proof.
  intros Hl. rewrite compute_pairwise_gravity_terms by exact Hl. f_equal.
  rewrite <- (map_snd_combine masses positions Hl) at 1.
  rewrite map_map. apply map_ext. intros x.
  rewrite zip_with_combine. reflexivity.
Qed.

Lemma total_force_zero positions masses acc :
  length masses = length positions ->
  compute_pairwise_gravity positions masses = Ok acc ->
  veq (total_force masses acc) vzero.
Proof.
  intros Hl Hacc. rewrite gravity_rows_combine in Hacc by exact Hl.
  injection Hacc as <-. unfold total_force.
  set (l := combine masses positions).
  set (row := fun x : Q * vec =>
                sum_rows (map (fun y => pair_term (fst y) (snd x) (snd y)) l)).
  assert (E : zip_with vscale masses (map row l) =
              map (fun x => vscale (fst x) (row x)) l).
  { rewrite <- (map_fst_combine masses positions Hl) at 1. fold l.
    rewrite zip_with_combine.
    rewrite combine_map_map, map_map. reflexivity. }
  rewrite E. clear E.
  destruct (sum_rows_components (map (fun x => vscale (fst x) (row x)) l))
    as [E1 E2].
  unfold veq, vzero. cbn [fst snd]. rewrite E1, E2, !sumQ_map.
  split.
  - rewrite (sumQ_ext _ (fun x => sumQ (fun y =>
               fst (vscale (fst x) (pair_term (fst y) (snd x) (snd y)))) l)).
    + apply (sumQ_antisymmetric
               (fun x y => fst (vscale (fst x) (pair_term (fst y) (snd x) (snd y))))).
      intros x y. destruct (pair_term_opposite x y) as [H _].
      unfold vadd, vzero in H. cbn [fst snd] in H. exact H.
    + intros x _. subst row. cbv beta.
      destruct (sum_rows_components
                  (map (fun y => pair_term (fst y) (snd x) (snd y)) l)) as [R _].
      unfold vscale at 1. cbn [fst]. rewrite R, sumQ_map, sumQ_scale.
      apply sumQ_ext. intros y _. unfold vscale. cbn [fst]. reflexivity.
  - rewrite (sumQ_ext _ (fun x => sumQ (fun y =>
               snd (vscale (fst x) (pair_term (fst y) (snd x) (snd y)))) l)).
    + apply (sumQ_antisymmetric
               (fun x y => snd (vscale (fst x) (pair_term (fst y) (snd x) (snd y))))).
      intros x y. destruct (pair_term_opposite x y) as [_ H].
      unfold vadd, vzero in H. cbn [fst snd] in H. exact H.
    + intros x _. subst row. cbv beta.
      destruct (sum_rows_components
                  (map (fun y => pair_term (fst y) (snd x) (snd y)) l)) as [_ R].
      unfold vscale at 1. cbn [snd]. rewrite R, sumQ_map, sumQ_scale.
      apply sumQ_ext. intros y _. unfold vscale. cbn [snd]. reflexivity.
Qed.

Lemma sum_rows_veq rows rows' :
  Forall2 veq rows rows' -> veq (sum_rows rows) (sum_rows rows').
Proof.
  intros H.
  assert (Hs : sumQ fst rows == sumQ fst rows' /\ sumQ snd rows == sumQ snd rows').
  { induction H as [|r r' rows rows' [Hr1 Hr2] _ [IH1 IH2]]; [split; reflexivity|].
    rewrite !sumQ_cons, Hr1, Hr2, IH1, IH2. split; reflexivity. }
  destruct (sum_rows_components rows) as [E1 E2].
  destruct (sum_rows_components rows') as [E1' E2'].
  unfold veq. rewrite E1, E2, E1', E2'. exact Hs.
Qed.

Lemma gravity_translated positions masses c :
  length masses = length positions ->
  exists acc acc',
    compute_pairwise_gravity positions masses = Ok acc /\
    compute_pairwise_gravity (map (vadd c) positions) masses = Ok acc' /\
    Forall2 veq acc acc'.
Proof.
  intros Hl.
  rewrite (compute_pairwise_gravity_terms positions masses Hl).
  rewrite (compute_pairwise_gravity_terms (map (vadd c) positions) masses)
    by (rewrite length_map; exact Hl).
  eexists _, _. split; [reflexivity|]. split; [reflexivity|].
  rewrite map_map. apply Forall2_fmap.
  apply Forall_Forall2_diag, List.Forall_forall. intros p_i _.
  apply sum_rows_veq. clear Hl. revert masses.
  induction positions as [|p ps IH]; intros [|m ms]; try constructor.
  - apply pair_term_veq. unfold veq, vsub, vadd. cbn [fst snd]. split; ring.
  - apply IH.
Qed.

End WithFloatLib.

(** *** The first body of a name *)

Lemma find_named_first n bs : forall i k b,
  find_named n bs i = Some (k, b) <->
  exists j, k = (i + j)%nat /\ first_named n bs j b.
Proof.
  unfold first_named. induction bs as [|x bs IH]; intros i k b.
  - simpl. split; [discriminate|]. intros (j & _ & H & _). discriminate.
  - cbn [find_named]. destruct (String.eqb (name x) n) eqn:E.
    + apply String.eqb_eq in E. split.
      * intros [= <- <-]. exists 0%nat. split; [lia|].
        split; [reflexivity|]. split; [exact E|]. intros; lia.
      * intros (j & -> & Hl & Hn & Hfirst). destruct j as [|j].
        -- simpl in Hl. injection Hl as <-. do 2 f_equal. lia.
        -- exfalso. apply (Hfirst 0%nat x); [lia|reflexivity|exact E].
    + apply String.eqb_neq in E. rewrite IH. split.
      * intros (j & -> & Hl & Hn & Hfirst). exists (S j). split; [lia|].
        split; [exact Hl|]. split; [exact Hn|].
        intros [|j'] b' Hj Hb'.
        -- simpl in Hb'. injection Hb' as <-. exact E.
        -- apply (Hfirst j' b'); [lia|exact Hb'].
      * intros (j & -> & Hl & Hn & Hfirst). destruct j as [|j].
        -- simpl in Hl. injection Hl as <-. contradiction.
        -- exists j. split; [lia|]. split; [exact Hl|]. split; [exact Hn|].
           intros j' b' Hj Hb'. apply (Hfirst (S j') b'); [lia|exact Hb'].
Qed.

End DynamicsFacts.

Module DynamicsTheorems.
Import Numpy Bodies Constants Physics Dynamics NumpyFacts PhysicsFacts DynamicsFacts.

(** X9.  Newton's third law in [compute_pairwise_gravity]: with one mass
    per position the function returns one acceleration per body, and the
    total force [sum_i m_i * a_i] is exactly zero (in exact arithmetic, for
    any float routine [x ** -1.5] that depends on the value of [x] only):
    gravity alone never accelerates the centre of mass. *)
Theorem gravity_conserves_momentum `{F : FloatLib} positions masses :
  pow_respects_value ->
  length masses = length positions ->
  exists acc,
    compute_pairwise_gravity positions masses = Ok acc /\
    length acc = length positions /\
    veq (total_force masses acc) vzero.
Proof.
  intros Hpow Hl.
  pose proof (compute_pairwise_gravity_terms positions masses Hl) as E.
  eexists. split; [exact E|]. split; [apply length_map|].
  eapply total_force_zero; eassumption.
Qed.

Lemma gravity_conserves_momentum_witness :
  exists acc,
    compute_pairwise_gravity (F := Samples.grid_lib)
      [(0, 0); (3, 0); (3, 4)] [1; 25 # 10000; 3 # 100000] = Ok acc /\
    length acc = 3%nat /\
    veq (total_force [1; 25 # 10000; 3 # 100000] acc) vzero.
Proof.
  apply (gravity_conserves_momentum (F := Samples.grid_lib)
           [(0, 0); (3, 0); (3, 4)] [1; 25 # 10000; 3 # 100000]).
  - intros x y H. simpl. rewrite H. reflexivity.
  - reflexivity.
Defined.

(** X10.  [compute_pairwise_gravity] depends on the differences of the
    positions only: moving every body by the same vector leaves every
    acceleration unchanged (in exact arithmetic). *)
Theorem gravity_translation_invariant `{F : FloatLib} positions masses c :
  pow_respects_value ->
  length masses = length positions ->
  exists acc acc',
    compute_pairwise_gravity positions masses = Ok acc /\
    compute_pairwise_gravity (map (vadd c) positions) masses = Ok acc' /\
    Forall2 veq acc acc'.
Proof.
  intros Hpow Hl. apply gravity_translated; assumption.
Qed.

Lemma gravity_translation_invariant_witness :
  exists acc acc',
    compute_pairwise_gravity (F := Samples.grid_lib)
      Samples.positions_f Samples.masses_f = Ok acc /\
    compute_pairwise_gravity (F := Samples.grid_lib)
      (map (vadd (5, -2)) Samples.positions_f) Samples.masses_f = Ok acc' /\
    Forall2 veq acc acc'.
Proof.
  apply (gravity_translation_invariant (F := Samples.grid_lib)
           Samples.positions_f Samples.masses_f (5, -2)).
  - intros x y H. simpl. rewrite H. reflexivity.
  - reflexivity.
Defined.

(** X11.  When [apply_precession] acts (nonzero strength, the first body
    named "Planet" and the first body named "Moon" at a nonzero distance),
    it changes the acceleration of that moon only: every other row is
    kept, and the moon's row gains [strength * (-r_y, r_x) / |r|] for the
    planet-to-moon vector [r], a vector perpendicular to [r].  If the
    acceleration array has no row at the moon's index it raises
    [IndexError]. *)
Theorem apply_precession_tangential `{F : FloatLib}
    h system acc cfg pi planet mi moon :
  ~ strength_of cfg == 0 ->
  first_named "Planet" (bodies system) pi planet ->
  first_named "Moon" (bodies system) mi moon ->
  ~ norm (vsub (read h (position moon)) (read h (position planet))) == 0 ->
  let r := vsub (read h (position moon)) (read h (position planet)) in
  (forall a, acc !! mi = Some a ->
     exists a',
       apply_precession h system acc cfg = Ok (<[mi := a']> acc) /\
       a' = vadd a (vscale (strength_of cfg) (vdiv (- snd r, fst r) (norm r))) /\
       dot (vsub a' a) r == 0 /\
       (forall j, j <> mi -> (<[mi := a']> acc) !! j = acc !! j) /\
       length (<[mi := a']> acc) = length acc) /\
  (acc !! mi = None -> apply_precession h system acc cfg = Err IndexError).
Proof.
  intros Hs Hp Hm Hr r.
  assert (Ep : find_named "Planet" (bodies system) 0 = Some (pi, planet)).
  { apply find_named_first. exists pi. split; [reflexivity|exact Hp]. }
  assert (Em : find_named "Moon" (bodies system) 0 = Some (mi, moon)).
  { apply find_named_first. exists mi. split; [reflexivity|exact Hm]. }
  pose proof (Qeq_bool_nonzero _ Hs) as Es.
  pose proof (Qeq_bool_nonzero _ Hr) as Er. fold r in Er.
  unfold apply_precession. rewrite Es, Ep, Em. cbv zeta. fold r. rewrite Er.
  split.
  - intros a Ha. unfold index. rewrite Ha. cbn [bindR].
    eexists. split; [reflexivity|]. split; [reflexivity|].
    split; [|split].
    + unfold dot, vsub, vadd, vscale, vdiv. cbn [fst snd]. field. exact Hr.
    + intros j Hj. apply list_lookup_insert_ne. congruence.
    + apply length_insert.
  - intros Hn. unfold index. rewrite Hn. reflexivity.
Qed.

Lemma apply_precession_tangential_witness :
  exists a',
    apply_precession (F := Samples.grid_lib)
      [(0, 0); (0, 0); (1, 0); (0, 1); (3, 0); (0, 2)] Samples.system_d
      [(0, 0); (0, 0); (0, 0)] Samples.precession_on
      = Ok (<[2%nat := a']> [(0, 0); (0, 0); (0, 0)]) /\
    dot (vsub a' (0, 0)) (vsub (3, 0) (1, 0)) == 0.
Proof.
  destruct (apply_precession_tangential (F := Samples.grid_lib)
              [(0, 0); (0, 0); (1, 0); (0, 1); (3, 0); (0, 2)] Samples.system_d
              [(0, 0); (0, 0); (0, 0)] Samples.precession_on
              1 Samples.planet_body 2 Samples.moon_body) as [H _].
  - vm_compute. discriminate.
  - split; [reflexivity|]. split; [reflexivity|].
    intros [|[|j]] b Hj Hb; try lia. injection Hb as <-. discriminate.
  - split; [reflexivity|]. split; [reflexivity|].
    intros [|[|[|j]]] b Hj Hb; try lia; injection Hb as <-; discriminate.
  - vm_compute. discriminate.
  - destruct (H (0, 0) eq_refl) as (a' & E & _ & Hd & _).
    exists a'. split; [exact E|exact Hd].
Defined.

(** X12.  A precession configuration that does not hold the key
    "moon_precession_strength", or holds it with the value 0, asks for
    nothing: [apply_precession] returns the accelerations as they are and
    [compute_accelerations] behaves as without a configuration, also for a
    system without a planet or a moon. *)
Theorem zero_strength_is_gravity `{F : FloatLib} h system cfg :
  cfg !! "moon_precession_strength"%string = None \/
  (exists s, cfg !! "moon_precession_strength"%string = Some s /\ s == 0) ->
  (forall acc, apply_precession h system acc cfg = Ok acc) /\
  compute_accelerations h system (Some cfg) =
  compute_accelerations h system None.
Proof.
  intros Hcfg.
  assert (Hs : Qeq_bool (strength_of cfg) 0 = true).
  { apply Qeq_bool_iff. unfold strength_of.
    destruct Hcfg as [->|(s & -> & Hs)]; [reflexivity|exact Hs]. }
  assert (Ha : forall acc, apply_precession h system acc cfg = Ok acc).
  { intros acc. unfold apply_precession. rewrite Hs. reflexivity. }
  split; [exact Ha|].
  unfold compute_accelerations.
  destruct (positions h system) as [ps|e]; [|reflexivity]. cbn [bindR].
  destruct (compute_pairwise_gravity ps (masses system)) as [acc|e];
    [|reflexivity].
  cbn [bindR truthy]. destruct (decide (cfg = ∅)); [reflexivity|apply Ha].
Qed.

Lemma zero_strength_is_gravity_witness :
  compute_accelerations (F := Samples.grid_lib) Samples.heap_d Samples.system_e
    (Some Samples.precession_off) =
  compute_accelerations (F := Samples.grid_lib) Samples.heap_d Samples.system_e
    None.
Proof.
  apply (zero_strength_is_gravity (F := Samples.grid_lib) Samples.heap_d
           Samples.system_e Samples.precession_off).
  right. exists 0. split; reflexivity.
Defined.

End DynamicsTheorems.

(** ** The integrators, stage by stage *)

Module SchemesFacts.
Import Numpy Bodies Physics Integrators Schemes.
Import NumpyFacts BodiesFacts IntegratorsFacts.

Lemma length_advance xs c ks :
  length ks = length xs -> length (advance xs c ks) = length xs.
Proof. intros H. unfold advance, smul. rewrite length_zip_with, length_map. lia. Qed.

Lemma length_rk4_mix k1 k2 k3 k4 n :
  length k1 = n -> length k2 = n -> length k3 = n -> length k4 = n ->
  length (rk4_mix k1 k2 k3 k4) = n.
Proof.
  intros. unfold rk4_mix, smul. rewrite !length_zip_with, !length_map. lia.
Qed.

Lemma state_eta (s : SystemState) : {| bodies := bodies s |} = s.
Proof. destruct s. reflexivity. Qed.

(** The rows of a state whose arrays are pairwise distinct, after an
    [update] with one row per body. *)
Lemma update_rows_full ts ps vs h :
  separate h (bodies ts) ->
  length ps = length (bodies ts) -> length vs = length (bodies ts) ->
  position_rows (store_all (zip3 (bodies ts) ps vs) h) ts = ps /\
  velocity_rows (store_all (zip3 (bodies ts) ps vs) h) ts = vs.
Proof.
  intros Hsep Lp Lv.
  destruct (store_all_rows (bodies ts) ps vs h Lp Lv Hsep) as [Rp Rv].
  rewrite state_eta in Rp, Rv. split; assumption.
Qed.

Ltac lift_add :=
  rewrite bind_liftR_eq; try (rewrite add_same; [|lengths]); cbv beta iota.

(** One iteration of the loop of [rk4], given the four accelerations. *)
Lemma rk4_step_run ts dt fn cfg (P V : array3) step w pos vel slotP slotV
    a1 a2 a3 a4 :
  P !! (step - 1)%nat = Some pos -> V !! (step - 1)%nat = Some vel ->
  length vel = length pos ->
  P !! step = Some slotP -> V !! step = Some slotV ->
  length slotP = length pos -> length slotV = length pos ->
  let k2 := advance vel ((1 # 2) * dt) a1 in
  let k3 := advance vel ((1 # 2) * dt) a2 in
  let k4 := advance vel dt a3 in
  let h1 := store_all (zip3 (bodies ts) pos vel) (heap w) in
  let h2 := store_all (zip3 (bodies ts) (advance pos ((1 # 2) * dt) vel) k2) h1 in
  let h3 := store_all (zip3 (bodies ts) (advance pos ((1 # 2) * dt) k2) k3) h2 in
  let h4 := store_all (zip3 (bodies ts) (advance pos dt k3) k4) h3 in
  fn h1 ts cfg = Ok a1 -> length a1 = length pos ->
  fn h2 ts cfg = Ok a2 -> length a2 = length pos ->
  fn h3 ts cfg = Ok a3 -> length a3 = length pos ->
  fn h4 ts cfg = Ok a4 -> length a4 = length pos ->
  rk4_step ts dt fn cfg (P, V) step w =
  ({| heap := h4;
      evals := evals w ++
               [(position_rows h1 ts, velocity_rows h1 ts);
                (position_rows h2 ts, velocity_rows h2 ts);
                (position_rows h3 ts, velocity_rows h3 ts);
                (position_rows h4 ts, velocity_rows h4 ts)] |},
   Ok (<[step := advance pos (dt / 6) (rk4_mix vel k2 k3 k4)]> P,
       <[step := advance vel (dt / 6) (rk4_mix a1 a2 a3 a4)]> V)).
Proof.
  intros HP HV Lv HsP HsV LsP LsV k2 k3 k4 h1 h2 h3 h4
         H1 L1 H2 L2 H3 L3 H4 L4.
  unfold rk4_step. cbv zeta. cbn [fst snd].
  rewrite bind_liftR_eq, (index_lookup _ _ _ HP).
  rewrite bind_liftR_eq, (index_lookup _ _ _ HV).
  rewrite bind_update.
  rewrite (bind_evaluate _ _ _ _ _ a1); [|exact H1]. cbn [heap evals].
  do 2 lift_add.
  rewrite bind_update.
  rewrite (bind_evaluate _ _ _ _ _ a2); [|exact H2]. cbn [heap evals].
  do 3 lift_add.
  rewrite bind_update.
  rewrite (bind_evaluate _ _ _ _ _ a3); [|exact H3]. cbn [heap evals].
  do 3 lift_add.
  rewrite bind_update.
  rewrite (bind_evaluate _ _ _ _ _ a4); [|exact H4]. cbn [heap evals].
  do 5 lift_add.
  rewrite bind_liftR_eq, (assign_same _ _ _ slotP HsP); [|lengths].
  do 4 lift_add.
  rewrite bind_liftR_eq, (assign_same _ _ _ slotV HsV); [|lengths].
  unfold ret. rewrite <- !app_assoc. reflexivity.
Qed.


(** One iteration of the loop of [rk4] on a working state whose arrays are
    pairwise distinct: the four evaluations and what each of them sees. *)
Lemma rk4_step_log ts dt fn cfg n (P V : array3) step w pos vel :
  returns_rows fn cfg (names ts) -> separate (heap w) (bodies ts) ->
  shaped n (length (bodies ts)) P -> shaped n (length (bodies ts)) V ->
  (1 <= step < n)%nat ->
  P !! (step - 1)%nat = Some pos -> V !! (step - 1)%nat = Some vel ->
  exists w' a1 a2 a3 a4 h1 h2 h3,
    rk4_step ts dt fn cfg (P, V) step w =
      (w', Ok (<[step := advance pos (dt / 6)
                          (rk4_mix vel (advance vel ((1 # 2) * dt) a1)
                                       (advance vel ((1 # 2) * dt) a2)
                                       (advance vel dt a3))]> P,
               <[step := advance vel (dt / 6) (rk4_mix a1 a2 a3 a4)]> V)) /\
    evals w' = evals w ++
      [(pos, vel);
       (advance pos ((1 # 2) * dt) vel, advance vel ((1 # 2) * dt) a1);
       (advance pos ((1 # 2) * dt) (advance vel ((1 # 2) * dt) a1),
        advance vel ((1 # 2) * dt) a2);
       (advance pos dt (advance vel ((1 # 2) * dt) a2), advance vel dt a3)] /\
    (position_rows h1 ts = pos /\ velocity_rows h1 ts = vel /\
     fn h1 ts cfg = Ok a1) /\
    (position_rows h2 ts = advance pos ((1 # 2) * dt) vel /\
     velocity_rows h2 ts = advance vel ((1 # 2) * dt) a1 /\
     fn h2 ts cfg = Ok a2) /\
    (position_rows h3 ts = advance pos ((1 # 2) * dt) (advance vel ((1 # 2) * dt) a1) /\
     velocity_rows h3 ts = advance vel ((1 # 2) * dt) a2 /\
     fn h3 ts cfg = Ok a3) /\
    (position_rows (heap w') ts = advance pos dt (advance vel ((1 # 2) * dt) a2) /\
     velocity_rows (heap w') ts = advance vel dt a3 /\
     fn (heap w') ts cfg = Ok a4) /\
    length a1 = length (bodies ts) /\ length a2 = length (bodies ts) /\
    length a3 = length (bodies ts) /\ length a4 = length (bodies ts) /\
    separate (heap w') (bodies ts).
Proof.
  intros Hfn Hsep HP HV Hstep Hp Hv.
  assert (HN : length (names ts) = length (bodies ts))
    by (unfold names; apply length_map).
  destruct (shaped_lookup _ _ _ (step - 1) HP) as (p' & Hp' & Lp); [lia|].
  destruct (shaped_lookup _ _ _ (step - 1) HV) as (v' & Hv' & Lv); [lia|].
  rewrite Hp in Hp'. injection Hp' as <-.
  rewrite Hv in Hv'. injection Hv' as <-.
  destruct (shaped_lookup _ _ _ step HP) as (sP & HsP & LsP); [lia|].
  destruct (shaped_lookup _ _ _ step HV) as (sV & HsV & LsV); [lia|].
  set (h1 := store_all (zip3 (bodies ts) pos vel) (heap w)).
  destruct (Hfn h1 ts eq_refl) as (a1 & H1 & L1). rewrite HN in L1.
  set (k2 := advance vel ((1 # 2) * dt) a1).
  set (h2 := store_all (zip3 (bodies ts) (advance pos ((1 # 2) * dt) vel) k2) h1).
  destruct (Hfn h2 ts eq_refl) as (a2 & H2 & L2). rewrite HN in L2.
  set (k3 := advance vel ((1 # 2) * dt) a2).
  set (h3 := store_all (zip3 (bodies ts) (advance pos ((1 # 2) * dt) k2) k3) h2).
  destruct (Hfn h3 ts eq_refl) as (a3 & H3 & L3). rewrite HN in L3.
  set (k4 := advance vel dt a3).
  set (h4 := store_all (zip3 (bodies ts) (advance pos dt k3) k4) h3).
  destruct (Hfn h4 ts eq_refl) as (a4 & H4 & L4). rewrite HN in L4.
  assert (Lk2 : length k2 = length (bodies ts))
    by (unfold k2; rewrite length_advance; lia).
  assert (Lk3 : length k3 = length (bodies ts))
    by (unfold k3; rewrite length_advance; lia).
  assert (Lk4 : length k4 = length (bodies ts))
    by (unfold k4; rewrite length_advance; lia).
  assert (S1 : separate h1 (bodies ts)) by (apply separate_store_all, Hsep).
  assert (S2 : separate h2 (bodies ts)) by (apply separate_store_all, S1).
  assert (S3 : separate h3 (bodies ts)) by (apply separate_store_all, S2).
  assert (S4 : separate h4 (bodies ts)) by (apply separate_store_all, S3).
  destruct (update_rows_full ts pos vel (heap w) Hsep) as [R1p R1v]; [lia|lia|].
  destruct (update_rows_full ts (advance pos ((1 # 2) * dt) vel) k2 h1 S1)
    as [R2p R2v]; [rewrite length_advance; lia|lia|].
  destruct (update_rows_full ts (advance pos ((1 # 2) * dt) k2) k3 h2 S2)
    as [R3p R3v]; [rewrite length_advance; lia|lia|].
  destruct (update_rows_full ts (advance pos dt k3) k4 h3 S3)
    as [R4p R4v]; [rewrite length_advance; lia|lia|].
  fold h1 in R1p, R1v. fold h2 in R2p, R2v. fold h3 in R3p, R3v.
  fold h4 in R4p, R4v.
  eexists _, a1, a2, a3, a4, h1, h2, h3. split.
  - apply (rk4_step_run ts dt fn cfg P V step w pos vel sP sV a1 a2 a3 a4);
      try assumption; lia.
  - cbn [heap evals]. fold h1 k2 h2 k3 h3 k4 h4.
    rewrite R1p, R1v, R2p, R2v, R3p, R3v, R4p, R4v.
    repeat split; try assumption; try reflexivity; apply S4.
Qed.

(** The loop of [rk4] makes four evaluations per step. *)
Lemma rk4_loop_log ts dt fn cfg n :
  returns_rows fn cfg (names ts) ->
  forall m s (P V : array3) w,
    (1 <= s)%nat -> (s + m <= n)%nat ->
    shaped n (length (bodies ts)) P -> shaped n (length (bodies ts)) V ->
    separate (heap w) (bodies ts) ->
    exists w' (P' V' : array3),
      foldM (rk4_step ts dt fn cfg) (seq s m) (P, V) w = (w', Ok (P', V')) /\
      (forall j, (j < s)%nat -> P' !! j = P !! j /\ V' !! j = V !! j) /\
      length (evals w') = (length (evals w) + 4 * m)%nat.
Proof.
  intros Hfn.
  induction m as [|m IH]; intros s P V w Hs Hm HP HV Hsep.
  - exists w, P, V. cbn. split; [reflexivity|]. split; [auto|lia].
  - cbn [seq foldM].
    destruct (shaped_lookup _ _ _ (s - 1) HP) as (p & Hp & Lp); [lia|].
    destruct (shaped_lookup _ _ _ (s - 1) HV) as (v & Hv & Lv); [lia|].
    destruct (rk4_step_log ts dt fn cfg n P V s w p v Hfn Hsep HP HV
                ltac:(lia) Hp Hv)
      as (w1 & a1 & a2 & a3 & a4 & h1 & h2 & h3 & Hrun & Hlog & _ & _ & _ & _ &
          L1 & L2 & L3 & L4 & Hsep1).
    rewrite (bind_Ok _ _ _ _ _ Hrun).
    match type of Hrun with
    | _ = (_, Ok (?P1, ?V1)) =>
        destruct (IH (S s) P1 V1 w1) as (w' & P' & V' & Hloop & Hkeep & Hcount);
        [lia | lia | | | exact Hsep1 |]
    end.
    + apply shaped_insert; [exact HP|].
      rewrite length_advance; [lia|].
      apply length_rk4_mix; rewrite ?length_advance; lia.
    + apply shaped_insert; [exact HV|].
      rewrite length_advance; [lia|]. apply length_rk4_mix; lia.
    + exists w', P', V'. split; [exact Hloop|]. split.
      * intros j Hj. destruct (Hkeep j ltac:(lia)) as [E1 E2].
        rewrite E1, E2. split; apply list_lookup_insert_ne; lia.
      * rewrite Hcount, Hlog, length_app. simpl. lia.
Qed.


Lemma advance_lookup xs c ks i x k :
  xs !! i = Some x -> ks !! i = Some k ->
  advance xs c ks !! i = Some (vadd x (vscale c k)).
Proof.
  unfold advance, smul. revert ks i.
  induction xs as [|x' xs IH]; intros [|k' ks] [|i] Hx Hk; try discriminate.
  - injection Hx as ->. injection Hk as ->. reflexivity.
  - cbn in *. apply IH; assumption.
Qed.

Lemma rk4_mix_lookup k1 k2 k3 k4 i b1 b2 b3 b4 :
  k1 !! i = Some b1 -> k2 !! i = Some b2 -> k3 !! i = Some b3 ->
  k4 !! i = Some b4 ->
  rk4_mix k1 k2 k3 k4 !! i =
  Some (vadd (vadd (vadd b1 (vscale 2 b2)) (vscale 2 b3)) b4).
Proof.
  intros H1 H2 H3 H4. unfold rk4_mix.
  pose proof (advance_lookup k1 2 k2 i b1 b2 H1 H2) as E12.
  pose proof (advance_lookup _ 2 k3 i _ b3 E12 H3) as E123.
  unfold advance in E12, E123.
  rewrite lookup_zip_with, E123, H4. reflexivity.
Qed.

(** The prelude fails without touching the store or calling the
    acceleration function. *)
Lemma prepare_zero_dt state duration dt w :
  dt == 0 -> prepare state duration dt w = (w, Err ZeroDivisionError).
Proof.
  intros H. unfold prepare, n_steps_of.
  apply Qeq_bool_iff in H. rewrite bind_liftR_eq, H. reflexivity.
Qed.

Lemma n_steps_of_nonzero duration dt :
  ~ dt == 0 -> n_steps_of duration dt = Ok (Qceiling (duration / dt)).
Proof.
  intros H. unfold n_steps_of.
  destruct (Qeq_bool dt 0) eqn:E; [|reflexivity].
  apply Qeq_bool_iff in E. contradiction.
Qed.

Lemma prepare_negative state duration dt w :
  ~ dt == 0 -> (Qceiling (duration / dt) < -1)%Z ->
  prepare state duration dt w =
  (w, Err (ValueError "negative dimensions are not allowed")).
Proof.
  intros Hdt Hn. unfold prepare.
  rewrite bind_liftR_eq, (n_steps_of_nonzero _ _ Hdt).
  rewrite bind_liftR_eq. unfold zeros.
  assert ((Qceiling (duration / dt) + 1 <? 0)%Z = true) as ->
    by (apply Z.ltb_lt; lia).
  reflexivity.
Qed.

Lemma prepare_empty state duration dt w :
  ~ dt == 0 -> (-1 <= Qceiling (duration / dt))%Z -> bodies state = [] ->
  prepare state duration dt w =
  (w, Err (ValueError "need at least one array to stack")).
Proof.
  intros Hdt Hn He. unfold prepare.
  rewrite bind_liftR_eq, (n_steps_of_nonzero _ _ Hdt).
  rewrite bind_liftR_eq. unfold zeros.
  assert ((Qceiling (duration / dt) + 1 <? 0)%Z = false) as ->
    by (apply Z.ltb_ge; lia).
  unfold bind at 1, get_positions, positions, position_rows, stack.
  rewrite He. reflexivity.
Qed.

Lemma prepare_no_slot state duration dt w :
  ~ dt == 0 -> Qceiling (duration / dt) = (-1)%Z -> bodies state <> [] ->
  prepare state duration dt w = (w, Err IndexError).
Proof.
  intros Hdt Hn Hne. unfold prepare.
  rewrite bind_liftR_eq, (n_steps_of_nonzero _ _ Hdt).
  rewrite bind_liftR_eq. unfold zeros. rewrite Hn. cbn [Z.add Z.ltb Z.compare Z.to_nat replicate Z.pos_sub].
  unfold bind at 1, get_positions, positions, position_rows, stack.
  destruct (bodies state) as [|b bs]; [contradiction|]. reflexivity.
Qed.


(** *** Motion without acceleration *)

Lemma lookup_map_Some {A B} (f : A -> B) l i y :
  map f l !! i = Some y <-> exists x, l !! i = Some x /\ y = f x.
Proof.
  change (map f l) with (f <$> l). rewrite list_lookup_fmap_Some.
  split; intros (x & H1 & H2); eauto.
Qed.

Ltac split_lookups :=
  repeat match goal with
    | H : zip_with _ _ _ !! _ = Some _ |- _ =>
        apply lookup_zip_with_Some in H as (? & ? & -> & ? & ?)
    | H : map _ _ !! _ = Some _ |- _ =>
        apply lookup_map_Some in H as (? & ? & ->)
    | H : replicate _ _ !! _ = Some _ |- _ =>
        apply lookup_replicate in H as [-> _]
    end.

Ltac same_lookups :=
  repeat match goal with
    | H1 : ?l !! ?i = Some ?x, H2 : ?l !! ?i = Some ?y |- _ =>
        rewrite H1 in H2; injection H2 as <-
    end.

Lemma inject_succ k :
  inject_Z (Z.of_nat (S k)) == inject_Z (Z.of_nat k) + 1.
Proof. rewrite Nat2Z.inj_succ, <- Z.add_1_r, inject_Z_plus. reflexivity. Qed.

Lemma uniform_at_start p0 v0 dt :
  length v0 = length p0 -> uniform_at p0 v0 dt 0 p0 v0.
Proof.
  intros Hl. split.
  - apply Forall_Forall2_diag, List.Forall_forall. intros x _. reflexivity.
  - apply Forall2_same_length_lookup_2; [rewrite length_advance; lia|].
    intros i x y Hx Hy. unfold advance, smul in Hy. split_lookups. same_lookups.
    unfold veq, vadd, vscale. cbn [fst snd]. split; ring.
Qed.

(** Without acceleration a leapfrog step continues a uniform motion. *)
Lemma leapfrog_rows_uniform p0 v0 dt k p v N :
  length p0 = N -> length v0 = N -> length p = N -> length v = N ->
  uniform_at p0 v0 dt k p v ->
  uniform_at p0 v0 dt (S k)
    (zip_with vadd (zip_with vadd p (mulr v dt))
       (mulr (mulr (smul (1 # 2) (replicate N vzero)) dt) dt))
    (zip_with vadd v
       (mulr (smul (1 # 2) (zip_with vadd (replicate N vzero)
                                           (replicate N vzero))) dt)).
Proof.
  intros Lp0 Lv0 Lp Lv [Hv Hp]. split.
  - apply Forall2_same_length_lookup_2.
    + unfold mulr, smul.
      rewrite !length_zip_with, !length_map, !length_zip_with, !length_replicate.
      lia.
    + intros i x y Hx Hy. unfold mulr, smul in Hx. split_lookups.
      destruct (Forall2_lookup_lr _ _ _ _ _ _ Hv ltac:(eassumption) Hy) as [E1 E2].
      unfold veq, vadd, vscale, vscale_r, vzero. cbn [fst snd].
      rewrite E1, E2. split; ring.
  - apply Forall2_same_length_lookup_2.
    + unfold advance, mulr, smul.
      rewrite !length_zip_with, !length_map, !length_replicate. lia.
    + intros i x y Hx Hy. unfold advance, mulr, smul in Hx, Hy. split_lookups.
      same_lookups.
      match goal with
      | Hpi : p !! i = Some ?a, Hp0 : p0 !! i = Some ?b, Hv0 : v0 !! i = Some ?c |- _ =>
          assert (Ep : veq a (vadd b (vscale (inject_Z (Z.of_nat k) * dt) c)))
      end.
      { eapply (Forall2_lookup_lr _ _ _ i _ _ Hp); [eassumption|].
        apply advance_lookup; eassumption. }
      match goal with
      | Hvi : v !! i = Some ?a, Hv0 : v0 !! i = Some ?c |- _ =>
          pose proof (Forall2_lookup_lr _ _ _ i _ _ Hv Hvi Hv0) as Ev
      end.
      destruct Ep as [E1 E2], Ev as [E3 E4].
      unfold veq, vadd, vscale, vscale_r, vzero in *. cbn [fst snd] in *.
      rewrite E1, E2, E3, E4, inject_succ. split; ring.
Qed.

Ltac len_adv :=
  rewrite ?length_replicate; try lia; try (rewrite length_advance; len_adv).

(** Without acceleration an rk4 step continues a uniform motion. *)
Lemma rk4_rows_uniform p0 v0 dt k p v N :
  length p0 = N -> length v0 = N -> length p = N -> length v = N ->
  uniform_at p0 v0 dt k p v ->
  let z := replicate N vzero in
  uniform_at p0 v0 dt (S k)
    (advance p (dt / 6)
       (rk4_mix v (advance v ((1 # 2) * dt) z) (advance v ((1 # 2) * dt) z)
                (advance v dt z)))
    (advance v (dt / 6) (rk4_mix z z z z)).
Proof.
  intros Lp0 Lv0 Lp Lv [Hv Hp] z. subst z. split.
  - apply Forall2_same_length_lookup_2.
    + rewrite length_advance; [lia|].
      apply length_rk4_mix; rewrite length_replicate; lia.
    + intros i x y Hx Hy. unfold advance, rk4_mix, smul in Hx. split_lookups.
      destruct (Forall2_lookup_lr _ _ _ _ _ _ Hv ltac:(eassumption) Hy) as [E1 E2].
      unfold veq, vadd, vscale, vzero. cbn [fst snd].
      rewrite E1, E2. split; field.
  - apply Forall2_same_length_lookup_2.
    + len_adv. apply length_rk4_mix; len_adv.
    + intros i x y Hx Hy. unfold advance, rk4_mix, smul in Hx, Hy.
      split_lookups. same_lookups.
      match goal with
      | Hpi : p !! i = Some ?a, Hp0 : p0 !! i = Some ?b, Hv0 : v0 !! i = Some ?c |- _ =>
          assert (Ep : veq a (vadd b (vscale (inject_Z (Z.of_nat k) * dt) c)))
      end.
      { eapply (Forall2_lookup_lr _ _ _ i _ _ Hp); [eassumption|].
        apply advance_lookup; eassumption. }
      match goal with
      | Hvi : v !! i = Some ?a, Hv0 : v0 !! i = Some ?c |- _ =>
          pose proof (Forall2_lookup_lr _ _ _ i _ _ Hv Hvi Hv0) as Ev
      end.
      destruct Ep as [E1 E2], Ev as [E3 E4].
      unfold veq, vadd, vscale, vzero in *. cbn [fst snd] in *.
      rewrite E1, E2, E3, E4, inject_succ. split; field.
Qed.


Lemma leapfrog_free_loop ts dt cfg n p0 v0 :
  length p0 = length (bodies ts) -> length v0 = length (bodies ts) ->
  forall m s (P V : array3) w,
    (1 <= s)%nat -> (s + m <= n)%nat ->
    shaped n (length (bodies ts)) P -> shaped n (length (bodies ts)) V ->
    (forall j p v, (j < s)%nat -> P !! j = Some p -> V !! j = Some v ->
                   uniform_at p0 v0 dt j p v) ->
    exists w' (P' V' : array3),
      foldM (leapfrog_step ts dt no_acceleration cfg) (seq s m)
            (P, V, replicate (length (bodies ts)) vzero) w
        = (w', Ok (P', V', replicate (length (bodies ts)) vzero)) /\
      shaped n (length (bodies ts)) P' /\
      (forall j p v, (j < s + m)%nat -> P' !! j = Some p -> V' !! j = Some v ->
                     uniform_at p0 v0 dt j p v).
Proof.
  intros Lp0 Lv0.
  induction m as [|m IH]; intros s P V w Hs Hm HP HV Hinv.
  - exists w, P, V. split; [reflexivity|]. split; [exact HP|].
    intros j p v Hj. apply Hinv. lia.
  - cbn [seq foldM].
    destruct (shaped_lookup _ _ _ (s - 1) HP) as (p & Hp & Lp); [lia|].
    destruct (shaped_lookup _ _ _ (s - 1) HV) as (v & Hv & Lv); [lia|].
    destruct (shaped_lookup _ _ _ s HP) as (sP & HsP & LsP); [lia|].
    destruct (shaped_lookup _ _ _ s HV) as (sV & HsV & LsV); [lia|].
    pose proof (leapfrog_step_run ts dt no_acceleration cfg P V
                  (replicate (length (bodies ts)) vzero) s w p v sP sV
                  (replicate (length (bodies ts)) vzero)
                  Hp Hv ltac:(lia) ltac:(rewrite length_replicate; lia)
                  HsP HsV ltac:(lia) ltac:(lia) eq_refl
                  ltac:(rewrite length_replicate; lia)) as Hrun.
    rewrite (bind_Ok _ _ _ _ _ Hrun).
    pose proof (leapfrog_rows_uniform p0 v0 dt (s - 1) p v (length (bodies ts))
                  Lp0 Lv0 Lp Lv (Hinv (s - 1)%nat p v ltac:(lia) Hp Hv)) as HU.
    replace (S (s - 1)) with s in HU by lia.
    match type of Hrun with
    | _ = (?w1, Ok (?P1, ?V1, _)) =>
        destruct (IH (S s) P1 V1 w1) as (w' & P' & V' & Hloop & HP' & Hinv');
        [lia | lia | | | |]
    end.
    + apply shaped_insert; [exact HP|].
      unfold mulr, smul. rewrite !length_zip_with, !length_map,
        !length_replicate. lia.
    + apply shaped_insert; [exact HV|].
      unfold mulr, smul. rewrite !length_zip_with, !length_map,
        !length_zip_with, !length_replicate. lia.
    + intros j p' v' Hj Hp' Hv'.
      destruct (decide (j = s)) as [->|Hne].
      * rewrite list_lookup_insert_eq in Hp' by (destruct HP; lia).
        rewrite list_lookup_insert_eq in Hv' by (destruct HV; lia).
        injection Hp' as <-. injection Hv' as <-. exact HU.
      * rewrite list_lookup_insert_ne in Hp' by lia.
        rewrite list_lookup_insert_ne in Hv' by lia.
        apply (Hinv j); [lia|assumption|assumption].
    + exists w', P', V'. split; [exact Hloop|]. split; [exact HP'|].
      intros j p' v' Hj. apply Hinv'. lia.
Qed.

Lemma rk4_free_loop ts dt cfg n p0 v0 :
  length p0 = length (bodies ts) -> length v0 = length (bodies ts) ->
  forall m s (P V : array3) w,
    (1 <= s)%nat -> (s + m <= n)%nat ->
    shaped n (length (bodies ts)) P -> shaped n (length (bodies ts)) V ->
    (forall j p v, (j < s)%nat -> P !! j = Some p -> V !! j = Some v ->
                   uniform_at p0 v0 dt j p v) ->
    exists w' (P' V' : array3),
      foldM (rk4_step ts dt no_acceleration cfg) (seq s m) (P, V) w
        = (w', Ok (P', V')) /\
      shaped n (length (bodies ts)) P' /\
      (forall j p v, (j < s + m)%nat -> P' !! j = Some p -> V' !! j = Some v ->
                     uniform_at p0 v0 dt j p v).
Proof.
  intros Lp0 Lv0.
  induction m as [|m IH]; intros s P V w Hs Hm HP HV Hinv.
  - exists w, P, V. split; [reflexivity|]. split; [exact HP|].
    intros j p v Hj. apply Hinv. lia.
  - cbn [seq foldM].
    destruct (shaped_lookup _ _ _ (s - 1) HP) as (p & Hp & Lp); [lia|].
    destruct (shaped_lookup _ _ _ (s - 1) HV) as (v & Hv & Lv); [lia|].
    destruct (shaped_lookup _ _ _ s HP) as (sP & HsP & LsP); [lia|].
    destruct (shaped_lookup _ _ _ s HV) as (sV & HsV & LsV); [lia|].
    set (z := replicate (length (bodies ts)) vzero).
    assert (Lz : length z = length p) by (unfold z; rewrite length_replicate; lia).
    pose proof (rk4_step_run ts dt no_acceleration cfg P V s w p v sP sV
                  z z z z Hp Hv ltac:(lia) HsP HsV ltac:(lia) ltac:(lia)
                  eq_refl Lz eq_refl Lz eq_refl Lz eq_refl Lz) as Hrun.
    rewrite (bind_Ok _ _ _ _ _ Hrun).
    pose proof (rk4_rows_uniform p0 v0 dt (s - 1) p v (length (bodies ts))
                  Lp0 Lv0 Lp Lv (Hinv (s - 1)%nat p v ltac:(lia) Hp Hv)) as HU.
    cbv zeta in Hrun, HU. fold z in HU.
    replace (S (s - 1)) with s in HU by lia.
    match type of Hrun with
    | _ = (?w1, Ok (?P1, ?V1)) =>
        destruct (IH (S s) P1 V1 w1) as (w' & P' & V' & Hloop & HP' & Hinv');
        [lia | lia | | | |]
    end.
    + apply shaped_insert; [exact HP|]. len_adv.
      apply length_rk4_mix; len_adv.
    + apply shaped_insert; [exact HV|]. len_adv.
      apply length_rk4_mix; lia.
    + intros j p' v' Hj Hp' Hv'.
      destruct (decide (j = s)) as [->|Hne].
      * rewrite list_lookup_insert_eq in Hp' by (destruct HP; lia).
        rewrite list_lookup_insert_eq in Hv' by (destruct HV; lia).
        injection Hp' as <-. injection Hv' as <-. exact HU.
      * rewrite list_lookup_insert_ne in Hp' by lia.
        rewrite list_lookup_insert_ne in Hv' by lia.
        apply (Hinv j); [lia|assumption|assumption].
    + exists w', P', V'. split; [exact Hloop|]. split; [exact HP'|].
      intros j p' v' Hj. apply Hinv'. lia.
Qed.


(** *** The dispatcher *)

Lemma integrate_known state duration dt method fn cfg :
  lower method = "leapfrog"%string \/ lower method = "verlet"%string \/
  lower method = "rk4"%string ->
  exists integrator,
    (integrator = leapfrog \/ integrator = rk4) /\
    integrate state duration dt method fn cfg =
    (s <- copy state ;; integrator s duration dt fn cfg)%state.
Proof.
  intros H. unfold integrate. rewrite integrators_lookup.
  destruct H as [ -> | [ -> | -> ] ]; cbn.
  - exists leapfrog. split; [left|]; reflexivity.
  - exists leapfrog. split; [left|]; reflexivity.
  - exists rk4. split; [right|]; reflexivity.
Qed.

(** [integrate] with a known method on well-formed input: the shape of
    what it returns and the store it leaves. *)
Lemma integrate_trajectory state duration dt method fn cfg w :
  lower method = "leapfrog"%string \/ lower method = "verlet"%string \/
  lower method = "rk4"%string ->
  ~ dt == 0 -> (0 <= Qceiling (duration / dt))%Z -> bodies state <> [] ->
  returns_rows fn cfg (names state) -> allocated (heap w) state ->
  exists w' (P V : array3),
    integrate state duration dt method fn cfg w = (w', Ok (P, V)) /\
    shaped (Z.to_nat (Qceiling (duration / dt) + 1)) (length (bodies state)) P /\
    shaped (Z.to_nat (Qceiling (duration / dt) + 1)) (length (bodies state)) V /\
    P !! 0%nat = Some (position_rows (heap w) state) /\
    V !! 0%nat = Some (velocity_rows (heap w) state) /\
    take (length (heap w)) (heap w') = heap w.
Proof.
  intros Hm Hdt Hn Hne Hfn Hal.
  destruct (integrate_known state duration dt method fn cfg Hm)
    as (integ & Hinteg & E).
  pose proof (keeps_integrate (length (heap w)) state duration dt method fn cfg
                w ltac:(lia)) as (_ & Hkeep & _).
  rewrite (take_ge (heap w)) in Hkeep by lia.
  rewrite E in *. rewrite (bind_Ok _ _ _ _ _ (copy_run state w)) in *.
  set (s1 := {| bodies := fst (copy_all (bodies state) (heap w)) |}) in *.
  set (w1 := {| heap := snd (copy_all (bodies state) (heap w));
                evals := evals w |}) in *.
  assert (Hnames : names s1 = names state)
    by (rewrite <- (state_eta state); apply copy_all_names).
  assert (HN : length (bodies s1) = length (bodies state)).
  { apply (f_equal (@length string)) in Hnames. unfold names in Hnames.
    rewrite !length_map in Hnames. exact Hnames. }
  destruct (copy_all_rows (bodies state) (heap w)) as [Rp Rv];
    [rewrite state_eta; exact Hal|].
  rewrite state_eta in Rp, Rv. fold s1 in Rp, Rv.
  change (snd (copy_all (bodies state) (heap w))) with (heap w1) in Rp, Rv.
  destruct (trajectory_shape s1 duration dt fn cfg w1 integ Hinteg Hdt Hn)
    as (P & V & Hrun & LP & LV & FP & FV & EP & EV).
  { intros E0. rewrite E0 in HN. destruct (bodies state); [contradiction|discriminate]. }
  { rewrite Hnames. exact Hfn. }
  destruct (integ s1 duration dt fn cfg w1) as [w' r] eqn:Er.
  cbn [snd fst] in *. subst r.
  exists w', P, V. split; [reflexivity|].
  rewrite HN in FP, FV. rewrite Rp in EP. rewrite Rv in EV.
  repeat split; try assumption; lia.
Qed.

End SchemesFacts.

Module SchemesTheorems.
Import Numpy Bodies Physics Integrators Schemes.
Import NumpyFacts BodiesFacts IntegratorsFacts SchemesFacts.

(** X13.  One step of [rk4], on a working state whose arrays are pairwise
    distinct: the acceleration function is called exactly four times, on
    the working state holding in turn [(pos, vel)],
    [(pos + dt/2 * vel, vel + dt/2 * a1)],
    [(pos + dt/2 * k2, vel + dt/2 * a2)] and [(pos + dt * k3, vel + dt * a3)]
    with [k2 = vel + dt/2 * a1], [k3 = vel + dt/2 * a2]; the new snapshot is
    [pos + dt/6 * (vel + 2*k2 + 2*k3 + k4)] and
    [vel + dt/6 * (a1 + 2*a2 + 2*a3 + a4)] with [k4 = vel + dt * a3]. *)
Theorem rk4_step_stages ts dt fn cfg n (P V : array3) step w pos vel :
  returns_rows fn cfg (names ts) -> separate (heap w) (bodies ts) ->
  shaped n (length (bodies ts)) P -> shaped n (length (bodies ts)) V ->
  (1 <= step < n)%nat ->
  P !! (step - 1)%nat = Some pos -> V !! (step - 1)%nat = Some vel ->
  exists w' a1 a2 a3 a4 h1 h2 h3 new_pos new_vel,
    let k2 := advance vel ((1 # 2) * dt) a1 in
    let k3 := advance vel ((1 # 2) * dt) a2 in
    let k4 := advance vel dt a3 in
    rk4_step ts dt fn cfg (P, V) step w =
      (w', Ok (<[step := new_pos]> P, <[step := new_vel]> V)) /\
    evals w' = evals w ++
      [(pos, vel); (advance pos ((1 # 2) * dt) vel, k2);
       (advance pos ((1 # 2) * dt) k2, k3); (advance pos dt k3, k4)] /\
    (position_rows h1 ts = pos /\ velocity_rows h1 ts = vel /\
     fn h1 ts cfg = Ok a1) /\
    (position_rows h2 ts = advance pos ((1 # 2) * dt) vel /\
     velocity_rows h2 ts = k2 /\ fn h2 ts cfg = Ok a2) /\
    (position_rows h3 ts = advance pos ((1 # 2) * dt) k2 /\
     velocity_rows h3 ts = k3 /\ fn h3 ts cfg = Ok a3) /\
    (position_rows (heap w') ts = advance pos dt k3 /\
     velocity_rows (heap w') ts = k4 /\ fn (heap w') ts cfg = Ok a4) /\
    (forall i x v b2 b3 b4,
       pos !! i = Some x -> vel !! i = Some v -> k2 !! i = Some b2 ->
       k3 !! i = Some b3 -> k4 !! i = Some b4 ->
       new_pos !! i = Some (rk4_formula dt x v b2 b3 b4)) /\
    (forall i v b1 b2 b3 b4,
       vel !! i = Some v -> a1 !! i = Some b1 -> a2 !! i = Some b2 ->
       a3 !! i = Some b3 -> a4 !! i = Some b4 ->
       new_vel !! i = Some (rk4_formula dt v b1 b2 b3 b4)).
Proof.
  intros Hfn Hsep HP HV Hstep Hp Hv.
  destruct (rk4_step_log ts dt fn cfg n P V step w pos vel Hfn Hsep HP HV
              Hstep Hp Hv)
    as (w' & a1 & a2 & a3 & a4 & h1 & h2 & h3 & Hrun & Hlog & S1 & S2 & S3 & S4 & _).
  exists w', a1, a2, a3, a4, h1, h2, h3.
  eexists _, _. cbv zeta.
  split; [exact Hrun|]. split; [exact Hlog|].
  split; [exact S1|]. split; [exact S2|]. split; [exact S3|].
  split; [exact S4|]. split.
  - intros i x v b2 b3 b4 Hx Hv' H2 H3 H4. unfold rk4_formula.
    apply advance_lookup; [exact Hx|]. apply rk4_mix_lookup; assumption.
  - intros i v b1 b2 b3 b4 Hv' H1 H2 H3 H4. unfold rk4_formula.
    apply advance_lookup; [exact Hv'|]. apply rk4_mix_lookup; assumption.
Qed.

Lemma rk4_step_stages_witness :
  exists w' a4 new_pos new_vel,
    rk4_step Samples.system_d (1 # 2)
      (compute_accelerations (F := Samples.grid_lib)) None
      (Samples.positions_g, Samples.velocities_g) 1 Samples.world_d =
      (w', Ok (<[1%nat := new_pos]> Samples.positions_g,
               <[1%nat := new_vel]> Samples.velocities_g)) /\
    length (evals w') = 4%nat /\
    compute_accelerations (F := Samples.grid_lib) (heap w') Samples.system_d None
      = Ok a4.
Proof.
  destruct (rk4_step_stages Samples.system_d (1 # 2)
              (compute_accelerations (F := Samples.grid_lib)) None 2
              Samples.positions_g Samples.velocities_g 1 Samples.world_d
              [(0, 0); (1, 0); (1, 0)] [(0, 0); (0, 1); (0, 2)])
    as (w' & a1 & a2 & a3 & a4 & h1 & h2 & h3 & np & nv & Hrun & Hlog & _ & _ & _ &
        (_ & _ & H4) & _).
  - apply compute_accelerations_returns_rows; [discriminate|exact I].
  - split.
    + cbn. repeat (apply NoDup_cons_2;
                     [rewrite ?elem_of_cons, elem_of_nil; lia|]).
      apply NoDup_nil_2.
    + repeat constructor.
  - split; [reflexivity|]. repeat constructor.
  - split; [reflexivity|]. repeat constructor.
  - lia.
  - reflexivity.
  - reflexivity.
  - exists w', a4, np, nv. split; [exact Hrun|].
    split; [rewrite Hlog; reflexivity|exact H4].
Defined.

(** X14.  A run of [leapfrog] over [n = ceil(duration/dt)] steps calls
    the acceleration function exactly [n + 1] times: once on the initial
    condition and once per step [k], on the positions of snapshot [k]
    together with the velocities of snapshot [k - 1]. *)
Theorem leapfrog_evaluation_count state duration dt fn cfg w :
  ~ dt == 0 -> (0 <= Qceiling (duration / dt))%Z -> bodies state <> [] ->
  returns_rows fn cfg (names state) -> allocated (heap w) state ->
  exists w' (P V : array3) log,
    leapfrog state duration dt fn cfg w = (w', Ok (P, V)) /\
    evals w' = evals w ++ log /\
    Z.of_nat (length log) = (Qceiling (duration / dt) + 1)%Z /\
    log !! 0%nat =
      Some (position_rows (heap w) state, velocity_rows (heap w) state) /\
    forall k, (1 <= k)%nat -> (Z.of_nat k <= Qceiling (duration / dt))%Z ->
      log !! k = Some (nth k P [], nth (k - 1) V []).
Proof.
  intros Hdt Hn Hne Hfn Hal.
  destruct (leapfrog_evaluations state duration dt fn cfg w Hdt Hn Hne Hfn Hal)
    as (w' & P & V & Hrun & _ & _ & Hlog).
  exists w', P, V. eexists. split; [exact Hrun|]. split; [exact Hlog|].
  split; [|split; [reflexivity|]].
  - cbn [length]. rewrite length_map, length_seq. lia.
  - intros k H1 Hk. destruct k as [|k]; [lia|]. cbn [lookup list_lookup].
    change (map ?f ?l !! k) with ((f <$> l) !! k).
    rewrite list_lookup_fmap, lookup_seq_lt by lia. reflexivity.
Qed.

Lemma leapfrog_evaluation_count_witness :
  exists w' (P V : array3) log,
    leapfrog Samples.system_d 1 (1 # 2)
      (compute_accelerations (F := Samples.grid_lib))
      (Some Samples.precession_on) Samples.world_d = (w', Ok (P, V)) /\
    evals w' = evals Samples.world_d ++ log /\
    Z.of_nat (length log) = 3%Z.
Proof.
  destruct (leapfrog_evaluation_count Samples.system_d 1 (1 # 2)
              (compute_accelerations (F := Samples.grid_lib))
              (Some Samples.precession_on) Samples.world_d)
    as (w' & P & V & log & Hrun & Hlog & Hlen & _).
  - vm_compute. discriminate.
  - vm_compute. discriminate.
  - discriminate.
  - apply compute_accelerations_returns_rows; [discriminate|].
    apply precession_ready_present; cbn; tauto.
  - repeat constructor.
  - exists w', P, V, log. split; [exact Hrun|]. split; [exact Hlog|exact Hlen].
Defined.

(** X15.  A run of [rk4] over [n = ceil(duration/dt)] steps calls the
    acceleration function exactly [4 * n] times. *)
Theorem rk4_evaluation_count state duration dt fn cfg w :
  ~ dt == 0 -> (0 <= Qceiling (duration / dt))%Z -> bodies state <> [] ->
  returns_rows fn cfg (names state) ->
  exists w' (P V : array3),
    rk4 state duration dt fn cfg w = (w', Ok (P, V)) /\
    Z.of_nat (length (evals w')) =
      (Z.of_nat (length (evals w)) + 4 * Qceiling (duration / dt))%Z.
Proof.
  intros Hdt Hn Hne Hfn.
  destruct (prepare_run state duration dt w Hdt Hn Hne)
    as (P0 & V0 & Hpre & Hts & HP0 & HV0 & _ & _).
  set (ts := {| bodies := fst (copy_all (bodies state) (heap w)) |}) in *.
  set (n := Qceiling (duration / dt)) in *.
  assert (HN : length (bodies ts) = length (bodies state)).
  { apply (f_equal (@length string)) in Hts. unfold names in Hts.
    rewrite !length_map in Hts. exact Hts. }
  rewrite <- Hts in Hfn. rewrite <- HN in HP0, HV0.
  destruct (rk4_loop_log ts dt fn cfg (Z.to_nat (n + 1)) Hfn (Z.to_nat n) 1
              P0 V0
              {| heap := snd (copy_all (bodies state) (heap w));
                 evals := evals w |})
    as (w' & P & V & Hloop & _ & Hcount);
    [lia | lia | exact HP0 | exact HV0 | apply copy_all_separate |].
  exists w', P, V. split.
  - unfold rk4. rewrite (bind_Ok _ _ _ _ _ Hpre). cbn [fst snd]. exact Hloop.
  - rewrite Hcount. cbn [evals]. lia.
Qed.

Lemma rk4_evaluation_count_witness :
  exists w' (P V : array3),
    rk4 Samples.system_d 1 (1 # 2)
      (compute_accelerations (F := Samples.grid_lib))
      (Some Samples.precession_on) Samples.world_d = (w', Ok (P, V)) /\
    Z.of_nat (length (evals w')) = 8%Z.
Proof.
  destruct (rk4_evaluation_count Samples.system_d 1 (1 # 2)
              (compute_accelerations (F := Samples.grid_lib))
              (Some Samples.precession_on) Samples.world_d)
    as (w' & P & V & Hrun & Hcount).
  - vm_compute. discriminate.
  - vm_compute. discriminate.
  - discriminate.
  - apply compute_accelerations_returns_rows; [discriminate|].
    apply precession_ready_present; cbn; tauto.
  - exists w', P, V. split; [exact Hrun|exact Hcount].
Defined.

(** X16.  [leapfrog] and [rk4] validate nothing themselves, and fail in
    their first lines, before the state is copied and before the
    acceleration function is called: for [dt = 0] with [ZeroDivisionError];
    for [ceil(duration/dt) < -1] with the [ValueError] of [np.zeros]; for a
    state without bodies (and [ceil(duration/dt) >= -1]) with the
    [ValueError] of [np.stack]; and for [ceil(duration/dt) = -1] with
    [IndexError], there being no snapshot 0 to assign. *)
Theorem integrators_reject_bad_steps state duration dt fn cfg w :
  (dt == 0 ->
   leapfrog state duration dt fn cfg w = (w, Err ZeroDivisionError) /\
   rk4 state duration dt fn cfg w = (w, Err ZeroDivisionError)) /\
  (~ dt == 0 -> (Qceiling (duration / dt) < -1)%Z ->
   leapfrog state duration dt fn cfg w =
     (w, Err (ValueError "negative dimensions are not allowed")) /\
   rk4 state duration dt fn cfg w =
     (w, Err (ValueError "negative dimensions are not allowed"))) /\
  (~ dt == 0 -> (-1 <= Qceiling (duration / dt))%Z -> bodies state = [] ->
   leapfrog state duration dt fn cfg w =
     (w, Err (ValueError "need at least one array to stack")) /\
   rk4 state duration dt fn cfg w =
     (w, Err (ValueError "need at least one array to stack"))) /\
  (~ dt == 0 -> Qceiling (duration / dt) = (-1)%Z -> bodies state <> [] ->
   leapfrog state duration dt fn cfg w = (w, Err IndexError) /\
   rk4 state duration dt fn cfg w = (w, Err IndexError)).
Proof.
  assert (Hfail : forall e, prepare state duration dt w = (w, Err e) ->
            leapfrog state duration dt fn cfg w = (w, Err e) /\
            rk4 state duration dt fn cfg w = (w, Err e)).
  { intros e He. unfold leapfrog, rk4, bind. rewrite He. split; reflexivity. }
  split; [|split; [|split]].
  - intros H. apply Hfail, prepare_zero_dt, H.
  - intros H1 H2. apply Hfail, prepare_negative; assumption.
  - intros H1 H2 H3. apply Hfail, prepare_empty; assumption.
  - intros H1 H2 H3. apply Hfail, prepare_no_slot; assumption.
Qed.

(** X17.  Zero steps ([ceil(duration/dt) = 0], as for [duration = 0]):
    both integrators return the initial condition as the only snapshot.
    [rk4] does so without calling the acceleration function; [leapfrog]
    calls it once, on the copy of the initial state, and raises what that
    call raises. *)
Theorem zero_steps state duration dt fn cfg w :
  ~ dt == 0 -> Qceiling (duration / dt) = 0%Z -> bodies state <> [] ->
  allocated (heap w) state ->
  exists w1 ts,
    copy state w = (w1, Ok ts) /\
    rk4 state duration dt fn cfg w =
      (w1, Ok ([position_rows (heap w) state], [velocity_rows (heap w) state])) /\
    evals w1 = evals w /\
    leapfrog state duration dt fn cfg w =
      ({| heap := heap w1;
          evals := evals w ++ [(position_rows (heap w) state,
                                velocity_rows (heap w) state)] |},
       match fn (heap w1) ts cfg with
       | Ok _ => Ok ([position_rows (heap w) state],
                     [velocity_rows (heap w) state])
       | Err e => Err e
       end).
Proof.
  intros Hdt Hn Hne Hal.
  destruct (prepare_run state duration dt w Hdt ltac:(lia) Hne)
    as (P0 & V0 & Hpre & _ & HP0 & HV0 & EP & EV).
  rewrite Hn in *. cbn [Z.add Z.to_nat Pos.to_nat Pos.iter_op Nat.add] in HP0, HV0.
  assert (HPs : P0 = [position_rows (heap w) state]).
  { destruct HP0 as [L _]. destruct P0 as [|x [|y P0]]; try discriminate.
    cbn in EP. congruence. }
  assert (HVs : V0 = [velocity_rows (heap w) state]).
  { destruct HV0 as [L _]. destruct V0 as [|x [|y V0]]; try discriminate.
    cbn in EV. congruence. }
  subst P0 V0.
  destruct (copy_all_rows (bodies state) (heap w)) as [Rp Rv];
    [rewrite state_eta; exact Hal|].
  rewrite state_eta in Rp, Rv.
  eexists _, _. split; [apply copy_run|].
  split; [|split; [reflexivity|]].
  - unfold rk4. rewrite (bind_Ok _ _ _ _ _ Hpre). reflexivity.
  - unfold leapfrog. rewrite (bind_Ok _ _ _ _ _ Hpre). cbn [fst snd].
    unfold bind at 1, evaluate. cbn [heap evals]. rewrite Rp, Rv.
    destruct (fn _ _ cfg); reflexivity.
Qed.

Lemma zero_steps_witness :
  exists w1,
    rk4 Samples.system_d 0 (1 # 2)
      (compute_accelerations (F := Samples.grid_lib)) None Samples.world_d =
    (w1, Ok ([[(0, 0); (1, 0); (1, 0)]], [[(0, 0); (0, 1); (0, 2)]])) /\
    evals w1 = [].
Proof.
  destruct (zero_steps Samples.system_d 0 (1 # 2)
              (compute_accelerations (F := Samples.grid_lib)) None
              Samples.world_d) as (w1 & ts & _ & Hrk & He & _).
  - vm_compute. discriminate.
  - reflexivity.
  - discriminate.
  - repeat constructor.
  - exists w1. split; [exact Hrk|exact He].
Defined.


(** X18.  Both integrators are exact on free motion: with an acceleration
    function that returns zero for every body, every snapshot [k] of the
    trajectory has the initial velocities and the positions
    [p0 + (k * dt) * v0] (in exact arithmetic). *)
Theorem free_motion_is_uniform state duration dt cfg w :
  ~ dt == 0 -> (0 <= Qceiling (duration / dt))%Z -> bodies state <> [] ->
  (exists w' (P V : array3),
     leapfrog state duration dt no_acceleration cfg w = (w', Ok (P, V)) /\
     Z.of_nat (length P) = (Qceiling (duration / dt) + 1)%Z /\
     forall k p v, P !! k = Some p -> V !! k = Some v ->
       uniform_at (position_rows (heap w) state) (velocity_rows (heap w) state)
                  dt k p v) /\
  (exists w' (P V : array3),
     rk4 state duration dt no_acceleration cfg w = (w', Ok (P, V)) /\
     Z.of_nat (length P) = (Qceiling (duration / dt) + 1)%Z /\
     forall k p v, P !! k = Some p -> V !! k = Some v ->
       uniform_at (position_rows (heap w) state) (velocity_rows (heap w) state)
                  dt k p v).
Proof.
  intros Hdt Hn Hne.
  destruct (prepare_run state duration dt w Hdt Hn Hne)
    as (P0 & V0 & Hpre & Hts & HP0 & HV0 & EP & EV).
  set (ts := {| bodies := fst (copy_all (bodies state) (heap w)) |}) in *.
  set (n := Qceiling (duration / dt)) in *.
  set (p0 := position_rows (heap w) state) in *.
  set (v0 := velocity_rows (heap w) state) in *.
  assert (HN : length (bodies ts) = length (bodies state)).
  { apply (f_equal (@length string)) in Hts. unfold names in Hts.
    rewrite !length_map in Hts. exact Hts. }
  rewrite <- HN in HP0, HV0.
  assert (Lp0 : length p0 = length (bodies ts))
    by (unfold p0, position_rows; rewrite length_map; lia).
  assert (Lv0 : length v0 = length (bodies ts))
    by (unfold v0, velocity_rows; rewrite length_map; lia).
  assert (Hstart : forall j p v, (j < 1)%nat -> P0 !! j = Some p ->
             V0 !! j = Some v -> uniform_at p0 v0 dt j p v).
  { intros j p v Hj Hp Hv. assert (j = 0%nat) as -> by lia.
    rewrite EP in Hp. rewrite EV in Hv. injection Hp as <-. injection Hv as <-.
    apply uniform_at_start. lia. }
  split.
  - destruct (leapfrog_free_loop ts dt cfg (Z.to_nat (n + 1)) p0 v0 Lp0 Lv0
                (Z.to_nat n) 1 P0 V0
                {| heap := snd (copy_all (bodies state) (heap w));
                   evals := evals w ++
                     [(position_rows (snd (copy_all (bodies state) (heap w))) ts,
                       velocity_rows (snd (copy_all (bodies state) (heap w))) ts)] |})
      as (w' & P & V & Hloop & [LP _] & Hinv);
      [lia|lia|exact HP0|exact HV0|exact Hstart|].
    exists w', P, V. split; [|split; [lia|]].
    + unfold leapfrog. rewrite (bind_Ok _ _ _ _ _ Hpre). cbn [fst snd].
      unfold bind at 1, evaluate, no_acceleration. cbn [heap evals].
      unfold bind at 1. fold no_acceleration. rewrite Hloop. reflexivity.
    + intros k p v Hp Hv. apply Hinv; [|exact Hp|exact Hv].
      apply lookup_lt_Some in Hp. lia.
  - destruct (rk4_free_loop ts dt cfg (Z.to_nat (n + 1)) p0 v0 Lp0 Lv0
                (Z.to_nat n) 1 P0 V0
                {| heap := snd (copy_all (bodies state) (heap w));
                   evals := evals w |})
      as (w' & P & V & Hloop & [LP _] & Hinv);
      [lia|lia|exact HP0|exact HV0|exact Hstart|].
    exists w', P, V. split; [|split; [lia|]].
    + unfold rk4. rewrite (bind_Ok _ _ _ _ _ Hpre). cbn [fst snd]. exact Hloop.
    + intros k p v Hp Hv. apply Hinv; [|exact Hp|exact Hv].
      apply lookup_lt_Some in Hp. lia.
Qed.

Lemma free_motion_is_uniform_witness :
  exists w' (P V : array3),
    rk4 Samples.system_d 1 (1 # 2) no_acceleration None Samples.world_d
      = (w', Ok (P, V)) /\
    Z.of_nat (length P) = 3%Z /\
    forall k p v, P !! k = Some p -> V !! k = Some v ->
      uniform_at [(0, 0); (1, 0); (1, 0)] [(0, 0); (0, 1); (0, 2)] (1 # 2) k p v.
Proof.
  apply (free_motion_is_uniform Samples.system_d 1 (1 # 2) None Samples.world_d).
  - vm_compute. discriminate.
  - vm_compute. discriminate.
  - discriminate.
Defined.


(** X24.  [integrate] with a method name that lower-cases to "leapfrog",
    "verlet" or "rk4", a step size other than 0, a step count
    [n = ceil(duration/dt) >= 0], at least one body and an acceleration
    function that returns one row per body: it returns position and
    velocity arrays of [n + 1] snapshots with one row per body, whose
    snapshot 0 holds the positions and velocities of the state it was
    given (although it integrates a copy), and it leaves the store it
    found as it was. *)
Theorem integrate_returns_trajectory state duration dt method fn cfg w :
  lower method = "leapfrog"%string \/ lower method = "verlet"%string \/
  lower method = "rk4"%string ->
  ~ dt == 0 -> (0 <= Qceiling (duration / dt))%Z -> bodies state <> [] ->
  returns_rows fn cfg (names state) -> allocated (heap w) state ->
  exists w' (P V : array3),
    integrate state duration dt method fn cfg w = (w', Ok (P, V)) /\
    shaped (Z.to_nat (Qceiling (duration / dt) + 1)) (length (bodies state)) P /\
    shaped (Z.to_nat (Qceiling (duration / dt) + 1)) (length (bodies state)) V /\
    P !! 0%nat = Some (position_rows (heap w) state) /\
    V !! 0%nat = Some (velocity_rows (heap w) state) /\
    take (length (heap w)) (heap w') = heap w.
Proof. apply integrate_trajectory. Qed.

Lemma integrate_returns_trajectory_witness :
  exists w' (P V : array3),
    integrate Samples.system_d 1 (1 # 2) "RK4"
      (compute_accelerations (F := Samples.grid_lib))
      (Some Samples.precession_on) Samples.world_d = (w', Ok (P, V)) /\
    shaped 3 3 P /\ shaped 3 3 V /\
    P !! 0%nat = Some [(0, 0); (1, 0); (1, 0)] /\
    V !! 0%nat = Some [(0, 0); (0, 1); (0, 2)] /\
    take 6 (heap w') = Samples.heap_d.
Proof.
  apply (integrate_returns_trajectory Samples.system_d 1 (1 # 2) "RK4"
           (compute_accelerations (F := Samples.grid_lib))
           (Some Samples.precession_on) Samples.world_d).
  - right. right. reflexivity.
  - vm_compute. discriminate.
  - vm_compute. discriminate.
  - discriminate.
  - apply compute_accelerations_returns_rows; [discriminate|].
    apply precession_ready_present; cbn; tauto.
  - repeat constructor.
Defined.

End SchemesTheorems.

(** ** The scenario and the run *)

Module ScenariosFacts.
Import Numpy Bodies Constants Physics Scenarios.
Import NumpyFacts BodiesFacts.

Lemma read_app_at (h l : list vec) k : read (h ++ l) (length h + k) = read l k.
Proof. unfold read. rewrite lookup_app_r by lia. do 2 f_equal. lia. Qed.

Lemma insert_app_at (h l : list vec) k v :
  <[(length h + k)%nat := v]> (h ++ l) = h ++ <[k := v]> l.
Proof. rewrite insert_app_r. reflexivity. Qed.

(** The bodies of the scenario, with their arrays at [n .. n + 5]. *)
Lemma create_red_dwarf_system_run `{S : SqrtLib} w :
  exists vp vm b,
    b = vdiv (vadd (vadd (vscale (star_mass CONSTANTS) (0, 0))
                         (vscale (planet_mass CONSTANTS) (0, vp)))
                   (vscale (moon_mass CONSTANTS) (vadd (0, vp) (0, vm))))
             (star_mass CONSTANTS + planet_mass CONSTANTS + moon_mass CONSTANTS) /\
    create_red_dwarf_system w =
    ({| heap := heap w ++
          [(0, 0); vsub (0, 0) b;
           (12 # 10, 0); vsub (0, vp) b;
           vadd (12 # 10, 0) (18 # 100, 0); vsub (vadd (0, vp) (0, vm)) b];
        evals := evals w |},
     Ok {| state :=
             {| bodies :=
                  [{| name := "Star"; mass := star_mass CONSTANTS;
                      position := length (heap w);
                      velocity := (length (heap w) + 1)%nat;
                      color := "orange" |};
                   {| name := "Planet"; mass := planet_mass CONSTANTS;
                      position := (length (heap w) + 2)%nat;
                      velocity := (length (heap w) + 3)%nat;
                      color := "#4080ff" |};
                   {| name := "Moon"; mass := moon_mass CONSTANTS;
                      position := (length (heap w) + 4)%nat;
                      velocity := (length (heap w) + 5)%nat;
                      color := "#dddddd" |}] |};
           precession_config :=
             {[ "moon_precession_strength"%string := 4 # 10000 ]} |}).
Proof.
  destruct w as [h ev]. eexists _, _, _. split; [reflexivity|].
  unfold create_red_dwarf_system.
  cbv beta iota zeta delta [bind alloc load store ret foldM recentre heap evals
                             position velocity mass name].
  rewrite <- !app_assoc. cbn [app].
  rewrite !length_app. cbn [length].
  repeat (rewrite ?insert_app_at, ?read_app_at;
          cbn [read lookup list_lookup default from_option insert list_insert
               Nat.add id]).
  reflexivity.
Qed.

Lemma NoDup_six (n : nat) :
  NoDup [n; (n + 1)%nat; (n + 2)%nat; (n + 3)%nat; (n + 4)%nat; (n + 5)%nat].
Proof.
  repeat (apply NoDup_cons_2; [rewrite ?elem_of_cons, elem_of_nil; lia|]).
  apply NoDup_nil_2.
Qed.

End ScenariosFacts.

Module ScenariosTheorems.
Import Numpy Bodies Constants Physics Scenarios.
Import NumpyFacts BodiesFacts ScenariosFacts.

(** X19.  [create_red_dwarf_system] builds the bodies Star, Planet and
    Moon, in this order, on six new and pairwise distinct arrays (the store
    it finds is left as it is), with the star at the origin, the planet at
    (1.2, 0) and the moon at (1.2 + 0.18, 0), and it subtracts the
    barycentre velocity in place: the total momentum [sum_i m_i * v_i] of
    the state is exactly zero, whatever [np.sqrt] returns for the two
    speeds.  The precession strength it configures is 4e-4. *)
Theorem red_dwarf_system_is_barycentric `{S : SqrtLib} w :
  exists w' sc,
    create_red_dwarf_system w = (w', Ok sc) /\
    take (length (heap w)) (heap w') = heap w /\ evals w' = evals w /\
    names (state sc) = ["Star"; "Planet"; "Moon"]%string /\
    masses (state sc) = [1; 25 # 10000; 3 # 100000] /\
    separate (heap w') (bodies (state sc)) /\
    fresh (length (heap w)) (bodies (state sc)) /\
    position_rows (heap w') (state sc) =
      [(0, 0); (12 # 10, 0); vadd (12 # 10, 0) (18 # 100, 0)] /\
    veq (total_momentum (heap w') (state sc)) vzero /\
    precession_config sc !! "moon_precession_strength"%string = Some (4 # 10000).
Proof.
  destruct (create_red_dwarf_system_run w) as (vp & vm & b & Hb & Hrun).
  eexists _, _. split; [exact Hrun|]. cbn [heap evals state bodies].
  split; [apply take_app_length|]. split; [reflexivity|].
  split; [reflexivity|]. split; [reflexivity|]. split; [|split; [|split; [|split]]].
  - split.
    + cbn [locs position velocity].
      replace (length (heap w)) with (length (heap w) + 0)%nat at 1 by lia.
      rewrite Nat.add_0_r. apply NoDup_six.
    + cbn [locs position velocity]. rewrite length_app. cbn [length].
      repeat constructor; lia.
  - repeat constructor; cbn [position velocity]; lia.
  - unfold position_rows. cbn [bodies map position].
    replace (length (heap w)) with (length (heap w) + 0)%nat at 1 by lia.
    rewrite !read_app_at. reflexivity.
  - unfold total_momentum, velocity_rows, masses.
    cbn [bodies map velocity mass]. rewrite !read_app_at.
    cbn [read lookup list_lookup default from_option id zip_with].
    subst b. unfold sum_rows, veq, vzero, vadd, vsub, vscale, vdiv, CONSTANTS.
    cbn [fold_left fst snd star_mass planet_mass moon_mass]. split; field.
  - apply lookup_singleton_eq.
Qed.

End ScenariosTheorems.

(** ** The simulation run *)

Module RunSimulationFacts.
Import Numpy Events Bodies Constants Physics Integrators Scenarios.
Import Detection RunSimulation.
Import NumpyFacts EventsFacts PhysicsFacts BodiesFacts IntegratorsFacts.
Import DetectionFacts ScenariosFacts.

(** *** The time axis *)

Lemma length_linspace start stop num : length (linspace start stop num) = num.
Proof.
  destruct num as [|[|num]]; try reflexivity.
  unfold linspace. rewrite length_insert, length_map, length_seq. reflexivity.
Qed.

Lemma nth_map_seq (f : nat -> Q) n i :
  (i < n)%nat -> nth i (map f (seq 0 n)) 0 = f i.
Proof.
  intros Hi. rewrite (nth_indep _ 0 (f 0%nat)) by (rewrite length_map, length_seq; lia).
  rewrite map_nth, seq_nth by lia. reflexivity.
Qed.

Lemma inject_nat_pos n : (0 < n)%nat -> ~ inject_Z (Z.of_nat n) == 0.
Proof.
  intros Hn H. unfold Qeq in H. simpl in H. lia.
Qed.

(** The time axis of [main]: sample [i] is at [i * dt]. *)
Lemma linspace_steps dt num i :
  (i < num)%nat ->
  nth i (linspace 0 (dt * inject_Z (Z.of_nat (num - 1))) num) 0
  == inject_Z (Z.of_nat i) * dt.
Proof.
  intros Hi. destruct num as [|[|num]]; [lia| |].
  - assert (i = 0%nat) as -> by lia. cbn. ring.
  - unfold linspace.
    set (m := (S (S num) - 1)%nat).
    assert (Hm : ~ inject_Z (Z.of_nat m) == 0)
      by (apply inject_nat_pos; subst m; lia).
    destruct (decide (i = m)) as [->|Hne].
    + rewrite (nth_lookup_Some _ _ 0 (dt * inject_Z (Z.of_nat m))); [ring|].
      apply list_lookup_insert_eq.
      rewrite length_map, length_seq. subst m. lia.
    + rewrite nth_lookup, list_lookup_insert_ne, <- nth_lookup by congruence.
      rewrite nth_map_seq by lia. field. exact Hm.
Qed.

Lemma increasingb_of_nth l :
  (forall i, (i + 1 < length l)%nat -> nth i l 0 < nth (i + 1) l 0) ->
  increasingb l = true.
Proof.
  induction l as [|a [|b l] IH]; intros H; try reflexivity.
  cbn [increasingb]. apply andb_true_iff. split.
  - apply Qltb_lt. apply (H 0%nat). simpl. lia.
  - apply IH. intros i Hi. apply (H (S i)). simpl in *. lia.
Qed.

Lemma linspace_increasing dt num :
  0 < dt ->
  increasingb (linspace 0 (dt * inject_Z (Z.of_nat (num - 1))) num) = true.
Proof.
  intros Hdt. apply increasingb_of_nth. intros i Hi.
  rewrite length_linspace in Hi.
  rewrite !linspace_steps by lia.
  apply Qmult_lt_compat_r; [exact Hdt|].
  rewrite <- Zlt_Qlt. lia.
Qed.

(** *** Energy *)

Section WithFloatLib.
Context {F : FloatLib}.

Ltac name_sums :=
  repeat match goal with
         | |- context [sum_over ?l ?f] => generalize (sum_over l f); intro
         end.

Lemma compute_total_energy_ok (ps vs : list vec) (ms : list Q) :
  length ps = length ms -> length vs = length ms ->
  exists kinetic potential,
    compute_total_energy ps vs ms = Ok (kinetic, potential) /\
    kinetic == kinetic_energy ms vs /\
    potential == potential_energy ps ms.
Proof.
  intros Hp Hv. unfold compute_total_energy.
  rewrite broadcast2_same_length by (symmetry; exact Hv). cbn [bindR].
  destruct (potential_outer_sum ps ms Hp (length ms) 0%nat 0 ltac:(lia))
    as (u & Hu & Eu).
  rewrite Hu. cbn [bindR]. eexists _, u. split; [reflexivity|]. split.
  - unfold kinetic_energy. rewrite kinetic_rows. reflexivity.
  - rewrite Eu. unfold potential_energy. cbv zeta.
    rewrite (sum_over_ext (seq 0 (length ms))
               (fun i => sum_over (seq 0 (length ms)) (fun j =>
                  if Nat.ltb i j then pair_potential ps ms i j else 0))
               (fun i => sum_over (seq (i + 1) (length ms - (i + 1)))
                                  (pair_potential ps ms i))).
    + name_sums. ring.
    + intros i Hi. apply in_seq in Hi. apply sum_over_above. lia.
Qed.

Lemma mapR_ok {A B} (f : A -> result B) (P : A -> B -> Prop) l :
  (forall x, In x l -> exists y, f x = Ok y /\ P x y) ->
  exists ys, mapR f l = Ok ys /\ Forall2 P l ys.
Proof.
  induction l as [|x l IH]; intros H.
  - exists []. split; [reflexivity|constructor].
  - destruct (H x (or_introl eq_refl)) as (y & Hy & Py).
    destruct IH as (ys & Hys & Pys); [intros z Hz; apply H; right; exact Hz|].
    exists (y :: ys). cbn [mapR]. rewrite Hy. cbn [bindR]. rewrite Hys.
    split; [reflexivity|constructor; assumption].
Qed.

Lemma mapR_err {A B} (f : A -> result B) l1 x l2 e :
  (forall z, In z l1 -> exists y, f z = Ok y) -> f x = Err e ->
  mapR f (l1 ++ x :: l2) = Err e.
Proof.
  induction l1 as [|z l1 IH]; intros H He.
  - cbn [app mapR]. rewrite He. reflexivity.
  - cbn [app mapR]. destruct (H z (or_introl eq_refl)) as (y & ->). cbn [bindR].
    rewrite IH; [reflexivity| |exact He]. intros z' Hz'. apply H. right. exact Hz'.
Qed.

End WithFloatLib.

(** *** Tracks *)

Lemma body_track_ok (arr : list (list vec)) k N :
  Forall (fun snapshot => length snapshot = N) arr -> (k < N)%nat ->
  exists track, body_track arr k = Ok track /\ length track = length arr /\
    forall i snapshot, arr !! i = Some snapshot ->
      track !! i = Some (nth k snapshot vzero).
Proof.
  intros Hall Hk. unfold body_track.
  induction Hall as [|s arr Hs Hall IH].
  - exists []. split; [reflexivity|]. split; [reflexivity|]. intros i s. discriminate.
  - destruct IH as (track & Ht & Hl & Hi).
    exists (nth k s vzero :: track). cbn [mapR].
    rewrite (index_nth s k vzero) by lia. cbn [bindR]. rewrite Ht.
    split; [reflexivity|]. split; [cbn; lia|].
    intros [|i] s'; cbn; [intros [= <-]; reflexivity|apply Hi].
Qed.


(** *** The energy profile *)

Lemma energy_at_ok `{F : FloatLib} (P V : list (list vec)) masses T N i :
  shaped T N P -> shaped T N V -> length masses = N -> (i < T)%nat ->
  exists p v e,
    P !! i = Some p /\ V !! i = Some v /\
    energy_at P V masses i = Ok e /\
    e == kinetic_energy masses v + potential_energy p masses.
Proof.
  intros HP HV Hm Hi.
  destruct (shaped_lookup _ _ _ i HP Hi) as (p & Hp & Lp).
  destruct (shaped_lookup _ _ _ i HV Hi) as (v & Hv & Lv).
  destruct (compute_total_energy_ok p v masses) as (k & u & Hku & Ek & Eu);
    [lia|lia|].
  exists p, v, (k + u). split; [exact Hp|]. split; [exact Hv|].
  unfold energy_at. rewrite (index_lookup _ _ _ Hp), (index_lookup _ _ _ Hv).
  cbn [bindR]. rewrite Hku. cbn [bindR fst snd].
  split; [reflexivity|]. rewrite Ek, Eu. reflexivity.
Qed.

Lemma energy_profile_ok `{F : FloatLib} (P V : list (list vec)) masses T N :
  shaped T N P -> shaped T N V -> length masses = N ->
  exists energy,
    compute_energy_profile P V masses = Ok energy /\
    length energy = T /\
    forall i p v, P !! i = Some p -> V !! i = Some v ->
      exists e, energy !! i = Some e /\
                e == kinetic_energy masses v + potential_energy p masses.
Proof.
  intros HP HV Hm. unfold compute_energy_profile.
  assert (LP : length P = T) by apply HP. rewrite LP.
  destruct (mapR_ok (energy_at P V masses)
              (fun i e => forall p v, P !! i = Some p -> V !! i = Some v ->
                 e == kinetic_energy masses v + potential_energy p masses)
              (seq 0 T)) as (energy & He & Hall).
  { intros i Hi. apply in_seq in Hi.
    destruct (energy_at_ok P V masses T N i HP HV Hm ltac:(lia))
      as (p & v & e & Hp & Hv & Hrun & Ee).
    exists e. split; [exact Hrun|]. intros p' v' Hp' Hv'.
    rewrite Hp in Hp'. rewrite Hv in Hv'.
    injection Hp' as <-. injection Hv' as <-. exact Ee. }
  exists energy. split; [exact He|].
  pose proof (Forall2_length _ _ _ Hall) as Hl. rewrite length_seq in Hl.
  split; [lia|]. intros i p v Hp Hv.
  assert (Hi : (i < T)%nat) by (apply lookup_lt_Some in Hp; lia).
  destruct (Forall2_lookup_l _ _ _ i i Hall) as (e & He' & Pe).
  { apply lookup_seq_lt. exact Hi. }
  exists e. split; [exact He'|]. apply Pe; assumption.
Qed.

Lemma energy_profile_short `{F : FloatLib} (P V : list (list vec)) masses T T' N :
  shaped T N P -> shaped T' N V -> length masses = N -> (T' < T)%nat ->
  compute_energy_profile P V masses = Err IndexError.
Proof.
  intros HP HV Hm Hlt. unfold compute_energy_profile.
  assert (LP : length P = T) by apply HP. rewrite LP.
  replace T with (T' + S (T - S T'))%nat by lia.
  rewrite seq_app. cbn [seq Nat.add]. apply mapR_err.
  - intros i Hi. apply in_seq in Hi.
    destruct (shaped_lookup _ _ _ i HP ltac:(lia)) as (p & Hp & Lp).
    destruct (shaped_lookup _ _ _ i HV ltac:(lia)) as (v & Hv & Lv).
    destruct (compute_total_energy_ok p v masses) as (k & u & Hku & _);
      [lia|lia|].
    exists (k + u). unfold energy_at.
    rewrite (index_lookup _ _ _ Hp), (index_lookup _ _ _ Hv).
    cbn [bindR]. rewrite Hku. reflexivity.
  - destruct (shaped_lookup _ _ _ T' HP ltac:(lia)) as (p & Hp & Lp).
    unfold energy_at. rewrite (index_lookup _ _ _ Hp). cbn [bindR].
    unfold index. rewrite (lookup_ge_None_2 V T'); [reflexivity|].
    destruct HV as [LV _]. lia.
Qed.

Lemma Qceiling_nonneg x : 0 <= x -> (0 <= Qceiling x)%Z.
Proof.
  intros Hx. pose proof (Qle_ceiling x) as Hc.
  rewrite Zle_Qle. eapply Qle_trans; eassumption.
Qed.

Lemma steps_nonneg duration dt :
  0 <= duration -> 0 < dt -> (0 <= Qceiling (duration / dt))%Z.
Proof.
  intros Hd Hdt. apply Qceiling_nonneg.
  apply Qle_shift_div_l; [exact Hdt|]. rewrite Qmult_0_l. exact Hd.
Qed.

End RunSimulationFacts.

Module RunSimulationTheorems.
Import Numpy Events Bodies Constants Physics Integrators Scenarios.
Import Detection Schemes RunSimulation.
Import NumpyFacts EventsFacts PhysicsFacts BodiesFacts IntegratorsFacts.
Import DetectionFacts SchemesFacts ScenariosFacts RunSimulationFacts.

(** X20.  [load_scenario] looks the name up as it is given (no
    lower-casing, unlike [integrate]): for "red_dwarf_system" it runs
    [create_red_dwarf_system]; for every other name it raises [ValueError]
    with the message "Unknown scenario '<name>'. Available:
    ['red_dwarf_system']", without creating anything. *)
Theorem load_scenario_dispatch `{S : SqrtLib} name :
  (name = "red_dwarf_system"%string ->
   load_scenario name = create_red_dwarf_system) /\
  (name <> "red_dwarf_system"%string ->
   forall w, load_scenario name w =
     (w, Err (ValueError ("Unknown scenario '" +:+ name
                          +:+ "'. Available: ['red_dwarf_system']")))).
Proof.
  unfold load_scenario, SCENARIO_LOADERS. split.
  - intros ->. rewrite lookup_singleton_eq. reflexivity.
  - intros Hne w. rewrite lookup_singleton_ne by congruence. reflexivity.
Qed.

Example load_scenario_capitalised :
  load_scenario (S := MoreSamples.rough_sqrt)
    "Red_Dwarf_System" Samples.world_d =
  (Samples.world_d,
   Err (ValueError
          "Unknown scenario 'Red_Dwarf_System'. Available: ['red_dwarf_system']")).
Proof.
  apply (proj2 (load_scenario_dispatch (S := MoreSamples.rough_sqrt)
                  "Red_Dwarf_System")).
  discriminate.
Qed.

(** X21.  For position and velocity arrays of [T] snapshots with one row
    per mass, [compute_energy_profile] returns [T] values, and value [i] is
    the kinetic plus the potential energy of snapshot [i] (stated for
    snapshots whose bodies are pairwise apart); if the velocity array has
    fewer snapshots than the position array it raises [IndexError]. *)
Theorem compute_energy_profile_values `{F : FloatLib}
    (P V : list (list vec)) masses T N :
  shaped T N P -> length masses = N ->
  (shaped T N V ->
   exists energy,
     compute_energy_profile P V masses = Ok energy /\
     length energy = T /\
     forall i p v, P !! i = Some p -> V !! i = Some v -> pairwise_apart p ->
       exists e, energy !! i = Some e /\
                 e == kinetic_energy masses v + potential_energy p masses) /\
  (forall T', (T' < T)%nat -> shaped T' N V ->
     compute_energy_profile P V masses = Err IndexError).
Proof.
  intros HP Hm. split.
  - intros HV.
    destruct (energy_profile_ok P V masses T N HP HV Hm) as (e & He & Hl & Hv).
    exists e. split; [exact He|]. split; [exact Hl|].
    intros i p v Hp Hv' _. apply Hv; assumption.
  - intros T' Hlt HV. eapply energy_profile_short; eassumption.
Qed.

Lemma compute_energy_profile_values_witness :
  exists energy,
    compute_energy_profile (F := Samples.grid_lib)
      [Samples.positions_f; Samples.positions_f]
      [Samples.velocities_f; Samples.velocities_f] Samples.masses_f = Ok energy /\
    length energy = 2%nat.
Proof.
  destruct (compute_energy_profile_values (F := Samples.grid_lib)
              [Samples.positions_f; Samples.positions_f]
              [Samples.velocities_f; Samples.velocities_f] Samples.masses_f 2 2)
    as [H _].
  - split; [reflexivity|]. repeat constructor.
  - reflexivity.
  - destruct H as (e & He & Hl & _).
    + split; [reflexivity|]. repeat constructor.
    + exists e. split; [exact He|exact Hl].
Defined.

(** X22.  The run of [main], from the parsed configuration to the call of
    [save_outputs], for the scenario "red_dwarf_system", an integrator
    name that lower-cases to "leapfrog", "verlet" or "rk4", a positive
    step size and a non-negative duration: no exception is raised; the
    position and velocity arrays hold [ceil(duration/dt) + 1] snapshots of
    three bodies; there is one timestamp and one energy value per
    snapshot, timestamp [i] being [i * dt]; the pericentre and alignment
    timestamps of the metrics are sorted; and the store the run found is
    left as it was. *)
Theorem main_succeeds `{F : FloatLib} `{S : SqrtLib} config w :
  scenario config = "red_dwarf_system"%string ->
  lower (RunSimulation.integrator config) = "leapfrog"%string \/
  lower (RunSimulation.integrator config) = "verlet"%string \/
  lower (RunSimulation.integrator config) = "rk4"%string ->
  0 < dt config -> 0 <= duration config ->
  exists w' out,
    main config w = (w', Ok out) /\
    Z.of_nat (length (RunSimulation.positions out)) =
      (Qceiling (duration config / dt config) + 1)%Z /\
    length (RunSimulation.velocities out) =
      length (RunSimulation.positions out) /\
    Forall (fun snapshot => length snapshot = 3%nat)
           (RunSimulation.positions out) /\
    length (times out) = length (RunSimulation.positions out) /\
    (forall i, (i < length (times out))%nat ->
       nth i (times out) 0 == inject_Z (Z.of_nat i) * dt config) /\
    length (energy out) = length (RunSimulation.positions out) /\
    sortedb (pericentre_times (metrics out)) = true /\
    sortedb (alignment_times (metrics out)) = true /\
    take (length (heap w)) (heap w') = heap w.
Proof.
  intros Hsc Hm Hdt Hdur.
  assert (Hdt0 : ~ dt config == 0).
  { intros E. rewrite E in Hdt. exact (Qlt_irrefl _ Hdt). }
  pose proof (steps_nonneg _ _ Hdur Hdt) as Hn.
  destruct (create_red_dwarf_system_run w) as (vp & vm & b & _ & Hcreate).
  set (w1 := {| heap := heap w ++ _; evals := evals w |}) in Hcreate.
  set (sc := {| state := _; precession_config := _ |}) in Hcreate.
  destruct (integrate_trajectory (state sc) (duration config) (dt config)
              (RunSimulation.integrator config) compute_accelerations
              (Some (precession_config sc)) w1 Hm Hdt0 Hn)
    as (w2 & P & V & Hint & HP & HV & _ & _ & Hkeep).
  { discriminate. }
  { apply compute_accelerations_returns_rows; [discriminate|].
    apply precession_ready_present; cbn; tauto. }
  { unfold allocated. cbn [state sc bodies heap w1 position velocity].
    rewrite length_app. cbn [length].
    repeat (constructor; [split; cbn [position velocity]; lia|]).
    constructor. }
  cbn [state sc bodies length] in HP, HV.
  set (T := Z.to_nat (Qceiling (duration config / dt config) + 1)) in *.
  assert (LP : length P = T) by apply HP.
  assert (LV : length V = T) by apply HV.
  destruct (energy_profile_ok P V (masses (state sc)) T 3 HP HV eq_refl)
    as (en & Hen & Len & _).
  destruct (body_track_ok P 0 3 (proj2 HP) ltac:(lia)) as (st & Hst & Lst & _).
  destruct (body_track_ok P 1 3 (proj2 HP) ltac:(lia)) as (pl & Hpl & Lpl & _).
  destruct (body_track_ok P 2 3 (proj2 HP) ltac:(lia)) as (mo & Hmo & Lmo & _).
  set (ts := linspace 0 (dt config * inject_Z (Z.of_nat (length P - 1)))
                      (length P)).
  assert (Lts : length ts = length P) by apply length_linspace.
  destruct (summarise_metrics_on_sorted ts st pl mo)
    as (m & Hmet & Sp & Sa & _); try lia.
  { apply increasingb_sortedb, linspace_increasing, Hdt. }
  eexists w2, _. split.
  - unfold main, load_scenario, SCENARIO_LOADERS.
    rewrite Hsc, lookup_singleton_eq.
    rewrite (bind_Ok _ _ _ _ _ Hcreate).
    rewrite (bind_Ok _ _ _ _ _ Hint). cbn [fst snd]. fold ts.
    rewrite bind_liftR_eq, Hen.
    rewrite bind_liftR_eq, Hst.
    rewrite bind_liftR_eq, Hpl.
    rewrite bind_liftR_eq, Hmo.
    rewrite bind_liftR_eq, Hmet. reflexivity.
  - cbn [RunSimulation.positions RunSimulation.velocities times energy metrics].
    split; [lia|]. split; [lia|]. split; [apply HP|]. split; [exact Lts|].
    split; [|split; [lia|split; [exact Sp|split; [exact Sa|]]]].
    + intros i Hi. apply linspace_steps. lia.
    + assert (E : take (length (heap w)) (heap w2) =
                  take (length (heap w)) (take (length (heap w1)) (heap w2))).
      { rewrite take_take. f_equal. cbn [heap w1]. rewrite length_app. lia. }
      rewrite E, Hkeep. cbn [heap w1]. apply take_app_length.
Qed.


Lemma main_succeeds_witness :
  exists w' out,
    main (F := Samples.grid_lib) (S := MoreSamples.rough_sqrt)
         MoreSamples.config_h Samples.world_d = (w', Ok out) /\
    Z.of_nat (length (RunSimulation.positions out)) = 3%Z /\
    length (times out) = length (RunSimulation.positions out) /\
    length (energy out) = length (RunSimulation.positions out) /\
    take 6 (heap w') = Samples.heap_d.
Proof.
  destruct (main_succeeds (F := Samples.grid_lib) (S := MoreSamples.rough_sqrt)
              MoreSamples.config_h Samples.world_d)
    as (w' & out & Hrun & HP & _ & _ & Ht & _ & He & _ & _ & Hk).
  - reflexivity.
  - right. right. reflexivity.
  - reflexivity.
  - discriminate.
  - exists w', out. split; [exact Hrun|]. split; [exact HP|].
    split; [exact Ht|]. split; [exact He|exact Hk].
Defined.

(** X23.  The frames at which [animate_system] shows "Alignment!": for
    strictly increasing timestamps and one row per timestamp in each
    array, the ordered search maps every alignment timestamp back to the
    index of its sample, so [alignment_indices] is exactly the set of
    samples at which [detect_alignments] found an alignment. *)
Theorem alignment_indices_are_samples `{F : FloatLib}
    times star planet moon threshold :
  increasingb times = true ->
  length star = length times -> length planet = length times ->
  length moon = length times ->
  exists a,
    detect_alignments times star planet moon threshold = Ok a /\
    forall frame,
      frame ∈ alignment_indices times a <->
      (frame < length times)%nat /\
      is_alignment star planet moon threshold frame = true.
Proof.
  intros Hinc Hs Hp Hm. eexists. split; [apply detect_alignments_where; lia|].
  intros frame. unfold alignment_indices, times_where.
  rewrite elem_of_list_to_set, list_elem_of_In, map_map, in_map_iff.
  split.
  - intros (i & Hi & Hin). apply filter_In in Hin as [Hin Ht].
    apply in_seq in Hin.
    rewrite searchsorted_own_index in Hi by (assumption || lia).
    subst i. split; [lia|exact Ht].
  - intros [Hf Ht]. exists frame. split.
    + apply searchsorted_own_index; assumption.
    + apply filter_In. split; [apply in_seq; lia|exact Ht].
Qed.

Lemma alignment_indices_are_samples_witness :
  exists a,
    detect_alignments (F := Samples.grid_lib) Samples.times_a Samples.star_a
      Samples.planet_a Samples.moon_a (@deg2rad_1_5 Samples.grid_lib) = Ok a /\
    5%nat ∈ alignment_indices Samples.times_a a.
Proof.
  destruct (alignment_indices_are_samples (F := Samples.grid_lib)
              Samples.times_a Samples.star_a Samples.planet_a Samples.moon_a
              (@deg2rad_1_5 Samples.grid_lib) eq_refl eq_refl eq_refl eq_refl)
    as (a & Ha & Hf).
  exists a. split; [exact Ha|]. apply Hf. split; [simpl; lia|reflexivity].
Defined.

End RunSimulationTheorems.

